(** * Video composition timeline engine: a shallow embedding

    The Python sources under [video_creation/src] are embedded as Rocq
    functions.  Conventions used throughout:

    - Python [str] is [string]; a character is a code point below 256.
    - Python [int] is [Z].  Python [float] is modelled by an exact rational
      ([Q]); binary64 rounding is not part of the model, and numeric results
      are compared with [==].  Easing curves, which need [cos] and a real
      power, are modelled over [R].
    - JSON configuration data is a [value]; a [dict] is an association list
      in key order.
    - A Python exception is the [Raise] branch of [result]. *)

From Stdlib Require Import ZArith QArith Qround Lqa Lia Bool List.
From Stdlib Require Import Ascii String DecimalString.
From Stdlib Require Reals Lra PrimFloat.
Import ListNotations.

Set Warnings "-register-all".

Open Scope string_scope.
Open Scope Q_scope.

(* ===================================================================== *)
(** ** Python runtime: exceptions, values, numbers                        *)
(* ===================================================================== *)

Module Py.

Inductive exn : Type :=
| KeyError (key : string)
| TypeError
| ValueError
| AttributeError
| ZeroDivisionError
| OSError
| UnboundLocalError.

Inductive result (A : Type) : Type :=
| Ok (a : A)
| Raise (e : exn).

Arguments Ok {A} a.
Arguments Raise {A} e.

Definition bind {A B : Type} (m : result A) (k : A -> result B) : result B :=
  match m with
  | Ok a => k a
  | Raise e => Raise e
  end.

(** JSON documents as loaded by [json.load]. *)
Inductive value : Type :=
| VNone
| VBool (b : bool)
| VInt (z : Z)
| VFloat (q : Q)
| VStr (s : string)
| VList (l : list value)
| VDict (d : list (string * value)).

Definition dict : Type := list (string * value).

(** [d.get(k)] / [k in d] / [d[k]]. *)
Fixpoint dict_get (d : dict) (k : string) : option value :=
  match d with
  | [] => None
  | (k', v) :: d' => if String.eqb k' k then Some v else dict_get d' k
  end.

Definition dict_in (k : string) (d : dict) : bool :=
  match dict_get d k with Some _ => true | None => false end.

Definition dict_item (d : dict) (k : string) : result value :=
  match dict_get d k with Some v => Ok v | None => Raise (KeyError k) end.

Definition dict_get_default (d : dict) (k : string) (dflt : value) : value :=
  match dict_get d k with Some v => v | None => dflt end.

(** [v[k]] on an arbitrary value: only a dict can be indexed by a string. *)
Definition subscript (v : value) (k : string) : result value :=
  match v with
  | VDict d => dict_item d k
  | _ => Raise TypeError
  end.

Definition Qltb (a b : Q) : bool := negb (Qle_bool b a).

(** Truth value of an object in a condition. *)
Definition truthy (v : value) : bool :=
  match v with
  | VNone => false
  | VBool b => b
  | VInt z => negb (Z.eqb z 0)
  | VFloat q => negb (Qeq_bool q 0)
  | VStr s => negb (String.eqb s "")
  | VList l => match l with [] => false | _ => true end
  | VDict d => match d with [] => false | _ => true end
  end.

(** Numeric reading of a value ([bool] is a subclass of [int]). *)
Definition as_number (v : value) : option Q :=
  match v with
  | VBool b => Some (if b then 1 else 0)
  | VInt z => Some (inject_Z z)
  | VFloat q => Some q
  | _ => None
  end.

(** [v > 0]. *)
Definition gt_zero (v : value) : result bool :=
  match as_number v with
  | Some q => Ok (Qltb 0 q)
  | None => Raise TypeError
  end.

(** Two-argument builtins [max(a, b)] and [min(a, b)]: the first argument
    is kept unless the second is strictly better. *)
Definition max (a b : Q) : Q := if Qltb a b then b else a.
Definition min (a b : Q) : Q := if Qltb b a then b else a.

(** [int(x)] on a float: truncation toward zero. *)
Definition int (x : Q) : Z := Z.quot (Qnum x) (Zpos (Qden x)).

(** [round(x)] on a float: nearest integer, ties to the even one. *)
Definition round (x : Q) : Z :=
  let f := Qfloor x in
  let r := x - inject_Z f in
  if Qltb r (1 # 2) then f
  else if Qltb (1 # 2) r then (f + 1)%Z
  else if Z.even f then f else (f + 1)%Z.

(** [v == 'literal'] against a string literal. *)
Definition is_str (v : value) (s : string) : bool :=
  match v with VStr s' => String.eqb s' s | _ => false end.

(** [for x in v]: the objects the loop variable takes. *)
Definition iterate (v : value) : result (list value) :=
  match v with
  | VList l => Ok l
  | VStr s => Ok (map (fun c => VStr (String c "")) (list_ascii_of_string s))
  | VDict d => Ok (map (fun kv => VStr (fst kv)) d)
  | _ => Raise TypeError
  end.

(** [v.get(key, default)]: only a dict has the method. *)
Definition get_of (v : value) (key : string) (dflt : value) : result value :=
  match v with
  | VDict d => Ok (dict_get_default d key dflt)
  | _ => Raise AttributeError
  end.

(** A value used as a number. *)
Definition number (v : value) : result Q :=
  match as_number v with
  | Some q => Ok q
  | None => Raise TypeError
  end.

(** [range(n)]. *)
Definition range (n : Z) : list Z := map Z.of_nat (seq 0 (Z.to_nat n)).

End Py.

Notation "x <- m ;; k" := (Py.bind m (fun x => k))
  (at level 61, m at next level, right associativity).

(* ===================================================================== *)
(** ** Python string methods                                              *)
(* ===================================================================== *)

Module PyStr.

(** [str.isspace] on one character (code points below 256). *)
Definition isspace (c : ascii) : bool :=
  let n := nat_of_ascii c in
  ((9 <=? n) && (n <=? 13) || (28 <=? n) && (n <=? 32)
   || (n =? 133) || (n =? 160))%nat.

Definition is_empty (s : string) : bool :=
  match s with EmptyString => true | String _ _ => false end.

(** Truth value of a string: non-empty. *)
Definition truthy (s : string) : bool := negb (is_empty s).

Fixpoint lstrip (s : string) : string :=
  match s with
  | EmptyString => EmptyString
  | String c s' => if isspace c then lstrip s' else s
  end.

Fixpoint rstrip (s : string) : string :=
  match s with
  | EmptyString => EmptyString
  | String c s' =>
      let r := rstrip s' in
      if isspace c && is_empty r then EmptyString else String c r
  end.

(** [s.strip()]. *)
Definition strip (s : string) : string := rstrip (lstrip s).

(** [s.split()]: maximal runs of non-whitespace characters.  [cur] is the
    word being read. *)
Fixpoint words_from (cur : string) (s : string) : list string :=
  match s with
  | EmptyString => if is_empty cur then [] else [cur]
  | String c s' =>
      if isspace c
      then (if is_empty cur then words_from "" s' else cur :: words_from "" s')
      else words_from (cur ++ String c "") s'
  end.

Definition split (s : string) : list string := words_from "" s.

(** [sep.join(l)]. *)
Fixpoint join (sep : string) (l : list string) : string :=
  match l with
  | [] => ""
  | [w] => w
  | w :: l' => w ++ sep ++ join sep l'
  end.

Definition lower_char (c : ascii) : ascii :=
  let n := nat_of_ascii c in
  if ((65 <=? n) && (n <=? 90))%nat then ascii_of_nat (n + 32) else c.

(** [s.lower()] on the ASCII letters. *)
Fixpoint lower (s : string) : string :=
  match s with
  | EmptyString => EmptyString
  | String c s' => String (lower_char c) (lower s')
  end.

(** [needle in hay]. *)
Fixpoint contains (needle hay : string) : bool :=
  if String.prefix needle hay then true
  else match hay with
       | EmptyString => false
       | String _ hay' => contains needle hay'
       end.

End PyStr.

(* ===================================================================== *)
(** ** utils/timing.py                                                    *)
(* ===================================================================== *)

Module Timing.

(** [calculate_text_duration(text, words_per_second, min_duration,
    max_duration)]. *)
Definition calculate_text_duration_with
  (text : string) (words_per_second min_duration max_duration : Q) : Q :=
  if negb (PyStr.truthy text) || negb (PyStr.truthy (PyStr.strip text))
  then min_duration
  else
    let word_count := Z.of_nat (List.length (PyStr.split text)) in
    let reading_time := inject_Z word_count / words_per_second in
    let animation_buffer := 1.5 in
    let comprehension_time := inject_Z word_count * 0.4 in
    let calculated_duration :=
      reading_time + animation_buffer + comprehension_time in
    Py.max min_duration (Py.min calculated_duration max_duration).

(** The call with the default keyword arguments. *)
Definition calculate_text_duration (text : string) : Q :=
  calculate_text_duration_with text 1.8 4.0 10.0.

Import Py.

(** [calculate_text_duration(overlay['text'])] on whatever the field holds:
    a falsy object takes the early return, any other non-string has no
    [strip] method. *)
Definition text_duration_of (text : value) : result Q :=
  match text with
  | VStr s => Ok (calculate_text_duration s)
  | v => if truthy v then Raise AttributeError else Ok 4.0
  end.

(** Body of the loop over overlays. *)
Definition overlay_step (max_text_duration : Q) (overlay : value) : result Q :=
  ty <- subscript overlay "type" ;;
  if is_str ty "text" then
    text <- subscript overlay "text" ;;
    text_duration <- text_duration_of text ;;
    Ok (Py.max max_text_duration text_duration)
  else Ok max_text_duration.

Fixpoint overlay_loop (overlays : list value) (max_text_duration : Q) : result Q :=
  match overlays with
  | [] => Ok max_text_duration
  | overlay :: rest =>
      m <- overlay_step max_text_duration overlay ;;
      overlay_loop rest m
  end.

(** [calculate_scene_duration(scene_data)]. *)
Definition calculate_scene_duration (scene_data : dict) : result value :=
  manual <- match dict_get scene_data "duration" with
            | Some v => gt_zero v
            | None => Ok false
            end ;;
  if manual then dict_item scene_data "duration"
  else
    let base_duration := 4.5 in
    let max_text_duration := base_duration in
    overlays <- iterate (dict_get_default scene_data "overlays" (VList [])) ;;
    max_text_duration <- overlay_loop overlays max_text_duration ;;
    let max_text_duration :=
      if truthy (dict_get_default scene_data "overlays" VNone)
      then max_text_duration + 1.0
      else max_text_duration in
    Ok (VFloat max_text_duration).

End Timing.

(* ===================================================================== *)
(** ** utils/helpers.py                                                   *)
(* ===================================================================== *)

Module Helpers.
Import Py.

Section Builtins.

(** The builtins [float(s)] and [int(s)] on a string. *)
Variable float_of_str : string -> result Q.
Variable int_of_str : string -> result Z.

(** [s.rstrip('%')]. *)
Fixpoint rstrip_percent (s : string) : string :=
  match s with
  | EmptyString => EmptyString
  | String c s' =>
      let r := rstrip_percent s' in
      if Ascii.eqb c "%" && PyStr.is_empty r then EmptyString else String c r
  end.

(** [int(x)] on an arbitrary coordinate value. *)
Definition int_of (x : value) : result Z :=
  match x with
  | VInt z => Ok z
  | VFloat q => Ok (Py.int q)
  | VBool b => Ok (if b then 1%Z else 0%Z)
  | VStr s => int_of_str s
  | _ => Raise TypeError
  end.

(** One axis of the list form: the three-way [if] on the coordinate,
    against the frame dimension [dim]. *)
Definition parse_axis (dim : Z) (x : value) : result value :=
  match x with
  | VStr s =>
      if PyStr.contains "%" s then
        f <- float_of_str (rstrip_percent s) ;;
        Ok (VFloat (inject_Z dim * f / 100))
      else if String.eqb s "center" then Ok (VInt (dim / 2))
      else Ok x
  | VFloat q =>
      if Qle_bool q 1.0 then Ok (VFloat (inject_Z dim * q)) else Ok x
  | _ => Ok x
  end.

(** [parse_position(position, frame_size)]. *)
Definition parse_position (position : value) (frame_size : Z * Z)
  : result (value * value) :=
  let '(width, height) := frame_size in
  if is_str position "center" then
    Ok (VInt (width / 2), VInt (height / 2))
  else if is_str position "top" then
    Ok (VInt (width / 2), VFloat (inject_Z height * 0.15))
  else if is_str position "bottom" then
    Ok (VInt (width / 2), VFloat (inject_Z height * 0.85))
  else
    match position with
    | VList l =>
        match l with
        | [x; y] =>
            x <- parse_axis width x ;;
            y <- parse_axis height y ;;
            x <- int_of x ;;
            y <- int_of y ;;
            Ok (VInt x, VInt y)
        | _ => Raise ValueError
        end
    | _ => Ok (VInt (width / 2), VInt (height / 2))
    end.

End Builtins.

(** [hex_color.lstrip('#')]. *)
Fixpoint lstrip_hash (s : string) : string :=
  match s with
  | String c s' => if Ascii.eqb c "#" then lstrip_hash s' else s
  | EmptyString => EmptyString
  end.

Section Hex.

(** The builtin [int(s, 16)]. *)
Variable int16 : string -> result Z.

(** [hex_to_rgb(hex_color)]. *)
Definition hex_to_rgb (hex_color : string) : result (Z * Z * Z) :=
  let hex_color := lstrip_hash hex_color in
  r <- int16 (String.substring 0 2 hex_color) ;;
  g <- int16 (String.substring 2 2 hex_color) ;;
  b <- int16 (String.substring 4 2 hex_color) ;;
  Ok (r, g, b).

End Hex.

End Helpers.

(* ===================================================================== *)
(** ** effects/text_animator_v2.py                                        *)
(* ===================================================================== *)

Module TextAnimator.
Import Py.

(** [TextAnimator(width, height, fps)]. *)
Record animator : Type := {
  width : Z;
  height : Z;
  fps : Q
}.

Section Pillow.

(** Loaded font objects and their metric query [font.getbbox(text)],
    returning [(left, top, right, bottom)]. *)
Variable pil_font : Type.
Variable getbbox : pil_font -> string -> Z * Z * Z * Z.

(** [bbox[2] - bbox[0]]. *)
Definition bbox_width (bbox : Z * Z * Z * Z) : Z :=
  let '(x0, _, x1, _) := bbox in (x1 - x0)%Z.

(** Loop body of [_wrap_text] on the state [(lines, current_line)]. *)
Definition wrap_step (font : pil_font) (max_width : Z)
  (st : list string * list string) (word : string)
  : list string * list string :=
  let '(lines, current_line) := st in
  let test_line := PyStr.join " " (current_line ++ [word])%list in
  let bbox := getbbox font test_line in
  if (bbox_width bbox <=? max_width)%Z then (lines, (current_line ++ [word])%list)
  else
    let lines :=
      match current_line with
      | [] => lines
      | _ => (lines ++ [PyStr.join " " current_line])%list
      end in
    (lines, [word]).

(** [_wrap_text(self, text, font, max_width)]. *)
Definition _wrap_text (text : string) (font : pil_font) (max_width : Z)
  : list string :=
  let words := PyStr.split text in
  let '(lines, current_line) :=
    fold_left (wrap_step font max_width) words ([], []) in
  let lines :=
    match current_line with
    | [] => lines
    | _ => (lines ++ [PyStr.join " " current_line])%list
    end in
  match lines with
  | [] => [text]
  | _ => lines
  end.

(** One axis of the list form in [_parse_position], against the frame
    dimension [dim]. *)
Definition parse_axis (dim : Z) (x : value) : Z :=
  if is_str x "center" then (dim / 2)%Z
  else
    match x with
    | VFloat q => if Qle_bool q 1.0 then Py.int (inject_Z dim * q)
                  else (dim / 2)%Z
    | VInt z => z
    | VBool b => if b then 1%Z else 0%Z
    | _ => (dim / 2)%Z
    end.

(** [_parse_position(self, position)]. *)
Definition _parse_position (self : animator) (position : value)
  : result (Z * Z) :=
  if is_str position "center" then
    Ok ((width self / 2)%Z, (height self / 2)%Z)
  else if is_str position "top" then
    Ok ((width self / 2)%Z, Py.int (inject_Z (height self) * 0.15))
  else if is_str position "bottom" then
    Ok ((width self / 2)%Z, Py.int (inject_Z (height self) * 0.85))
  else
    match position with
    | VList l =>
        match l with
        | [x; y] =>
            let x := parse_axis (width self) x in
            let y := parse_axis (height self) y in
            Ok (x, y)
        | _ => Raise ValueError
        end
    | _ => Ok ((width self / 2)%Z, (height self / 2)%Z)
    end.

(** Pillow images, described by how they were built.  The pixel data is
    not modelled; mode and size follow the constructors. *)
Inductive image : Type :=
| New (mode : string) (w h : Z)
| DrawText (img : image) (xy : Z * Z) (text : string) (font : pil_font)
    (fill : Z * Z * Z * Z)
| Panel (img : image) (style : string) (fill : Z * Z * Z * Z)
| Faded (img : image) (factor : Q)
| Resized (img : image) (w h : Z)
| Pasted (canvas src : image) (xy : Z * Z).

(** [img.size]: drawing, pasting and alpha changes keep the canvas size. *)
Fixpoint size (img : image) : Z * Z :=
  match img with
  | New _ w h => (w, h)
  | DrawText img _ _ _ _ => size img
  | Panel img _ _ => size img
  | Faded img _ => size img
  | Resized _ w h => (w, h)
  | Pasted canvas _ _ => size canvas
  end.

Definition img_width (img : image) : Z := fst (size img).
Definition img_height (img : image) : Z := snd (size img).

(** [img.mode]. *)
Fixpoint mode (img : image) : string :=
  match img with
  | New m _ _ => m
  | DrawText img _ _ _ _ => mode img
  | Panel img _ _ => mode img
  | Faded img _ => mode img
  | Resized img _ _ => mode img
  | Pasted canvas _ _ => mode canvas
  end.

(** [Image.new(mode, (w, h), (0, 0, 0, 0))]: negative sizes are refused. *)
Definition image_new (m : string) (w h : Z) : result image :=
  if (w <? 0)%Z || (h <? 0)%Z then Raise ValueError else Ok (New m w h).

(** [img.copy()] followed by [putalpha(Brightness(alpha).enhance(f))]. *)
Definition with_alpha (img : image) (f : Q) : image := Faded img f.

(** [for i in range(total_frames): ...; frames.append(np.array(canvas))]. *)
Fixpoint for_frames (body : Z -> result image) (indices : list Z)
  : result (list image) :=
  match indices with
  | [] => Ok []
  | i :: rest =>
      canvas <- body i ;;
      frames <- for_frames body rest ;;
      Ok (canvas :: frames)
  end.

(** [_animate_fade(self, text_img, total_frames, start_time, pos_x, pos_y)]. *)
Definition _animate_fade (self : animator) (text_img : image)
  (total_frames : Z) (start_time : Q) (pos_x pos_y : Z)
  : result (list image) :=
  let anim_frames := Py.int (0.8 * fps self) in
  let start_frame := Py.int (start_time * fps self) in
  for_frames (fun i =>
    canvas <- image_new "RGBA" (width self) (height self) ;;
    if (i <? start_frame)%Z then Ok canvas
    else if (i <? start_frame + anim_frames)%Z then
      let progress := inject_Z (i - start_frame) / inject_Z anim_frames in
      let alpha_img := with_alpha text_img progress in
      let x := (pos_x - img_width text_img / 2)%Z in
      let y := (pos_y - img_height text_img / 2)%Z in
      Ok (Pasted canvas alpha_img (x, y))
    else
      let x := (pos_x - img_width text_img / 2)%Z in
      let y := (pos_y - img_height text_img / 2)%Z in
      Ok (Pasted canvas text_img (x, y)))
  (range total_frames).

(** [_animate_slide(self, text_img, total_frames, start_time, direction,
    pos_x, pos_y)]. *)
Definition _animate_slide (self : animator) (text_img : image)
  (total_frames : Z) (start_time : Q) (direction : string) (pos_x pos_y : Z)
  : result (list image) :=
  let anim_frames := Py.int (0.8 * fps self) in
  let start_frame := Py.int (start_time * fps self) in
  for_frames (fun i =>
    canvas <- image_new "RGBA" (width self) (height self) ;;
    if (i <? start_frame)%Z then Ok canvas
    else if (i <? start_frame + anim_frames)%Z then
      let progress := inject_Z (i - start_frame) / inject_Z anim_frames in
      let progress := 1 - (1 - progress) ^ 3 in
      let final_x := (pos_x - img_width text_img / 2)%Z in
      let final_y := (pos_y - img_height text_img / 2)%Z in
      xy <- (if String.eqb direction "left" then
               Ok (Py.int (- inject_Z (img_width text_img)
                           + inject_Z (img_width text_img + final_x) * progress),
                   final_y)
             else if String.eqb direction "right" then
               Ok (Py.int (inject_Z (width self)
                           + inject_Z (final_x - width self) * progress),
                   final_y)
             else if String.eqb direction "bottom" then
               Ok (final_x,
                   Py.int (inject_Z (height self)
                           + inject_Z (final_y - height self) * progress))
             else if String.eqb direction "top" then
               Ok (final_x,
                   Py.int (- inject_Z (img_height text_img)
                           + inject_Z (img_height text_img + final_y) * progress))
             else Raise UnboundLocalError) ;;
      if Qltb progress 0.3 then
        let alpha_mult := progress / 0.3 in
        let img_copy := with_alpha text_img alpha_mult in
        Ok (Pasted canvas img_copy xy)
      else Ok (Pasted canvas text_img xy)
    else
      let x := (pos_x - img_width text_img / 2)%Z in
      let y := (pos_y - img_height text_img / 2)%Z in
      Ok (Pasted canvas text_img (x, y)))
  (range total_frames).

(** The common tail of [_animate_scale] and [_animate_pop]: resize to
    [scale], centre on the target, fade while [progress] is below
    [fade_until]. *)
Definition paste_scaled (canvas text_img : image) (scale progress fade_until : Q)
  (pos_x pos_y : Z) : image :=
  let new_w := Py.int (inject_Z (img_width text_img) * scale) in
  let new_h := Py.int (inject_Z (img_height text_img) * scale) in
  if (0 <? new_w)%Z && (0 <? new_h)%Z then
    let scaled := Resized text_img new_w new_h in
    let x := (pos_x - img_width scaled / 2)%Z in
    let y := (pos_y - img_height scaled / 2)%Z in
    if Qltb progress fade_until then
      let alpha_mult := progress / fade_until in
      let scaled_copy := with_alpha scaled alpha_mult in
      Pasted canvas scaled_copy (x, y)
    else Pasted canvas scaled (x, y)
  else canvas.

(** [_animate_scale(self, text_img, total_frames, start_time, pos_x, pos_y)]. *)
Definition _animate_scale (self : animator) (text_img : image)
  (total_frames : Z) (start_time : Q) (pos_x pos_y : Z)
  : result (list image) :=
  let anim_frames := Py.int (0.7 * fps self) in
  let start_frame := Py.int (start_time * fps self) in
  for_frames (fun i =>
    canvas <- image_new "RGBA" (width self) (height self) ;;
    if (i <? start_frame)%Z then Ok canvas
    else if (i <? start_frame + anim_frames)%Z then
      let progress := inject_Z (i - start_frame) / inject_Z anim_frames in
      let progress := 1 - (1 - progress) ^ 3 in
      let scale := 0.3 + 0.7 * progress in
      Ok (paste_scaled canvas text_img scale progress 0.4 pos_x pos_y)
    else
      let x := (pos_x - img_width text_img / 2)%Z in
      let y := (pos_y - img_height text_img / 2)%Z in
      Ok (Pasted canvas text_img (x, y)))
  (range total_frames).

(** [_animate_pop(self, text_img, total_frames, start_time, pos_x, pos_y)]. *)
Definition _animate_pop (self : animator) (text_img : image)
  (total_frames : Z) (start_time : Q) (pos_x pos_y : Z)
  : result (list image) :=
  let anim_frames := Py.int (0.5 * fps self) in
  let start_frame := Py.int (start_time * fps self) in
  for_frames (fun i =>
    canvas <- image_new "RGBA" (width self) (height self) ;;
    if (i <? start_frame)%Z then Ok canvas
    else if (i <? start_frame + anim_frames)%Z then
      let progress := inject_Z (i - start_frame) / inject_Z anim_frames in
      let scale :=
        if Qltb progress 0.5 then 0.3 + 0.9 * (progress * 2)
        else 1.2 - 0.2 * ((progress - 0.5) * 2) in
      Ok (paste_scaled canvas text_img scale progress 0.2 pos_x pos_y)
    else
      let x := (pos_x - img_width text_img / 2)%Z in
      let y := (pos_y - img_height text_img / 2)%Z in
      Ok (Pasted canvas text_img (x, y)))
  (range total_frames).

(** [generate_animation_frames(self, text_img, animation, duration,
    start_time, pos_x, pos_y)]. *)
Definition generate_animation_frames (self : animator) (text_img : image)
  (animation : string) (duration start_time : Q) (pos_x pos_y : Z)
  : result (list image) :=
  let total_frames := Py.int (duration * fps self) in
  let a := PyStr.lower animation in
  let has := fun needle => PyStr.contains needle a in
  if has "fade" then
    _animate_fade self text_img total_frames start_time pos_x pos_y
  else if has "slide" && has "left" then
    _animate_slide self text_img total_frames start_time "left" pos_x pos_y
  else if has "slide" && has "right" then
    _animate_slide self text_img total_frames start_time "right" pos_x pos_y
  else if has "slide" && has "bottom" then
    _animate_slide self text_img total_frames start_time "bottom" pos_x pos_y
  else if has "slide" && has "top" then
    _animate_slide self text_img total_frames start_time "top" pos_x pos_y
  else if has "scale" || has "zoom" || has "grow" then
    _animate_scale self text_img total_frames start_time pos_x pos_y
  else if has "pop" || has "bounce" then
    _animate_pop self text_img total_frames start_time pos_x pos_y
  else
    _animate_fade self text_img total_frames start_time pos_x pos_y.

(** *** Text rasterization *)

(** [ImageFont.truetype(name, size)], which raises when no font file is
    found; [ImageFont.load_default()], the face bundled with Pillow; the
    builtin [int(s, 16)]; and [str(x)]. *)
Variable truetype : string -> Z -> result pil_font.
Variable load_default : pil_font.
Variable int16 : string -> result Z.
Variable str : value -> string.

(** What the font loading prints. *)
Inductive font_notice : Type :=
| LoadedFont (name : string)
| FontNotFoundUsingArial (name : string)
| UsingDefaultFont.

(** The font loading of [render_text]: the requested face, else Arial,
    else the bundled default. *)
Definition load_font (font_name : string) (actual_font_size : Z)
  : pil_font * font_notice :=
  match truetype font_name actual_font_size with
  | Ok pil_font => (pil_font, LoadedFont font_name)
  | Raise _ =>
      match truetype "arial.ttf" actual_font_size with
      | Ok pil_font => (pil_font, FontNotFoundUsingArial font_name)
      | Raise _ => (load_default, UsingDefaultFont)
      end
  end.

(** The font loading of [render_text_multicolor]: the requested face,
    else Arial; a failure of the second lookup is not caught. *)
Definition load_font_multicolor (font_name : string) (actual_font_size : Z)
  : result pil_font :=
  match truetype font_name actual_font_size with
  | Ok pil_font => Ok pil_font
  | Raise _ => truetype "arial.ttf" actual_font_size
  end.

(** [text.replace('\\n', '\n')]: a backslash followed by [n] becomes a
    line feed. *)
Fixpoint unescape_newlines (s : string) : string :=
  match s with
  | String "\" (String "n" rest) => String "010" (unescape_newlines rest)
  | String c rest => String c (unescape_newlines rest)
  | EmptyString => EmptyString
  end.

(** [text.split('\n')]. *)
Fixpoint split_lines_from (cur : string) (s : string) : list string :=
  match s with
  | EmptyString => [cur]
  | String c rest =>
      if Ascii.eqb c "010" then cur :: split_lines_from "" rest
      else split_lines_from (cur ++ String c "") rest
  end.

Definition split_lines (s : string) : list string := split_lines_from "" s.

(** [line.strip()] as a condition. *)
Definition not_blank (line : string) : bool :=
  PyStr.truthy (PyStr.strip line).

(** [max(l)] over a non-empty list of ints. *)
Definition max_int (l : list Z) (dflt : Z) : Z :=
  match l with
  | [] => dflt
  | x :: rest => fold_left Z.max rest x
  end.

(** [add_text_background(text_img, style, opacity, padding, color)] from
    effects/text_background.py. *)
Definition add_text_background (text_img : image) (style : string)
  (opacity : Q) (padding : Z) (color : Z * Z * Z) : result image :=
  let '(w, h) := size text_img in
  let new_width := (w + padding * 2)%Z in
  let new_height := (h + padding * 2)%Z in
  bg <- image_new "RGBA" new_width new_height ;;
  let alpha := Py.int (255 * opacity) in
  let '(r, g, b) := color in
  let bg :=
    if String.eqb style "banner" || String.eqb style "rounded"
       || String.eqb style "box" || String.eqb style "gradient"
    then Panel bg style (r, g, b, alpha)
    else bg in
  Ok (Pasted bg text_img (padding, padding)).

(** The three drawing passes for one line: shadow, outline, glyphs. *)
Definition draw_line (img : image) (pil_font : pil_font)
  (actual_font_size : Z) (x y : Z) (line : string) (color : Z * Z * Z)
  (shadow outline : bool) (outline_width : Z) : image :=
  let img :=
    if shadow then
      let shadow_offset := Z.max 3 (actual_font_size / 30) in
      fold_left (fun img i =>
                   let offset := (shadow_offset * i)%Z in
                   let alpha := (80 + (3 - i) * 40)%Z in
                   DrawText img ((x + offset)%Z, (y + offset)%Z) line pil_font
                     (0, 0, 0, alpha)%Z)
                [3; 2; 1]%Z img
    else img in
  let img :=
    if outline then
      let offsets :=
        map (fun k => (k - outline_width)%Z) (range (2 * outline_width + 1)) in
      fold_left (fun img ox =>
        fold_left (fun img oy =>
          if (Z.abs ox =? outline_width)%Z || (Z.abs oy =? outline_width)%Z
          then DrawText img ((x + ox)%Z, (y + oy)%Z) line pil_font
                 (0, 0, 0, 255)%Z
          else img) offsets img) offsets img
    else img in
  let '(r, g, b) := color in
  DrawText img (x, y) line pil_font (r, g, b, 255%Z).

(** The colour argument of [render_text]: a hex string or an RGB tuple. *)
Inductive color_arg : Type :=
| ColorHex (s : string)
| ColorRGB (rgb : Z * Z * Z).

(** [render_text(self, text, font, font_size, color, bold, shadow,
    outline, outline_width, background, bg_opacity, bg_padding)].  The
    [except] branches around [getbbox] are unreachable: the metric query
    is total here. *)
Definition render_text (self : animator) (text font : string) (font_size : Q)
  (color : color_arg) (bold shadow outline : bool) (outline_width : Z)
  (background : option string) (bg_opacity : Q) (bg_padding : Z)
  : result (image * font_notice) :=
  color <- match color with
           | ColorHex s => Helpers.hex_to_rgb int16 s
           | ColorRGB rgb => Ok rgb
           end ;;
  let base_reference := 720 in
  let frame_scale := inject_Z (height self) / base_reference in
  let actual_font_size := Py.int (font_size * frame_scale * 1.5) in
  let font_name := font in
  let '(pil_font, notice) := load_font font_name actual_font_size in
  let text := unescape_newlines text in
  let lines := split_lines text in
  let line_spacing := 1.2 in
  let max_width := Py.int (inject_Z (width self) * 0.9) in
  let wrapped_lines :=
    flat_map (fun line =>
                if not_blank line then _wrap_text line pil_font max_width
                else [""]) lines in
  let line_height := Py.int (inject_Z actual_font_size * line_spacing) in
  let text_widths :=
    map (fun line => bbox_width (getbbox pil_font line))
        (filter not_blank wrapped_lines) in
  let total_width := max_int text_widths (actual_font_size * 5)%Z in
  let total_height :=
    match wrapped_lines with
    | [] => line_height
    | _ => (line_height * Z.of_nat (List.length wrapped_lines))%Z
    end in
  let padding := 40%Z in
  let img_width := (total_width + padding * 2)%Z in
  let img_height := (total_height + padding * 2)%Z in
  img <- image_new "RGBA" img_width img_height ;;
  let '(img, _) :=
    fold_left (fun st line =>
      let '(img, y) := st in
      if negb (not_blank line) then (img, (y + line_height)%Z)
      else
        let line_width := bbox_width (getbbox pil_font line) in
        let x := ((img_width - line_width) / 2)%Z in
        (draw_line img pil_font actual_font_size x y line color shadow
           outline outline_width,
         (y + line_height)%Z))
      wrapped_lines (img, padding) in
  let img :=
    match background with
    | Some style =>
        if PyStr.truthy style && negb (String.eqb style "none") then
          let '(r, g, b) := color in
          let bg_brightness := inject_Z (r + g + b) / 3 in
          let bg_color :=
            if Qltb 128 bg_brightness then (0, 0, 0)%Z
            else (255, 255, 255)%Z in
          match add_text_background img style bg_opacity bg_padding bg_color with
          | Ok img' => img'
          | Raise _ => img
          end
        else img
    | None => img
    end in
  Ok (img, notice).

(** One entry of [text_lines] after wrapping: the text and its colour
    ([None] when the colour is not a string and was left as it is). *)
Definition wrapped_entries (pil_font : pil_font) (max_width : Z)
  (line_data : value) : result (list (string * option (Z * Z * Z))) :=
  line_text <- get_of line_data "text" (VStr "") ;;
  line_color <- get_of line_data "color" (VStr "#FFFFFF") ;;
  match line_text with
  | VStr line_text =>
      if not_blank line_text then
        let wrapped := _wrap_text line_text pil_font max_width in
        match wrapped with
        | [] => Ok []
        | _ =>
            color <- match line_color with
                     | VStr s => c <- Helpers.hex_to_rgb int16 s ;; Ok (Some c)
                     | _ => Ok None
                     end ;;
            Ok (map (fun wrapped_text => (wrapped_text, color)) wrapped)
        end
      else Ok [("", Some (255, 255, 255)%Z)]
  | _ => Raise AttributeError
  end.

Fixpoint wrap_all (pil_font : pil_font) (max_width : Z) (text_lines : list value)
  : result (list (string * option (Z * Z * Z))) :=
  match text_lines with
  | [] => Ok []
  | line_data :: rest =>
      entries <- wrapped_entries pil_font max_width line_data ;;
      rest <- wrap_all pil_font max_width rest ;;
      Ok (entries ++ rest)%list
  end.

(** The drawing loop of [render_text_multicolor]; a colour that is not a
    tuple cannot be extended with the alpha component. *)
Fixpoint draw_colored (img : image) (pil_font : pil_font)
  (actual_font_size img_width line_height y : Z)
  (shadow outline : bool) (outline_width : Z)
  (wrapped_lines : list (string * option (Z * Z * Z))) : result image :=
  match wrapped_lines with
  | [] => Ok img
  | (line_text, line_color) :: rest =>
      if negb (not_blank line_text) then
        draw_colored img pil_font actual_font_size img_width line_height
          (y + line_height)%Z shadow outline outline_width rest
      else
        match line_color with
        | Some color =>
            let line_width := bbox_width (getbbox pil_font line_text) in
            let x := ((img_width - line_width) / 2)%Z in
            let img := draw_line img pil_font actual_font_size x y line_text
                         color shadow outline outline_width in
            draw_colored img pil_font actual_font_size img_width line_height
              (y + line_height)%Z shadow outline outline_width rest
        | None => Raise TypeError
        end
  end.

(** [render_text_multicolor(self, text_lines, font, font_size, bold,
    shadow, outline, outline_width, background, bg_opacity, bg_padding)]. *)
Definition render_text_multicolor (self : animator) (text_lines : value)
  (font : string) (font_size : Q) (bold shadow outline : bool)
  (outline_width : Z) (background : option string) (bg_opacity : Q)
  (bg_padding : Z) : result image :=
  let base_reference := 720 in
  let frame_scale := inject_Z (height self) / base_reference in
  let actual_font_size := Py.int (font_size * frame_scale * 1.5) in
  let font_name := font in
  pil_font <- load_font_multicolor font_name actual_font_size ;;
  let text_lines :=
    match text_lines with
    | VList l => l
    | v => [VDict [("text", VStr (str v)); ("color", VStr "#FFFFFF")]]
    end in
  let line_spacing := 1.2 in
  let max_width := Py.int (inject_Z (width self) * 0.9) in
  let line_height := Py.int (inject_Z actual_font_size * line_spacing) in
  wrapped_lines <- wrap_all pil_font max_width text_lines ;;
  let wrapped_lines :=
    match wrapped_lines with
    | [] => [("ERROR", Some (255, 255, 255)%Z)]
    | _ => wrapped_lines
    end in
  let text_widths :=
    map (fun line => bbox_width (getbbox pil_font line))
        (filter not_blank (map fst wrapped_lines)) in
  let total_width := max_int text_widths (actual_font_size * 10)%Z in
  let total_height := (line_height * Z.of_nat (List.length wrapped_lines))%Z in
  let padding := 40%Z in
  let img_width := (total_width + padding * 2)%Z in
  let img_height := (total_height + padding * 2)%Z in
  img <- image_new "RGBA" img_width img_height ;;
  img <- draw_colored img pil_font actual_font_size img_width line_height
           padding shadow outline outline_width wrapped_lines ;;
  let img :=
    match background with
    | Some style =>
        if PyStr.truthy style && negb (String.eqb style "none") then
          match add_text_background img style bg_opacity bg_padding
                  (0, 0, 0)%Z with
          | Ok img' => img'
          | Raise _ => img
          end
        else img
    | None => img
    end in
  Ok img.

End Pillow.

Arguments wrap_step {pil_font} getbbox font max_width st word.
Arguments _wrap_text {pil_font} getbbox text font max_width.
Arguments New {pil_font} mode w h.
Arguments DrawText {pil_font} img xy text font fill.
Arguments Panel {pil_font} img style fill.
Arguments Faded {pil_font} img factor.
Arguments Resized {pil_font} img w h.
Arguments Pasted {pil_font} canvas src xy.
Arguments size {pil_font} img.
Arguments mode {pil_font} img.
Arguments img_width {pil_font} img.
Arguments img_height {pil_font} img.
Arguments image_new {pil_font} m w h.
Arguments generate_animation_frames {pil_font} self text_img animation
  duration start_time pos_x pos_y.

End TextAnimator.

(* ===================================================================== *)
(** ** moviepy clips                                                      *)
(* ===================================================================== *)

Module MoviePy.
Import Py.

(** Effects attached to a video clip; none of them changes its timing. *)
Inductive effect : Type :=
| CrossFadeIn (d : Q)
| CrossFadeOut (d : Q)
| Position (direction : string) (w : Z) (d : Q)
| FadeIn (d : Q)
| FadeOut (d : Q).

(** A video clip on a timeline: where it starts, how long it lasts, what
    it shows and the effects applied so far. *)
Record clip : Type := {
  source : string;
  size : Z * Z;
  start : Q;
  duration : Q;
  effects : list effect
}.

(** [clip.end]. *)
Definition clip_end (c : clip) : Q := start c + duration c.

(** [clip.set_start(t)]. *)
Definition set_start (c : clip) (t : Q) : clip :=
  {| source := source c; size := size c; start := t;
     duration := duration c; effects := effects c |}.

Definition add_effect (c : clip) (e : effect) : clip :=
  {| source := source c; size := size c; start := start c;
     duration := duration c; effects := (effects c ++ [e])%list |}.

(** [clip.crossfadein(d)], [clip.crossfadeout(d)], [clip.set_position(f)]. *)
Definition crossfadein (c : clip) (d : Q) : clip := add_effect c (CrossFadeIn d).
Definition crossfadeout (c : clip) (d : Q) : clip := add_effect c (CrossFadeOut d).
Definition set_position (c : clip) (direction : string) (w : Z) (d : Q) : clip :=
  add_effect c (Position direction w d).

(** Audio clips, described by how they were built. *)
Inductive audio : Type :=
| AudioFileClip (path : string) (length : Q)
| Subclip (a : audio) (t_start t_end : Q)
| AudioFadeout (a : audio) (d : Q)
| Concatenate (clips : list audio).

(** [audio.duration]. *)
Fixpoint audio_duration (a : audio) : Q :=
  match a with
  | AudioFileClip _ length => length
  | Subclip _ t_start t_end => t_end - t_start
  | AudioFadeout a _ => audio_duration a
  | Concatenate clips =>
      fold_right (fun c total => audio_duration c + total) 0 clips
  end.

(** What a composer hands on: a single scene clip, a
    [CompositeVideoClip] of positioned clips, a clip with an audio track
    set, or a clip with a final fade. *)
Inductive video : Type :=
| Single (c : clip)
| CompositeVideoClip (clips : list clip) (size : Z * Z)
| SetAudio (v : video) (a : audio)
| Faded (v : video) (e : effect).

(** [max(l)] over a non-empty list: the first greatest element. *)
Definition max_list (l : list Q) : Q :=
  match l with
  | [] => 0
  | x :: rest => fold_left Py.max rest x
  end.

(** [video.duration]; a composite lasts until its last clip ends. *)
Fixpoint video_duration (v : video) : Q :=
  match v with
  | Single c => duration c
  | CompositeVideoClip clips _ => max_list (map clip_end clips)
  | SetAudio v _ => video_duration v
  | Faded v _ => video_duration v
  end.

End MoviePy.

(* ===================================================================== *)
(** ** core/video_composer.py                                             *)
(* ===================================================================== *)

Module VideoComposer.
Import Py MoviePy.

(** [VideoComposer(config)]. *)
Record composer : Type := {
  config : dict;
  width : Z;
  height : Z;
  fps : Q
}.

(** One entry of [scene_clips]: [{'clip': ..., 'config': ..., 'index': ...}]. *)
Record scene_clip : Type := {
  sc_clip : clip;
  sc_config : dict;
  sc_index : Z
}.

(** [timeline_clips[-1] = prev_clip.crossfadeout(d)], guarded by
    [if timeline_clips]. *)
Fixpoint fade_out_last (timeline_clips : list clip) (d : Q) : list clip :=
  match timeline_clips with
  | [] => []
  | [prev_clip] => [crossfadeout prev_clip d]
  | c :: rest => c :: fade_out_last rest d
  end.

(** Body of the loop in [_apply_transitions], on the state
    [(timeline_clips, current_time)], for scene number [i]. *)
Definition transition_step (i : Z) (st : list clip * Q)
  (scene_data : scene_clip) : result (list clip * Q) :=
  let '(timeline_clips, current_time) := st in
  let clip := sc_clip scene_data in
  let config := sc_config scene_data in
  let clip := set_start clip current_time in
  r <- (if (0 <? i)%Z && dict_in "transition" config then
          trans_config <- dict_item config "transition" ;;
          trans_type <- get_of trans_config "type" (VStr "fade") ;;
          d <- get_of trans_config "duration" (VFloat 1.0) ;;
          d <- number d ;;
          let trans_duration := Py.min d (duration clip * 0.5) in
          if is_str trans_type "fade" || is_str trans_type "crossfade" then
            let timeline_clips := fade_out_last timeline_clips trans_duration in
            let clip := crossfadein clip trans_duration in
            let clip := set_start clip (current_time - trans_duration) in
            Ok (timeline_clips, clip, current_time - trans_duration)
          else if is_str trans_type "slide" || is_str trans_type "slideIn" then
            direction <- get_of trans_config "from_edge" (VStr "left") ;;
            let w := fst (size clip) in
            let direction :=
              match direction with VStr s => s | _ => "" end in
            let clip :=
              set_start (set_position clip direction w trans_duration)
                (current_time - trans_duration) in
            Ok (timeline_clips, clip, current_time - trans_duration)
          else Ok (timeline_clips, clip, current_time)
        else Ok (timeline_clips, clip, current_time)) ;;
  let '(timeline_clips, clip, current_time) := r in
  Ok ((timeline_clips ++ [clip])%list, current_time + duration clip).

(** [for i, scene_data in enumerate(scene_clips)], from index [i]. *)
Fixpoint transition_loop (i : Z) (scene_clips : list scene_clip)
  (st : list clip * Q) : result (list clip * Q) :=
  match scene_clips with
  | [] => Ok st
  | scene_data :: rest =>
      st <- transition_step i st scene_data ;;
      transition_loop (i + 1) rest st
  end.

(** [_apply_transitions(self, scene_clips)]. *)
Definition _apply_transitions (self : composer) (scene_clips : list scene_clip)
  : result video :=
  match scene_clips with
  | [] => Raise ValueError
  | [only] => Ok (Single (sc_clip only))
  | _ =>
      st <- transition_loop 0 scene_clips ([], 0) ;;
      let '(timeline_clips, _) := st in
      Ok (CompositeVideoClip timeline_clips (width self, height self))
  end.

(** Console lines of [_add_audio] that tell which branch ran. *)
Inductive notice : Type :=
| AudioNotFound (path : string)
| ContinuingWithoutAudio
| AddingAudio (path : string)
| TrimmingAudio
| LoopingAudio
| AudioAdded.

Section Env.

(** [os.path.exists] on a Python object, the length of the audio file at a
    path, and the scene builder. *)
Variable path_exists : value -> result bool.
Variable audio_length : string -> Q.
Variable build_scene : dict -> Z -> result clip.

(** [_build_all_scenes(self)]. *)
Fixpoint build_scene_list (i : Z) (scenes_config : list value)
  : result (list scene_clip) :=
  match scenes_config with
  | [] => Ok []
  | scene_config :: rest =>
      match scene_config with
      | VDict cfg =>
          scene_clip <- build_scene cfg i ;;
          rest <- build_scene_list (i + 1) rest ;;
          Ok ({| sc_clip := scene_clip; sc_config := cfg; sc_index := i |}
              :: rest)
      | _ => Raise AttributeError
      end
  end.

Definition _build_all_scenes (self : composer) : result (list scene_clip) :=
  scenes_config <- iterate (dict_get_default (config self) "scenes" (VList [])) ;;
  build_scene_list 0 scenes_config.

(** [_add_audio(self, video_clip)], with the notices it prints. *)
Definition _add_audio (self : composer) (video_clip : video)
  : result (video * list notice) :=
  audio_path <- dict_item (config self) "audio_path" ;;
  found <- path_exists audio_path ;;
  if negb found then
    Ok (video_clip,
        [AudioNotFound (match audio_path with VStr p => p | _ => "" end);
         ContinuingWithoutAudio])
  else
    match audio_path with
    | VStr p =>
        let audio := AudioFileClip p (audio_length p) in
        let video_duration := video_duration video_clip in
        if Qltb video_duration (audio_duration audio) then
          let audio := Subclip audio 0 video_duration in
          let audio := AudioFadeout audio 1.5 in
          Ok (SetAudio video_clip audio,
              [AddingAudio p; TrimmingAudio; AudioAdded])
        else if Qltb (audio_duration audio) video_duration then
          if Qeq_bool (audio_duration audio) 0 then Raise ZeroDivisionError
          else
            let loops_needed :=
              (Py.int (video_duration / audio_duration audio) + 1)%Z in
            let audio := Concatenate (repeat audio (Z.to_nat loops_needed)) in
            let audio := Subclip audio 0 video_duration in
            let audio := AudioFadeout audio 1.5 in
            Ok (SetAudio video_clip audio,
                [AddingAudio p; LoopingAudio; AudioAdded])
        else
          Ok (SetAudio video_clip audio, [AddingAudio p; AudioAdded])
    | _ => Raise TypeError
    end.

(** [_apply_final_effects(self, video_clip)]. *)
Definition _apply_final_effects (self : composer) (video_clip : video)
  : result video :=
  let intro_fade := dict_get_default (config self) "intro_fade" (VFloat 0.5) in
  let outro_fade := dict_get_default (config self) "outro_fade" (VFloat 1.0) in
  intro <- gt_zero intro_fade ;;
  let video_clip :=
    if intro
    then Faded video_clip
           (FadeIn (match as_number intro_fade with Some q => q | None => 0 end))
    else video_clip in
  outro <- gt_zero outro_fade ;;
  let video_clip :=
    if outro
    then Faded video_clip
           (FadeOut (match as_number outro_fade with Some q => q | None => 0 end))
    else video_clip in
  Ok video_clip.

(** [compose(self)]: the video handed to the encoder, the output path and
    the notices printed while attaching audio. *)
Definition compose (self : composer) : result (string * video * list notice) :=
  scene_clips <- _build_all_scenes self ;;
  final_video <- _apply_transitions self scene_clips ;;
  r <- (if dict_in "audio_path" (config self)
           && truthy (dict_get_default (config self) "audio_path" VNone)
        then _add_audio self final_video
        else Ok (final_video, [])) ;;
  let '(final_video, notices) := r in
  final_video <- _apply_final_effects self final_video ;;
  let output_path :=
    match dict_get_default (config self) "output_path"
            (VStr "output/video.mp4") with
    | VStr p => p
    | _ => ""
    end in
  Ok (output_path, final_video, notices).

End Env.

End VideoComposer.

(* ===================================================================== *)
(** ** core/config_loader.py                                              *)
(* ===================================================================== *)

Module ConfigLoader.
Import Py.

Definition DEFAULTS : dict :=
  [("width", VInt 1184); ("height", VInt 864); ("fps", VInt 30);
   ("output_path", VStr "output/video.mp4"); ("codec", VStr "libx264");
   ("audio_codec", VStr "aac"); ("bitrate", VStr "5000k");
   ("preset", VStr "medium"); ("intro_fade", VFloat 0.5);
   ("outro_fade", VFloat 1.0); ("reading_speed", VFloat 2.5);
   ("min_scene_duration", VFloat 2.0); ("max_scene_duration", VFloat 6.0);
   ("default_font", VStr "Arial"); ("default_font_size", VInt 80);
   ("default_text_color", VStr "#FFFFFF");
   ("enable_text_shadow", VBool true); ("enable_text_bold", VBool true)].

Definition REQUIRED_FIELDS : list string := ["scenes"].

Definition VALID_ANIMATIONS : list string :=
  ["fade_in"; "slide_bottom"; "slide_top"; "slide_left"; "slide_right";
   "scale_in"; "grow"; "typewriter"; "word_by_word";
   "AnimateTextFromLeft"; "AnimateTextGrowFromCenter";
   "AnimateTextFadeInWordByWord"].

Definition VALID_TRANSITIONS : list string :=
  ["fade"; "crossfade"; "slide"; "slideIn"; "zoom"].

Definition VALID_MOTIONS : list string :=
  ["static"; "kenBurns"; "parallax"; "pulse"; "zoom_pulse"].

(** The loader object: [self.config], [self.warnings], [self.errors]. *)
Record loader : Type := {
  config : dict;
  warnings : list string;
  errors : list string
}.

(** [self.warnings.append(msg)] and [self.errors.append(msg)]. *)
Definition warn (self : loader) (msg : string) : loader :=
  {| config := config self; warnings := (warnings self ++ [msg])%list;
     errors := errors self |}.

Definition fail (self : loader) (msg : string) : loader :=
  {| config := config self; warnings := warnings self;
     errors := (errors self ++ [msg])%list |}.

Definition set_config (self : loader) (cfg : dict) : loader :=
  {| config := cfg; warnings := warnings self; errors := errors self |}.

(** [d[k] = v]: an existing key keeps its place. *)
Fixpoint dict_set (d : dict) (k : string) (v : value) : dict :=
  match d with
  | [] => [(k, v)]
  | (k', v') :: d' =>
      if String.eqb k' k then (k, v) :: d' else (k', v') :: dict_set d' k v
  end.

(** [d.update(other)]. *)
Definition dict_update (d other : dict) : dict :=
  fold_left (fun acc kv => dict_set acc (fst kv) (snd kv)) other d.

(** [key in v] for a string key. *)
Definition contains_key (v : value) (key : string) : result bool :=
  match v with
  | VDict d => Ok (dict_in key d)
  | VStr s => Ok (PyStr.contains key s)
  | VList l => Ok (existsb (fun x => is_str x key) l)
  | _ => Raise TypeError
  end.

(** [v not in NAMES] for a list of string literals. *)
Definition not_among (v : value) (names : list string) : bool :=
  negb (existsb (is_str v) names).

(** [v <= 0]. *)
Definition le_zero (v : value) : result bool :=
  match as_number v with
  | Some q => Ok (Qle_bool q 0)
  | None => Raise TypeError
  end.

Definition fmt_int (z : Z) : string :=
  DecimalString.NilZero.string_of_int (Z.to_int z).

(** [posixpath.dirname]. *)
Fixpoint head_to_last_slash (p : string) : option string :=
  match p with
  | EmptyString => None
  | String c p' =>
      match head_to_last_slash p' with
      | Some h => Some (String c h)
      | None => if Ascii.eqb c "/" then Some (String c "") else None
      end
  end.

Fixpoint rstrip_slash (s : string) : string :=
  match s with
  | EmptyString => EmptyString
  | String c s' =>
      let r := rstrip_slash s' in
      if Ascii.eqb c "/" && PyStr.is_empty r then EmptyString else String c r
  end.

Definition dirname (p : string) : string :=
  match head_to_last_slash p with
  | None => ""
  | Some head =>
      if PyStr.is_empty (rstrip_slash head) then head else rstrip_slash head
  end.

Section Env.

(** The file system: [os.path.exists(x)] on a Python object and
    [os.makedirs(dir)], which fails with [None] or gives the new state. *)
Variable FS : Type.
Variable path_exists : FS -> value -> result bool.
Variable makedirs : FS -> string -> option FS.

(** [str(v)], as used when a value is interpolated in an f-string. *)
Variable str : value -> string.

Definition fmt (v : value) : string :=
  match v with VStr s => s | _ => str v end.

(** The loop over [lines] in [_validate_overlays]. *)
Fixpoint check_lines (overlay_name : string) (i : Z) (lines : list value)
  (self : loader) : loader :=
  match lines with
  | [] => self
  | line :: rest =>
      let self :=
        match line with
        | VDict d =>
            if negb (dict_in "text" d)
            then fail self (overlay_name ++ ": lines[" ++ fmt_int i
                            ++ "] missing 'text' field")
            else self
        | _ => fail self (overlay_name ++ ": lines[" ++ fmt_int i
                          ++ "] must be an object")
        end in
      check_lines overlay_name (i + 1) rest self
  end.

(** Body of the loop in [_validate_overlays]; the overlay is handed back
    because its animation may be reset in place. *)
Definition validate_overlay (fs : FS) (scene_name : string) (j : Z)
  (overlay : value) (self : loader) : result (value * loader) :=
  let overlay_name := scene_name ++ " - Overlay " ++ fmt_int (j + 1) in
  has_type <- contains_key overlay "type" ;;
  if negb has_type then
    Ok (overlay, fail self (overlay_name ++ ": Missing overlay 'type'"))
  else
    overlay_type <- subscript overlay "type" ;;
    match overlay with
    | VDict ov =>
        if is_str overlay_type "text" then
          let has_text := dict_in "text" ov in
          let has_lines := dict_in "lines" ov in
          let self :=
            if negb has_text && negb has_lines
            then fail self (overlay_name
                            ++ ": Text overlay missing 'text' or 'lines' field")
            else self in
          let self :=
            if has_lines then
              match dict_get ov "lines" with
              | Some (VList lines) => check_lines overlay_name 0 lines self
              | _ => fail self (overlay_name ++ ": 'lines' must be an array")
              end
            else self in
          match dict_get ov "animation" with
          | Some anim =>
              if not_among anim VALID_ANIMATIONS then
                Ok (VDict (dict_set ov "animation" (VStr "fade_in")),
                    warn self (overlay_name ++ ": Unknown animation '"
                               ++ fmt anim ++ "', using 'fade_in'"))
              else Ok (overlay, self)
          | None => Ok (overlay, self)
          end
        else if is_str overlay_type "image" then
          match dict_get ov "path" with
          | None =>
              Ok (overlay,
                  fail self (overlay_name ++ ": Image overlay missing 'path' field"))
          | Some path =>
              found <- path_exists fs path ;;
              if negb found
              then Ok (overlay, warn self (overlay_name ++ ": Image not found: "
                                           ++ fmt path))
              else Ok (overlay, self)
          end
        else Ok (overlay, self)
    | _ => Raise TypeError
    end.

Fixpoint validate_overlay_list (fs : FS) (scene_name : string) (j : Z)
  (overlays : list value) (self : loader) : result (list value * loader) :=
  match overlays with
  | [] => Ok ([], self)
  | overlay :: rest =>
      r <- validate_overlay fs scene_name j overlay self ;;
      let '(overlay, self) := r in
      r <- validate_overlay_list fs scene_name (j + 1) rest self ;;
      let '(rest, self) := r in
      Ok (overlay :: rest, self)
  end.

(** [_validate_overlays(self, overlays, scene_name)]. *)
Definition _validate_overlays (fs : FS) (overlays : value) (scene_name : string)
  (self : loader) : result (value * loader) :=
  items <- iterate overlays ;;
  r <- validate_overlay_list fs scene_name 0 items self ;;
  let '(items, self) := r in
  match overlays with
  | VList _ => Ok (VList items, self)
  | _ => Ok (overlays, self)
  end.

(** The check shared by the background effect and the transition of a
    scene: an unknown [type] is reported and replaced by [fallback]. *)
Definition check_kind (scene_name what fallback : string)
  (valid : list string) (entry : value) (self : loader)
  : result (value * loader) :=
  has_type <- contains_key entry "type" ;;
  if has_type then
    kind <- subscript entry "type" ;;
    if not_among kind valid then
      match entry with
      | VDict d =>
          Ok (VDict (dict_set d "type" (VStr fallback)),
              warn self (scene_name ++ ": Unknown " ++ what ++ " '" ++ fmt kind
                         ++ "', using '" ++ fallback ++ "'"))
      | _ => Raise TypeError
      end
    else Ok (entry, self)
  else Ok (entry, self).

(** Body of the loop in [_validate_scenes]. *)
Definition validate_scene (fs : FS) (i : Z) (scene : value) (self : loader)
  : result (value * loader) :=
  match scene with
  | VDict sc =>
      let scene_name :=
        fmt (dict_get_default sc "name" (VStr ("Scene " ++ fmt_int (i + 1)))) in
      self <- match dict_get sc "image_path" with
              | None => Ok (fail self (scene_name ++ ": Missing 'image_path'"))
              | Some path =>
                  found <- path_exists fs path ;;
                  if negb found
                  then Ok (fail self (scene_name ++ ": Image not found: "
                                      ++ fmt path))
                  else Ok self
              end ;;
      r <- match dict_get sc "background_effect" with
           | Some effect =>
               r <- check_kind scene_name "motion effect" "static"
                      VALID_MOTIONS effect self ;;
               let '(effect, self) := r in
               Ok (dict_set sc "background_effect" effect, self)
           | None => Ok (sc, self)
           end ;;
      let '(sc, self) := r in
      r <- match dict_get sc "transition" with
           | Some transition =>
               r <- check_kind scene_name "transition" "fade"
                      VALID_TRANSITIONS transition self ;;
               let '(transition, self) := r in
               Ok (dict_set sc "transition" transition, self)
           | None => Ok (sc, self)
           end ;;
      let '(sc, self) := r in
      match dict_get sc "overlays" with
      | Some overlays =>
          r <- _validate_overlays fs overlays scene_name self ;;
          let '(overlays, self) := r in
          Ok (VDict (dict_set sc "overlays" overlays), self)
      | None => Ok (VDict sc, self)
      end
  | _ => Raise AttributeError
  end.

Fixpoint validate_scene_list (fs : FS) (i : Z) (scenes : list value)
  (self : loader) : result (list value * loader) :=
  match scenes with
  | [] => Ok ([], self)
  | scene :: rest =>
      r <- validate_scene fs i scene self ;;
      let '(scene, self) := r in
      r <- validate_scene_list fs (i + 1) rest self ;;
      let '(rest, self) := r in
      Ok (scene :: rest, self)
  end.

(** [_validate_scenes(self)]. *)
Definition _validate_scenes (fs : FS) (self : loader) : result loader :=
  let scenes := dict_get_default (config self) "scenes" (VList []) in
  if negb (truthy scenes) then Ok (fail self "At least one scene is required")
  else
    items <- iterate scenes ;;
    r <- validate_scene_list fs 0 items self ;;
    let '(items, self) := r in
    match scenes with
    | VList _ => Ok (set_config self (dict_set (config self) "scenes" (VList items)))
    | _ => Ok self
    end.

(** The first block of [_validate]: required fields. *)
Fixpoint check_required (fields : list string) (self : loader) : loader :=
  match fields with
  | [] => self
  | field :: rest =>
      let self :=
        if negb (dict_in field (config self))
        then fail self ("Required field '" ++ field ++ "' is missing")
        else self in
      check_required rest self
  end.

(** The block "Validate output path": the directory is created when it is
    missing. *)
Definition check_output_path (fs : FS) (self : loader) : result (loader * FS) :=
  match dict_get (config self) "output_path" with
  | Some (VStr output_path) =>
      let output_dir := dirname output_path in
      if PyStr.truthy output_dir then
        found <- path_exists fs (VStr output_dir) ;;
        if negb found then
          match makedirs fs output_dir with
          | Some fs' => Ok (self, fs')
          | None =>
              Ok (fail self ("Cannot create output directory: " ++ output_dir),
                  fs)
          end
        else Ok (self, fs)
      else Ok (self, fs)
  | Some _ => Raise TypeError
  | None => Ok (self, fs)
  end.

(** The block "Validate audio". *)
Definition check_audio (fs : FS) (self : loader) : result loader :=
  match dict_get (config self) "audio_path" with
  | Some audio_path =>
      found <- path_exists fs audio_path ;;
      if negb found
      then Ok (warn self ("Audio file not found: " ++ fmt audio_path))
      else Ok self
  | None => Ok self
  end.

(** The blocks "Validate dimensions" and "Validate FPS". *)
Definition check_dimensions (self : loader) : result loader :=
  w <- dict_item (config self) "width" ;;
  w_bad <- le_zero w ;;
  bad <- (if w_bad then Ok true
          else h <- dict_item (config self) "height" ;; le_zero h) ;;
  Ok (if bad then fail self "Video dimensions must be positive" else self).

Definition check_fps (self : loader) : result loader :=
  f <- dict_item (config self) "fps" ;;
  bad <- le_zero f ;;
  Ok (if bad then fail self "FPS must be positive" else self).

(** [_validate(self)]. *)
Definition _validate (fs : FS) (self : loader) : result (loader * FS) :=
  let self := check_required REQUIRED_FIELDS self in
  self <- (if dict_in "scenes" (config self)
           then _validate_scenes fs self else Ok self) ;;
  r <- check_output_path fs self ;;
  let '(self, fs) := r in
  self <- check_audio fs self ;;
  self <- check_dimensions self ;;
  self <- check_fps self ;;
  Ok (self, fs).

(** [_preprocess_overlay(self, overlay)]. *)
Definition _preprocess_overlay (self : loader) (overlay : value) : result value :=
  ty <- subscript overlay "type" ;;
  match overlay with
  | VDict ov =>
      if is_str ty "text" then
        let default := fun (ov : dict) (key : string) (v : result value) =>
          if dict_in key ov then Ok ov
          else (x <- v ;; Ok (dict_set ov key x)) in
        ov <- default ov "font" (dict_item (config self) "default_font") ;;
        ov <- default ov "font_size" (dict_item (config self) "default_font_size") ;;
        ov <- default ov "color" (dict_item (config self) "default_text_color") ;;
        ov <- default ov "bold" (dict_item (config self) "enable_text_bold") ;;
        ov <- default ov "shadow" (dict_item (config self) "enable_text_shadow") ;;
        ov <- default ov "animation" (Ok (VStr "fade_in")) ;;
        ov <- default ov "position" (Ok (VStr "center")) ;;
        ov <- default ov "start_time" (Ok (VInt 0)) ;;
        Ok (VDict ov)
      else Ok overlay
  | _ => Raise TypeError
  end.

Fixpoint preprocess_overlay_list (self : loader) (overlays : list value)
  : result (list value) :=
  match overlays with
  | [] => Ok []
  | overlay :: rest =>
      overlay <- _preprocess_overlay self overlay ;;
      rest <- preprocess_overlay_list self rest ;;
      Ok (overlay :: rest)
  end.

(** Body of the loop in [_preprocess_scenes]. *)
Definition preprocess_scene (self : loader) (i : Z) (scene : value)
  : result value :=
  match scene with
  | VDict sc =>
      let sc := if dict_in "name" sc then sc
                else dict_set sc "name" (VStr ("Scene " ++ fmt_int (i + 1))) in
      let sc := if dict_in "background_effect" sc then sc
                else dict_set sc "background_effect"
                       (VDict [("type", VStr "static")]) in
      match dict_get sc "overlays" with
      | Some overlays =>
          items <- iterate overlays ;;
          items <- preprocess_overlay_list self items ;;
          match overlays with
          | VList _ => Ok (VDict (dict_set sc "overlays" (VList items)))
          | _ => Ok (VDict sc)
          end
      | None => Ok (VDict sc)
      end
  | _ => Raise TypeError
  end.

Fixpoint preprocess_scene_list (self : loader) (i : Z) (scenes : list value)
  : result (list value) :=
  match scenes with
  | [] => Ok []
  | scene :: rest =>
      scene <- preprocess_scene self i scene ;;
      rest <- preprocess_scene_list self (i + 1) rest ;;
      Ok (scene :: rest)
  end.

(** [_preprocess_scenes(self)]. *)
Definition _preprocess_scenes (self : loader) : result loader :=
  let scenes := dict_get_default (config self) "scenes" (VList []) in
  items <- iterate scenes ;;
  items <- preprocess_scene_list self 0 items ;;
  match scenes with
  | VList _ =>
      if dict_in "scenes" (config self)
      then Ok (set_config self (dict_set (config self) "scenes" (VList items)))
      else Ok self
  | _ => Ok self
  end.

(** [_merge_with_defaults(self, config)]. *)
Definition _merge_with_defaults (cfg : dict) : dict := dict_update DEFAULTS cfg.

(** [load(self, config_path)], from the parsed JSON document on: merge,
    validate, preprocess, and abort with [ValueError] if any error was
    collected.  Warnings never abort. *)
Definition load (fs : FS) (self : loader) (raw_config : dict)
  : result (dict * loader * FS) :=
  let self := set_config self (_merge_with_defaults raw_config) in
  r <- _validate fs self ;;
  let '(self, fs) := r in
  self <- _preprocess_scenes self ;;
  match errors self with
  | [] => Ok (config self, self, fs)
  | _ => Raise ValueError
  end.

End Env.

Arguments check_audio {FS} path_exists str fs self.
Arguments check_output_path {FS} path_exists makedirs fs self.
Arguments _validate_scenes {FS} path_exists str fs self.
Arguments _validate {FS} path_exists makedirs str fs self.
Arguments load {FS} path_exists makedirs str fs self raw_config.

End ConfigLoader.

(* ===================================================================== *)
(** ** utils/easing.py                                                    *)
(* ===================================================================== *)

Module Easing.
Import Reals.
Local Open Scope R_scope.

(** [linear(t)]. *)
Definition linear (t : R) : R := t.

(** [ease_in_out_cubic(t)]. *)
Definition ease_in_out_cubic (t : R) : R :=
  if Rlt_dec t 0.5 then 4 * t * t * t else 1 - (-2 * t + 2) ^ 3 / 2.

(** [ease_in_out_quad(t)]. *)
Definition ease_in_out_quad (t : R) : R :=
  if Rlt_dec t 0.5 then 2 * t * t else 1 - (-2 * t + 2) ^ 2 / 2.

(** [ease_out_cubic(t)]. *)
Definition ease_out_cubic (t : R) : R := 1 - (1 - t) ^ 3.

(** [ease_in_cubic(t)]. *)
Definition ease_in_cubic (t : R) : R := t * t * t.

(** [ease_out_expo(t)]. *)
Definition ease_out_expo (t : R) : R :=
  if Req_dec_T t 1 then 1 else 1 - Rpower 2 (-10 * t).

(** [ease_in_out_sine(t)]. *)
Definition ease_in_out_sine (t : R) : R := - (cos (PI * t) - 1) / 2.

(** [ease_out_back(t)]. *)
Definition ease_out_back (t : R) : R :=
  let c1 := 1.70158 in
  let c3 := c1 + 1 in
  1 + c3 * (t - 1) ^ 3 + c1 * (t - 1) ^ 2.

Definition EASING_PRESETS : list (string * (R -> R)) :=
  [("motion", ease_in_out_cubic);
   ("zoom", ease_in_out_sine);
   ("text", ease_out_cubic);
   ("transition", ease_in_out_quad);
   ("dynamic", ease_out_back)].

(** [presets.get(name)]. *)
Fixpoint preset (presets : list (string * (R -> R))) (name : string)
  : option (R -> R) :=
  match presets with
  | [] => None
  | (k, f) :: rest => if String.eqb k name then Some f else preset rest name
  end.

(** [get_easing(name)], paired with what the call writes to the console
    or a log: nothing, the body is a single dictionary lookup. *)
Definition get_easing (name : string) : (R -> R) * list string :=
  (match preset EASING_PRESETS name with
   | Some f => f
   | None => ease_in_out_cubic
   end, []).

End Easing.

(* ===================================================================== *)
(** ** effects/motion.py                                                  *)
(* ===================================================================== *)

Module Motion.
Import Py Reals.
Local Open Scope R_scope.

(** One coordinate of what a position function hands to [set_position]:
    the keyword ['center'] or a number. *)
Inductive coordinate : Type :=
| Center
| At (x : R).

Section KenBurns.

(** [create_smooth_ken_burns(clip, duration, zoom, direction, pan,
    easing)], with [w, h = clip.size]; the numbers are floats, the
    direction and the pan are whatever the configuration holds. *)
Variables w h : R.
Variable duration : R.
Variable zoom : R.
Variable direction : value.
Variable pan : value.
Variable easing : string.

(** [t / duration]. *)
Definition elapsed (t : R) : result R :=
  if Req_dec_T duration 0 then Raise ZeroDivisionError else Ok (t / duration).

(** The closure [get_scale(t)]. *)
Definition get_scale (t : R) : result R :=
  let ease_func := fst (Easing.get_easing easing) in
  x <- elapsed t ;;
  let progress := ease_func x in
  if is_str direction "in" then Ok (1.0 + (zoom - 1.0) * progress)
  else if is_str direction "out" then Ok (zoom - (zoom - 1.0) * progress)
  else if is_str direction "in-out" then
    if Rlt_dec progress 0.5
    then Ok (1.0 + (zoom - 1.0) * (progress * 2))
    else Ok (zoom - (zoom - 1.0) * ((progress - 0.5) * 2))
  else Ok zoom.

(** The closure [get_position(t)]. *)
Definition get_position (t : R) : result (coordinate * coordinate) :=
  let ease_func := fst (Easing.get_easing easing) in
  x <- elapsed t ;;
  let progress := ease_func x in
  scale <- get_scale t ;;
  let available_w := w * scale - w in
  let available_h := h * scale - h in
  if is_str pan "right" then Ok (At (- available_w * progress), Center)
  else if is_str pan "left" then
    Ok (At (- available_w * (1 - progress)), Center)
  else if is_str pan "down" then Ok (Center, At (- available_h * progress))
  else if is_str pan "up" then
    Ok (Center, At (- available_h * (1 - progress)))
  else Ok (Center, Center).

End KenBurns.

(** [create_parallax_effect(clip, duration, layers, depth, easing)]: the
    closure [get_position(t)] and the constant factor given to [resize]. *)
Definition parallax_position (w duration depth : R) (easing : string) (t : R)
  : result (coordinate * coordinate) :=
  let ease_func := fst (Easing.get_easing easing) in
  x <- elapsed duration t ;;
  let progress := ease_func x in
  let x_offset := w * depth * (progress - 0.5) * 2 in
  Ok (At x_offset, Center).

Definition parallax_zoom (depth : R) : R := 1.0 + depth * 2.

(** [create_zoom_pulse(clip, duration, intensity, pulses, easing)]: the
    closure [get_scale(t)].  The easing function is looked up but not
    used. *)
Definition pulse_scale (duration intensity pulses : R) (t : R) : result R :=
  x <- elapsed duration t ;;
  let progress := x * pulses in
  let pulse := sin (progress * PI * 2) in
  Ok (1.0 + intensity * pulse).

(** What [apply_motion_effect] does to the clip: nothing, or one of the
    three effect constructors with the arguments read from the
    configuration. *)
Inductive motion : Type :=
| Unchanged
| KenBurns (zoom direction pan : value)
| Parallax (depth : value)
| ZoomPulse (intensity pulses : value).

(** [apply_motion_effect(clip, duration, effect_config)]. *)
Definition apply_motion_effect (effect_config : dict) : motion :=
  let effect_type := dict_get_default effect_config "type" (VStr "static") in
  if is_str effect_type "static" then Unchanged
  else if is_str effect_type "kenBurns" then
    let zoom := dict_get_default effect_config "zoom" (VFloat 1.15) in
    let direction := dict_get_default effect_config "direction" (VStr "in") in
    let pan := dict_get_default effect_config "pan" VNone in
    KenBurns zoom direction pan
  else if is_str effect_type "parallax" then
    let depth := dict_get_default effect_config "depth" (VFloat 0.05) in
    Parallax depth
  else if is_str effect_type "pulse" then
    let intensity := dict_get_default effect_config "intensity" (VFloat 0.03) in
    let pulses := dict_get_default effect_config "pulses" (VInt 1) in
    ZoomPulse intensity pulses
  else Unchanged.

End Motion.

(* ===================================================================== *)
(** ** video_mixer/video_utils.py                                         *)
(* ===================================================================== *)

Module VideoUtils.
Import Py.

(** Video footage, described by how it was built.  [Subclip c a b] stands
    for [c.subclip(a, b)] with [0 <= a <= b], which lasts [b - a];
    [SpeedX c f] for [c.fx(vfx.speedx, f)], which lasts [duration / f]
    (so that a zero factor is a division by zero). *)
Inductive footage : Type :=
| VideoFileClip (path : string) (length : Q)
| Subclip (c : footage) (t_start t_end : Q)
| SpeedX (c : footage) (factor : Q)
| Concatenate (clips : list footage).

(** [clip.duration]. *)
Fixpoint footage_duration (c : footage) : Q :=
  match c with
  | VideoFileClip _ length => length
  | Subclip _ t_start t_end => t_end - t_start
  | SpeedX c factor => footage_duration c / factor
  | Concatenate clips =>
      fold_right (fun c total => footage_duration c + total) 0 clips
  end.

(** What [load_video] prints about the target duration. *)
Inductive notice : Type :=
| Looped
| Trimmed
| NaturalDuration.

Section Env.

(** [os.path.exists] and the length of the video file at a path. *)
Variable path_exists : value -> result bool.
Variable video_length : string -> Q.

(** [load_video(video_path, target_duration, start_time, end_time,
    speed)].  [FileNotFoundError] is an [OSError]. *)
Definition load_video (video_path : value) (target_duration : option Q)
  (start_time : Q) (end_time : option Q) (speed : Q)
  : result (footage * list notice) :=
  found <- path_exists video_path ;;
  if negb found then Raise OSError
  else
    match video_path with
    | VStr p =>
        let clip := VideoFileClip p (video_length p) in
        let from_start :=
          if Qltb 0 start_time
          then Subclip clip start_time (footage_duration clip)
          else clip in
        let clip :=
          match end_time with
          | Some e =>
              if negb (Qeq_bool e 0)
              then Subclip clip start_time (Py.min e (footage_duration clip))
              else from_start
          | None => from_start
          end in
        clip <- (if negb (Qeq_bool speed 1.0) then
                   if Qeq_bool speed 0 then Raise ZeroDivisionError
                   else Ok (SpeedX clip speed)
                 else Ok clip) ;;
        match target_duration with
        | Some target =>
            let current_duration := footage_duration clip in
            if Qltb current_duration target then
              if Qeq_bool current_duration 0 then Raise ZeroDivisionError
              else
                let loops_needed :=
                  (Py.int (target / current_duration) + 1)%Z in
                let clip := Concatenate (repeat clip (Z.to_nat loops_needed)) in
                let clip := Subclip clip 0 target in
                Ok (clip, [Looped])
            else if Qltb target current_duration then
              Ok (Subclip clip 0 target, [Trimmed])
            else Ok (clip, [])
        | None => Ok (clip, [NaturalDuration])
        end
    | _ => Raise TypeError
    end.

End Env.

End VideoUtils.

(* ===================================================================== *)
(** ** video_mixer/mixed_composer.py                                      *)
(* ===================================================================== *)

Module MixedComposer.
Import Py MoviePy.

(** [concatenate_videoclips(clips, method="compose")]: a composite in
    which each clip starts where the one before it ends. *)
Fixpoint place_from (t : Q) (clips : list clip) : list clip :=
  match clips with
  | [] => []
  | c :: rest => set_start c t :: place_from (t + duration c) rest
  end.

(** The frame of the composite: the greatest width and the greatest height
    among the clips. *)
Definition frame_of (clips : list clip) : Z * Z :=
  (TextAnimator.max_int (map (fun c => fst (size c)) clips) 0,
   TextAnimator.max_int (map (fun c => snd (size c)) clips) 0).

(** [_concatenate_scenes(self, scene_clips)].  That each clip is centred
    in the composite is not recorded. *)
Definition _concatenate_scenes (self : VideoComposer.composer)
  (scene_clips : list VideoComposer.scene_clip) : result video :=
  match scene_clips with
  | [] => Raise ValueError
  | [only] => Ok (Single (VideoComposer.sc_clip only))
  | _ =>
      let clips := map VideoComposer.sc_clip scene_clips in
      Ok (CompositeVideoClip (place_from 0 clips) (frame_of clips))
  end.

Section Env.

Variable path_exists : value -> result bool.
Variable audio_length : string -> Q.

(** [_add_audio(self, video_clip)]. *)
Definition _add_audio (self : VideoComposer.composer) (video_clip : video)
  : result video :=
  audio_path <- dict_item (VideoComposer.config self) "audio_path" ;;
  found <- path_exists audio_path ;;
  if negb found then Ok video_clip
  else
    match audio_path with
    | VStr p =>
        let audio := AudioFileClip p (audio_length p) in
        let video_duration := video_duration video_clip in
        if Qltb video_duration (audio_duration audio) then
          let audio := MoviePy.Subclip audio 0 video_duration in
          let audio := AudioFadeout audio 1.5 in
          Ok (SetAudio video_clip audio)
        else if Qltb (audio_duration audio) video_duration then
          if Qeq_bool (audio_duration audio) 0 then Raise ZeroDivisionError
          else
            let loops_needed :=
              (Py.int (video_duration / audio_duration audio) + 1)%Z in
            let audio := MoviePy.Concatenate (repeat audio (Z.to_nat loops_needed)) in
            let audio := MoviePy.Subclip audio 0 video_duration in
            Ok (SetAudio video_clip audio)
        else Ok (SetAudio video_clip audio)
    | _ => Raise TypeError
    end.

End Env.

End MixedComposer.

(* ===================================================================== *)
(** * Properties                                                          *)
(* ===================================================================== *)

(** ** Numbers *)

Module PyFacts.

Lemma Qltb_lt (a b : Q) : Py.Qltb a b = true <-> a < b.
Proof.
  unfold Py.Qltb. rewrite negb_true_iff.
  split; intros H.
  - apply Qnot_le_lt. intros Hle. apply Qle_bool_iff in Hle. congruence.
  - destruct (Qle_bool b a) eqn:E; [|reflexivity].
    apply Qle_bool_iff in E. exfalso. apply (Qlt_not_le _ _ H E).
Qed.

Lemma Qltb_ge (a b : Q) : Py.Qltb a b = false <-> b <= a.
Proof.
  unfold Py.Qltb. rewrite negb_false_iff. apply Qle_bool_iff.
Qed.

Lemma max_cases (a b : Q) :
  (a < b /\ Py.max a b = b) \/ (b <= a /\ Py.max a b = a).
Proof.
  unfold Py.max. destruct (Py.Qltb a b) eqn:E.
  - left. split; [now apply Qltb_lt|reflexivity].
  - right. split; [now apply Qltb_ge|reflexivity].
Qed.

Lemma min_cases (a b : Q) :
  (b < a /\ Py.min a b = b) \/ (a <= b /\ Py.min a b = a).
Proof.
  unfold Py.min. destruct (Py.Qltb b a) eqn:E.
  - left. split; [now apply Qltb_lt|reflexivity].
  - right. split; [now apply Qltb_ge|reflexivity].
Qed.

Lemma max_ge_l (a b : Q) : a <= Py.max a b.
Proof. destruct (max_cases a b) as [[H ->]|[H ->]]; lra. Qed.

Lemma max_ge_r (a b : Q) : b <= Py.max a b.
Proof. destruct (max_cases a b) as [[H ->]|[H ->]]; lra. Qed.

Lemma min_le_l (a b : Q) : Py.min a b <= a.
Proof. destruct (min_cases a b) as [[H ->]|[H ->]]; lra. Qed.

Lemma min_le_r (a b : Q) : Py.min a b <= b.
Proof. destruct (min_cases a b) as [[H ->]|[H ->]]; lra. Qed.

(** [m] is the greatest element of [l] (up to [==]). *)
Definition is_max_of (m : Q) (l : list Q) : Prop :=
  (exists x, In x l /\ x == m) /\ (forall x, In x l -> x <= m).

Lemma fold_max_is_max (l : list Q) (acc : Q) :
  is_max_of (fold_left Py.max l acc) (acc :: l).
Proof.
  revert acc. induction l as [|x l IH]; intros acc; simpl.
  - split; [exists acc; split; [now left|reflexivity]|].
    intros x [<-|[]]. lra.
  - destruct (IH (Py.max acc x)) as [[y [Hy Ey]] Hub]. split.
    + destruct Hy as [Hy|Hy].
      * destruct (max_cases acc x) as [[_ E]|[_ E]].
        -- exists x. split; [right; now left|]. rewrite <- Ey, <- Hy, E. reflexivity.
        -- exists acc. split; [now left|]. rewrite <- Ey, <- Hy, E. reflexivity.
      * exists y. split; [right; now right|exact Ey].
    + intros z [Hz|[Hz|Hz]]; subst.
      * apply Qle_trans with (Py.max z x); [apply max_ge_l|].
        apply Hub. now left.
      * apply Qle_trans with (Py.max acc z); [apply max_ge_r|].
        apply Hub. now left.
      * apply Hub. now right.
Qed.

End PyFacts.

(** ** Strings *)

Module PyStrFacts.
Import PyStr.

(** A string made of whitespace only (the empty string included). *)
Fixpoint blank (s : string) : bool :=
  match s with
  | EmptyString => true
  | String c s' => isspace c && blank s'
  end.

Lemma rstrip_empty_blank (s : string) : rstrip s = "" -> blank s = true.
Proof.
  induction s as [|c s IH]; simpl; [reflexivity|].
  destruct (isspace c); simpl; [|discriminate].
  destruct (rstrip s); simpl; [auto|discriminate].
Qed.

Lemma lstrip_blank (s : string) : blank (lstrip s) = true -> blank s = true.
Proof.
  induction s as [|c s IH]; simpl; [reflexivity|].
  destruct (isspace c) eqn:E; simpl.
  - exact IH.
  - rewrite E. simpl. discriminate.
Qed.

Lemma blank_lstrip (s : string) : blank s = true -> lstrip s = "".
Proof.
  induction s as [|c s IH]; simpl; [reflexivity|].
  intros H. apply andb_true_iff in H as [Hc Hs]. rewrite Hc. auto.
Qed.

Lemma strip_empty_iff (s : string) : strip s = "" <-> blank s = true.
Proof.
  unfold strip. split; intros H.
  - apply lstrip_blank, rstrip_empty_blank, H.
  - rewrite (blank_lstrip _ H). reflexivity.
Qed.

Lemma words_from_blank (cur s : string) :
  blank s = true -> words_from cur s = if is_empty cur then [] else [cur].
Proof.
  revert cur. induction s as [|c s IH]; simpl; intros cur H; [reflexivity|].
  apply andb_true_iff in H as [Hc Hs]. rewrite Hc.
  destruct (is_empty cur); rewrite (IH "" Hs); reflexivity.
Qed.

Lemma split_blank (s : string) : blank s = true -> split s = [].
Proof. intros H. unfold split. now rewrite words_from_blank. Qed.

End PyStrFacts.

(** ** Duration policy (utils/timing.py) *)

Module TimingFacts.
Import Timing PyFacts PyStrFacts.

(** The interval clamp of the specification: [x] itself inside [lo, hi],
    the nearer bound outside. *)
Definition clamp (lo hi x : Q) : Q :=
  if Py.Qltb x lo then lo else if Py.Qltb hi x then hi else x.

Lemma max_min_is_clamp (lo hi x : Q) :
  lo <= hi -> Py.max lo (Py.min x hi) == clamp lo hi x.
Proof.
  intros Hle. unfold clamp.
  destruct (Py.Qltb x lo) eqn:E1; [apply Qltb_lt in E1|apply Qltb_ge in E1];
  (destruct (Py.Qltb hi x) eqn:E2; [apply Qltb_lt in E2|apply Qltb_ge in E2]);
  destruct (min_cases x hi) as [[H1 ->]|[H1 ->]];
  match goal with |- Py.max ?a ?b == _ =>
    destruct (max_cases a b) as [[H2 ->]|[H2 ->]] end; lra.
Qed.

Lemma text_duration_blank (text : string) :
  blank text = true -> calculate_text_duration text = 4.0.
Proof.
  intros H. unfold calculate_text_duration, calculate_text_duration_with.
  apply strip_empty_iff in H. rewrite H. simpl.
  now rewrite orb_true_r.
Qed.

Lemma text_duration_not_blank (text : string) :
  blank text = false ->
  calculate_text_duration text =
    let word_count := Z.of_nat (List.length (PyStr.split text)) in
    Py.max 4.0 (Py.min (inject_Z word_count / 1.8 + 1.5 + inject_Z word_count * 0.4) 10.0).
Proof.
  intros H. unfold calculate_text_duration, calculate_text_duration_with.
  destruct text as [|c text]; [discriminate|].
  destruct (PyStr.strip (String c text)) eqn:E.
  - apply strip_empty_iff in E. congruence.
  - reflexivity.
Qed.

(** C1.  The text display duration is the reading-speed formula clamped to
    [4.0, 10.0]; whitespace-only text gives exactly the floor 4.0; the
    result is a function of the text alone. *)
Theorem text_duration_clamped_formula (text : string) :
  let word_count := inject_Z (Z.of_nat (List.length (PyStr.split text))) in
  let d := calculate_text_duration text in
  d == clamp 4.0 10.0 (word_count / 1.8 + 1.5 + word_count * 0.4)
  /\ (4.0 <= d /\ d <= 10.0)
  /\ (blank text = true -> d = 4.0)
  /\ (forall text', text' = text -> calculate_text_duration text' = d).
Proof.
  cbv zeta.
  assert (Hform : calculate_text_duration text ==
    clamp 4.0 10.0
      (inject_Z (Z.of_nat (List.length (PyStr.split text))) / 1.8 + 1.5 +
       inject_Z (Z.of_nat (List.length (PyStr.split text))) * 0.4)).
  { destruct (blank text) eqn:B.
    - rewrite (text_duration_blank _ B), (split_blank _ B). reflexivity.
    - rewrite (text_duration_not_blank _ B). cbv zeta.
      apply max_min_is_clamp. lra. }
  split; [exact Hform|]. split; [|split].
  - destruct (blank text) eqn:B.
    + rewrite (text_duration_blank _ B). lra.
    + rewrite (text_duration_not_blank _ B). cbv zeta.
      split; [apply max_ge_l|].
      match goal with |- Py.max ?a (Py.min ?x ?h) <= _ =>
        destruct (max_cases a (Py.min x h)) as [[_ ->]|[_ ->]];
        [apply min_le_r|lra] end.
  - apply text_duration_blank.
  - intros text' ->. reflexivity.
Qed.

Lemma text_duration_clamped_formula_witness :
  calculate_text_duration "   " = 4.0
  /\ 4.0 <= calculate_text_duration "Premium Quality Materials" <= 10.0.
Proof.
  destruct (text_duration_clamped_formula "   ") as (_ & _ & H & _).
  destruct (text_duration_clamped_formula "Premium Quality Materials")
    as (_ & Hr & _).
  split; [apply H; reflexivity|exact Hr].
Defined.

(** Scenario B of the specification: ten words clamp to the ceiling. *)
Example text_duration_ten_words :
  calculate_text_duration "one two three four five six seven eight nine ten" == 10.0.
Proof. vm_compute. reflexivity. Qed.

Example text_duration_one_word : calculate_text_duration "Hello" == 4.0.
Proof. vm_compute. reflexivity. Qed.

End TimingFacts.

Module SceneDurationFacts.
Import Py Timing PyFacts.

(** The shape of a well-formed overlay entry: a text overlay carrying the
    string [s], or an overlay of another type. *)
Inductive overlay_shape : value -> option string -> Prop :=
| shape_text (d : dict) (s : string) :
    dict_get d "type" = Some (VStr "text") ->
    dict_get d "text" = Some (VStr s) ->
    overlay_shape (VDict d) (Some s)
| shape_other (d : dict) (ty : value) :
    dict_get d "type" = Some ty ->
    is_str ty "text" = false ->
    overlay_shape (VDict d) None.

(** The texts of the text overlays, in order. *)
Fixpoint texts (shapes : list (option string)) : list string :=
  match shapes with
  | [] => []
  | Some s :: rest => s :: texts rest
  | None :: rest => texts rest
  end.

(** No usable manual duration: the key is absent or holds a number that is
    not positive. *)
Definition no_manual_duration (scene_data : dict) : Prop :=
  dict_get scene_data "duration" = None
  \/ exists v q, dict_get scene_data "duration" = Some v
                 /\ as_number v = Some q /\ q <= 0.

Lemma overlay_step_shape (acc : Q) (ov : value) (sh : option string) :
  overlay_shape ov sh ->
  overlay_step acc ov =
    Ok (match sh with
        | Some s => Py.max acc (calculate_text_duration s)
        | None => acc
        end).
Proof.
  intros H. destruct H as [d s Hty Htx|d ty Hty Hne]; unfold overlay_step; simpl.
  - unfold dict_item. rewrite Hty. simpl. rewrite Htx. reflexivity.
  - unfold dict_item. rewrite Hty. simpl. rewrite Hne. reflexivity.
Qed.

Lemma overlay_loop_shapes (ovs : list value) (shapes : list (option string)) :
  Forall2 overlay_shape ovs shapes ->
  forall acc,
    overlay_loop ovs acc =
      Ok (fold_left Py.max (map calculate_text_duration (texts shapes)) acc).
Proof.
  induction 1 as [|ov sh ovs shapes Hsh _ IH]; intros acc; simpl.
  - reflexivity.
  - rewrite (overlay_step_shape _ _ _ Hsh). simpl.
    destruct sh; simpl; apply IH.
Qed.

Lemma no_manual_continue (scene_data : dict) :
  no_manual_duration scene_data ->
  match dict_get scene_data "duration" with
  | Some v => gt_zero v
  | None => Ok false
  end = Ok false.
Proof.
  intros [->|(v & q & -> & Hq & Hle)]; [reflexivity|].
  unfold gt_zero. rewrite Hq. f_equal. now apply Qltb_ge.
Qed.

(** A scene with one short text overlay. *)
Definition scene_hello : dict :=
  [("overlays", VList [VDict [("type", VStr "text"); ("text", VStr "Hello")]])].

(** A scene whose only overlay is an image. *)
Definition scene_logo : dict :=
  [("overlays", VList [VDict [("type", VStr "image"); ("path", VStr "logo.png")]])].

(** C4, as worded, fails: with a single one-word text overlay the scene
    lasts 5.5 s, not [text_duration + 1.0 = 5.0] s, because the maximum is
    seeded with the 4.5 s base duration. *)
Lemma scene_duration_short_text_counterexample :
  exists r, calculate_scene_duration scene_hello = Ok (VFloat r)
            /\ r == 5.5
            /\ ~ r == calculate_text_duration "Hello" + 1.0.
Proof.
  eexists. split; [vm_compute; reflexivity|]. split.
  - reflexivity.
  - vm_compute. discriminate.
Qed.

(** C4 (amended).  A positive manual duration is returned as it is;
    otherwise a scene without overlays lasts 4.5 s, and a scene with at
    least one text overlay lasts the greatest of 4.5 s and the text
    durations of its text overlays, plus 1.0 s. *)
Theorem scene_duration_policy (scene_data : dict) :
  (forall v q,
      dict_get scene_data "duration" = Some v ->
      as_number v = Some q -> 0 < q ->
      calculate_scene_duration scene_data = Ok v)
  /\ (no_manual_duration scene_data ->
      dict_get scene_data "overlays" = None
      \/ dict_get scene_data "overlays" = Some (VList []) ->
      calculate_scene_duration scene_data = Ok (VFloat 4.5))
  /\ (no_manual_duration scene_data ->
      forall ovs shapes,
        dict_get scene_data "overlays" = Some (VList ovs) ->
        Forall2 overlay_shape ovs shapes ->
        texts shapes <> [] ->
        exists r,
          calculate_scene_duration scene_data = Ok (VFloat r)
          /\ is_max_of (r - 1.0)
               (4.5 :: map calculate_text_duration (texts shapes))).
Proof.
  split; [|split].
  - intros v q Hv Hq Hpos. unfold calculate_scene_duration.
    rewrite Hv. unfold gt_zero. rewrite Hq.
    apply Qltb_lt in Hpos. rewrite Hpos. simpl.
    unfold dict_item. now rewrite Hv.
  - intros Hno Hov. unfold calculate_scene_duration.
    rewrite (no_manual_continue _ Hno). simpl.
    unfold dict_get_default. destruct Hov as [-> | ->]; reflexivity.
  - intros Hno ovs shapes Hov Hsh Hne. unfold calculate_scene_duration.
    rewrite (no_manual_continue _ Hno). simpl.
    unfold dict_get_default. rewrite Hov. simpl.
    rewrite (overlay_loop_shapes _ _ Hsh). simpl.
    destruct ovs as [|ov ovs].
    + inversion Hsh; subst. now elim Hne.
    + eexists. split; [reflexivity|].
      pose proof (fold_max_is_max
        (map calculate_text_duration (texts shapes)) 4.5) as [[x [Hx Ex]] Hub].
      split.
      * exists x. split; [exact Hx|]. rewrite Ex. ring.
      * intros y Hy. apply Hub in Hy. lra.
Qed.

Lemma scene_duration_policy_witness :
  exists r, calculate_scene_duration scene_hello = Ok (VFloat r)
            /\ is_max_of (r - 1.0) [4.5; calculate_text_duration "Hello"].
Proof.
  destruct (scene_duration_policy scene_hello) as (_ & _ & H).
  apply (H (or_introl eq_refl) _ [Some "Hello"] eq_refl).
  - repeat constructor.
  - discriminate.
Defined.

(** The extra second is keyed on the overlay list being non-empty, whatever
    the overlay types: an image-only scene also gets it. *)
Example scene_duration_image_only :
  exists r, calculate_scene_duration scene_logo = Ok (VFloat r) /\ r == 5.5.
Proof. eexists. split; [vm_compute; reflexivity|reflexivity]. Qed.

End SceneDurationFacts.

(** ** Word wrapping (TextAnimator._wrap_text) *)

Module WrapFacts.
Import PyStr PyStrFacts TextAnimator.

Lemma append_empty_r (s : string) : (s ++ "")%string = s.
Proof. induction s; simpl; congruence. Qed.

Lemma append_assoc (a b c : string) :
  ((a ++ b) ++ c)%string = (a ++ (b ++ c))%string.
Proof. induction a; simpl; congruence. Qed.

Lemma append_length (a b : string) :
  String.length (a ++ b) = (String.length a + String.length b)%nat.
Proof. induction a; simpl; congruence. Qed.

(** No whitespace character occurs in the string. *)
Fixpoint nospace (s : string) : bool :=
  match s with
  | EmptyString => true
  | String c s' => negb (isspace c) && nospace s'
  end.

(** A word: non-empty and free of whitespace. *)
Definition word (w : string) : Prop :=
  is_empty w = false /\ nospace w = true.

Lemma nospace_append (a b : string) :
  nospace (a ++ b) = nospace a && nospace b.
Proof.
  induction a as [|c a IH]; simpl; [reflexivity|].
  rewrite IH. now rewrite andb_assoc.
Qed.

Lemma words_from_are_words (s cur : string) :
  nospace cur = true -> Forall word (words_from cur s).
Proof.
  revert cur. induction s as [|c s IH]; intros cur Hcur; simpl.
  - destruct (is_empty cur) eqn:E; constructor; [split; assumption|constructor].
  - destruct (isspace c) eqn:Hc.
    + destruct (is_empty cur) eqn:E.
      * now apply IH.
      * constructor; [split; assumption|now apply IH].
    + apply IH. rewrite nospace_append, Hcur. simpl. now rewrite Hc.
Qed.

Lemma split_words (s : string) : Forall word (split s).
Proof. now apply words_from_are_words. Qed.

Lemma words_from_append (w cur s : string) :
  nospace w = true ->
  words_from cur (w ++ s) = words_from (cur ++ w) s.
Proof.
  revert cur. induction w as [|c w IH]; intros cur H; simpl.
  - now rewrite append_empty_r.
  - simpl in H. apply andb_true_iff in H as [Hc Hw].
    apply negb_true_iff in Hc. rewrite Hc, (IH _ Hw), append_assoc.
    reflexivity.
Qed.

Lemma join_cons2 (w w' : string) (l : list string) :
  join " " (w :: w' :: l) = (w ++ " " ++ join " " (w' :: l))%string.
Proof. reflexivity. Qed.

(** Splitting a line built by [' '.join] gives the words back. *)
Lemma split_join (ws : list string) :
  Forall word ws -> split (join " " ws) = ws.
Proof.
  induction 1 as [|w ws [Hne Hns] Hws IH]; [reflexivity|].
  destruct ws as [|w' l].
  - simpl. unfold split. rewrite <- (append_empty_r w) at 1.
    rewrite (words_from_append _ _ _ Hns). simpl. now rewrite Hne.
  - rewrite join_cons2. unfold split.
    rewrite (words_from_append _ _ _ Hns). simpl. rewrite Hne.
    f_equal. exact IH.
Qed.

Section Wrap.

Variable pil_font : Type.
Variable getbbox : pil_font -> string -> Z * Z * Z * Z.
Variable font : pil_font.
Variable max_width : Z.

Let step := wrap_step getbbox font max_width.

(** The lines handed back when the loop ends in state [st]. *)
Definition finish (st : list string * list string) : list string :=
  let '(lines, current_line) := st in
  match current_line with
  | [] => lines
  | _ => (lines ++ [join " " current_line])%list
  end.

Lemma wrap_text_finish (text : string) :
  _wrap_text getbbox text font max_width =
    match finish (fold_left step (split text) ([], [])) with
    | [] => [text]
    | lines => lines
    end.
Proof.
  unfold _wrap_text, finish, step.
  destruct (fold_left _ _ _) as [lines cur].
  destruct (match cur with [] => lines | _ => _ end); reflexivity.
Qed.

Lemma flat_finish (lines cur : list string) :
  Forall word cur ->
  flat_map split (finish (lines, cur)) = (flat_map split lines ++ cur)%list.
Proof.
  intros Hcur. unfold finish. destruct cur as [|w cur].
  - now rewrite app_nil_r.
  - rewrite flat_map_app. cbn [flat_map].
    now rewrite (split_join _ Hcur), app_nil_r.
Qed.

Lemma wrap_loop_words (words lines cur : list string) :
  Forall word cur -> Forall word words ->
  flat_map split (finish (fold_left step words (lines, cur))) =
    (flat_map split lines ++ cur ++ words)%list.
Proof.
  revert lines cur.
  induction words as [|w words IH]; intros lines cur Hcur Hwords.
  - simpl fold_left. rewrite (flat_finish _ _ Hcur). now rewrite app_nil_r.
  - inversion Hwords as [|? ? Hw Hrest]; subst.
    simpl fold_left.
    destruct (_ <=? _)%Z.
    + rewrite IH; [|apply Forall_app; split; auto|assumption].
      now rewrite <- app_assoc.
    + rewrite IH; [|auto|assumption].
      transitivity ((flat_map split lines ++ cur) ++ [w] ++ words)%list;
        [|now rewrite <- app_assoc].
      f_equal. exact (flat_finish lines cur Hcur).
Qed.

(** Rendered width of a string. *)
Definition text_width (s : string) : Z := bbox_width (getbbox font s).

(** Joining more words around a word never makes the line narrower. *)
Definition width_monotone : Prop :=
  forall (ws : list string) (w : string),
    In w ws -> (text_width w <= text_width (join " " ws))%Z.

(** Every over-wide word seen so far sits alone: on a finished line, or
    as the whole current line. *)
Definition wide_alone (seen : list string) (st : list string * list string)
  : Prop :=
  forall w, In w seen -> (max_width < text_width w)%Z ->
            In w (fst st) \/ snd st = [w].

Lemma wrap_step_wide (seen : list string) (st : list string * list string)
  (v : string) :
  width_monotone -> wide_alone seen st ->
  wide_alone (seen ++ [v]) (step st v).
Proof.
  intros Hmono Hinv w Hin Hwide. destruct st as [lines cur].
  unfold step, wrap_step. fold (text_width (join " " (cur ++ [v]))).
  destruct (_ <=? _)%Z eqn:Hfit.
  - apply Z.leb_le in Hfit.
    assert (Hno : In w (cur ++ [v]) -> False).
    { intros Hmem. pose proof (Hmono _ _ Hmem). lia. }
    apply in_app_or in Hin as [Hin|[<-|[]]].
    + destruct (Hinv w Hin Hwide) as [Hl|Hc]; simpl in *.
      * now left.
      * exfalso. apply Hno. rewrite Hc. now left.
    + exfalso. apply Hno, in_or_app. right. now left.
  - apply in_app_or in Hin as [Hin|[<-|[]]].
    + destruct (Hinv w Hin Hwide) as [Hl|Hc]; simpl in *.
      * left. destruct cur; [assumption|]. apply in_or_app. now left.
      * left. subst cur. apply in_or_app. right. now left.
    + right. reflexivity.
Qed.

Lemma wrap_loop_wide (words seen : list string)
  (st : list string * list string) :
  width_monotone -> wide_alone seen st ->
  wide_alone (seen ++ words) (fold_left step words st).
Proof.
  intros Hmono. revert seen st.
  induction words as [|v words IH]; intros seen st Hinv; simpl.
  - now rewrite app_nil_r.
  - replace (seen ++ v :: words)%list with ((seen ++ [v]) ++ words)%list
      by now rewrite <- app_assoc.
    apply IH. now apply wrap_step_wide.
Qed.

Lemma wide_alone_finish (seen : list string)
  (st : list string * list string) (w : string) :
  wide_alone seen st -> In w seen -> (max_width < text_width w)%Z ->
  In w (finish st).
Proof.
  intros Hinv Hin Hwide. destruct st as [lines cur].
  destruct (Hinv w Hin Hwide) as [Hl|Hc]; simpl in *.
  - destruct cur; [assumption|]. apply in_or_app. now left.
  - subst cur. apply in_or_app. right. now left.
Qed.

End Wrap.

Arguments text_width {pil_font} getbbox font s.
Arguments width_monotone {pil_font} getbbox font.

(** C9.  [_wrap_text] always returns at least one line; splitting the
    returned lines gives back exactly the words of the input, in order;
    and, for a font whose rendered width never shrinks when words are
    joined around a word, a word wider than the maximum width is a line
    of its own. *)
Theorem wrap_text_keeps_words (pil_font : Type)
  (getbbox : pil_font -> string -> Z * Z * Z * Z)
  (font : pil_font) (text : string) (max_width : Z) :
  let lines := _wrap_text getbbox text font max_width in
  lines <> []
  /\ flat_map split lines = split text
  /\ (width_monotone getbbox font ->
      forall w, In w (split text) ->
                (max_width < text_width getbbox font w)%Z ->
                In w lines).
Proof.
  cbv zeta. rewrite wrap_text_finish.
  pose proof (wrap_loop_words pil_font getbbox font max_width
                (split text) [] [] (Forall_nil _) (split_words text)) as Hw.
  simpl in Hw. split; [|split].
  - destruct (finish _); discriminate.
  - destruct (finish _) eqn:E.
    + cbn [flat_map]. now rewrite app_nil_r.
    + exact Hw.
  - intros Hmono w Hin Hwide.
    assert (Hfin : In w (finish
      (fold_left (wrap_step getbbox font max_width) (split text) ([], [])))).
    { apply (wide_alone_finish pil_font getbbox font max_width (split text));
        [|assumption|assumption].
      apply (wrap_loop_wide pil_font getbbox font max_width
               (split text) [] ([], []) Hmono).
      intros ? []. }
    destruct (finish _); [destruct Hfin|exact Hfin].
Qed.

(** A fixed-pitch test font: ten pixels per character. *)
Definition mono10 (_ : unit) (s : string) : Z * Z * Z * Z :=
  (0, 0, 10 * Z.of_nat (String.length s), 20)%Z.

Lemma join_length_member (ws : list string) (w : string) :
  In w ws -> (String.length w <= String.length (join " " ws))%nat.
Proof.
  induction ws as [|v ws IH]; intros Hin; [destruct Hin|].
  destruct ws as [|v' l].
  - destruct Hin as [->|[]]. simpl. lia.
  - rewrite join_cons2, !append_length.
    destruct Hin as [->|Hin]; [lia|]. specialize (IH Hin). lia.
Qed.

Lemma mono10_monotone : width_monotone mono10 tt.
Proof.
  intros ws w Hin. unfold text_width, mono10, bbox_width.
  pose proof (join_length_member ws w Hin). lia.
Qed.

Lemma wrap_text_keeps_words_witness :
  _wrap_text mono10 "a bb   ccccccccccc dd" tt 50
    = ["a bb"; "ccccccccccc"; "dd"]
  /\ In "ccccccccccc" (_wrap_text mono10 "a bb   ccccccccccc dd" tt 50).
Proof.
  split; [reflexivity|].
  destruct (wrap_text_keeps_words unit mono10 tt "a bb   ccccccccccc dd" 50)
    as (_ & _ & H).
  apply (H mono10_monotone).
  - vm_compute. right. right. left. reflexivity.
  - vm_compute. reflexivity.
Defined.

(** A whitespace-only line has no words and is handed back as it is. *)
Example wrap_text_blank : _wrap_text mono10 "   " tt 50 = ["   "].
Proof. reflexivity. Qed.

End WrapFacts.

(** ** Overlay position parsing *)

Module PositionFacts.
Import Py TextAnimator.

(** How a list coordinate resolves against a frame dimension: a float not
    above 1.0 is a fraction of the dimension, an int is a pixel count. *)
Inductive coordinate : value -> (Z -> Z) -> Prop :=
| coordinate_fraction (q : Q) :
    q <= 1.0 ->
    coordinate (VFloat q) (fun dim => Py.int (inject_Z dim * q))
| coordinate_pixel (z : Z) :
    coordinate (VInt z) (fun _ => z).

Lemma int_times_one (dim : Z) : Py.int (inject_Z dim * 1.0) = dim.
Proof.
  unfold Py.int. simpl. apply Z.quot_mul. discriminate.
Qed.

Lemma animator_axis (dim : Z) (x : value) (f : Z -> Z) :
  coordinate x f -> parse_axis dim x = f dim.
Proof.
  intros [q Hq|z]; unfold parse_axis; simpl; [|reflexivity].
  apply Qle_bool_iff in Hq. now rewrite Hq.
Qed.


Definition frame_1184_864 : animator :=
  {| width := 1184; height := 864; fps := 30 |}.


(** The round trip listed among the testable properties: the keyword,
    the fractions and the pixel pair name the same point. *)
Example position_center_round_trip :
  _parse_position frame_1184_864 (VStr "center") = Ok (592%Z, 432%Z)
  /\ _parse_position frame_1184_864 (VList [VFloat 0.5; VFloat 0.5])
     = Ok (592%Z, 432%Z)
  /\ _parse_position frame_1184_864 (VList [VInt 592; VInt 432])
     = Ok (592%Z, 432%Z).
Proof. repeat split. Qed.

End PositionFacts.

(** ** Animation frames (TextAnimator.generate_animation_frames) *)

Module FrameFacts.
Import Py TextAnimator.

Section Frames.

Variable pil_font : Type.
Variable self : animator.
Hypothesis width_nonneg : (0 <= width self)%Z.
Hypothesis height_nonneg : (0 <= height self)%Z.

(** A full-frame RGBA canvas of the animator's frame size. *)
Definition full_frame (f : image pil_font) : Prop :=
  size f = (width self, height self) /\ mode f = "RGBA".

Lemma image_new_frame :
  image_new (pil_font := pil_font) "RGBA" (width self) (height self)
    = Ok (New "RGBA" (width self) (height self)).
Proof.
  unfold image_new.
  destruct (Z.ltb_spec (width self) 0); [lia|].
  destruct (Z.ltb_spec (height self) 0); [lia|]. reflexivity.
Qed.

Lemma new_full_frame : full_frame (New "RGBA" (width self) (height self)).
Proof. split; reflexivity. Qed.

Lemma pasted_full_frame (canvas src : image pil_font) (xy : Z * Z) :
  full_frame canvas -> full_frame (Pasted canvas src xy).
Proof. intros [? ?]. split; assumption. Qed.

Lemma paste_scaled_full_frame (canvas text_img : image pil_font)
  (scale progress fade_until : Q) (pos_x pos_y : Z) :
  full_frame canvas ->
  full_frame (paste_scaled pil_font canvas text_img scale progress
                fade_until pos_x pos_y).
Proof.
  intros H. unfold paste_scaled.
  destruct (_ && _); [|exact H].
  destruct (Qltb _ _); now apply pasted_full_frame.
Qed.

(** A loop whose body always yields a full frame yields one full frame per
    index. *)
Lemma for_frames_full (body : Z -> result (image pil_font)) (indices : list Z) :
  (forall i, exists f, body i = Ok f /\ full_frame f) ->
  exists frames,
    for_frames pil_font body indices = Ok frames
    /\ List.length frames = List.length indices
    /\ Forall full_frame frames.
Proof.
  intros Hbody. induction indices as [|i rest (frames & E & Hlen & Hall)].
  - exists []. repeat split. constructor.
  - destruct (Hbody i) as (f & Ef & Hf).
    exists (f :: frames). simpl. rewrite Ef. simpl. rewrite E. simpl.
    repeat split; [now rewrite Hlen|now constructor].
Qed.

Lemma range_length (n : Z) : Z.of_nat (List.length (range n)) = Z.max 0 n.
Proof. unfold range. rewrite length_map, length_seq. lia. Qed.

Ltac frame_body :=
  intros i; rewrite image_new_frame; cbn [bind];
  try simpl (String.eqb _ _);
  repeat match goal with
         | |- context [if ?b then _ else _] => destruct b
         end;
  eexists; (split; [reflexivity|]);
  auto using new_full_frame, pasted_full_frame, paste_scaled_full_frame.

Lemma animate_fade_frames (text_img : image pil_font) (total_frames : Z)
  (start_time : Q) (pos_x pos_y : Z) :
  exists frames,
    _animate_fade pil_font self text_img total_frames start_time pos_x pos_y
      = Ok frames
    /\ List.length frames = List.length (range total_frames)
    /\ Forall full_frame frames.
Proof. apply for_frames_full. frame_body. Qed.

Lemma animate_scale_frames (text_img : image pil_font) (total_frames : Z)
  (start_time : Q) (pos_x pos_y : Z) :
  exists frames,
    _animate_scale pil_font self text_img total_frames start_time pos_x pos_y
      = Ok frames
    /\ List.length frames = List.length (range total_frames)
    /\ Forall full_frame frames.
Proof. apply for_frames_full. frame_body. Qed.

Lemma animate_pop_frames (text_img : image pil_font) (total_frames : Z)
  (start_time : Q) (pos_x pos_y : Z) :
  exists frames,
    _animate_pop pil_font self text_img total_frames start_time pos_x pos_y
      = Ok frames
    /\ List.length frames = List.length (range total_frames)
    /\ Forall full_frame frames.
Proof. apply for_frames_full. frame_body. Qed.

Lemma animate_slide_frames (text_img : image pil_font) (total_frames : Z)
  (start_time : Q) (direction : string) (pos_x pos_y : Z) :
  In direction ["left"; "right"; "bottom"; "top"] ->
  exists frames,
    _animate_slide pil_font self text_img total_frames start_time direction
      pos_x pos_y = Ok frames
    /\ List.length frames = List.length (range total_frames)
    /\ Forall full_frame frames.
Proof.
  intros Hdir. apply for_frames_full.
  destruct Hdir as [<-|[<-|[<-|[<-|[]]]]]; frame_body.
Qed.

End Frames.

Arguments full_frame {pil_font} self f.

(** A 200x80 text image and the default 1184x864 animator at 30 fps. *)
Definition sample_text_img : image unit := New "RGBA" 200 80.

Definition default_animator : animator :=
  {| width := 1184; height := 864; fps := 30 |}.




(** Scenario B of the specification, fade at 30 fps from 0.5 s: frame 14
    is still blank, frames 15 to 38 fade in, frame 39 shows the text. *)
Example fade_phases :
  exists frames,
    generate_animation_frames default_animator sample_text_img "fade_in"
      10 0.5 592 432 = Ok frames
    /\ nth_error frames 14 = Some (New "RGBA" 1184 864)
    /\ (exists p, nth_error frames 15
          = Some (Pasted (New "RGBA" 1184 864) (Faded sample_text_img p)
                    (492, 392)%Z) /\ p == 0)
    /\ (exists p, nth_error frames 38
          = Some (Pasted (New "RGBA" 1184 864) (Faded sample_text_img p)
                    (492, 392)%Z) /\ p == 23 # 24)
    /\ nth_error frames 39
       = Some (Pasted (New "RGBA" 1184 864) sample_text_img (492, 392)%Z).
Proof.
  eexists. split; [vm_compute; reflexivity|].
  split; [reflexivity|]. split; [|split].
  - eexists. split; [reflexivity|reflexivity].
  - eexists. split; [reflexivity|reflexivity].
  - reflexivity.
Qed.

End FrameFacts.

(** ** Transition timeline (VideoComposer._apply_transitions) *)

Module TransitionFacts.
Import Py MoviePy VideoComposer PyFacts.

(** The transition types for which the composer overlaps the clips. *)
Definition overlapping_type (ty : value) : bool :=
  is_str ty "fade" || is_str ty "crossfade"
  || is_str ty "slide" || is_str ty "slideIn".

(** What a scene's configuration asks for: [Some q] is an overlapping
    transition of configured duration [q]; [None] is no transition, or one
    of a type the composer does not overlap. *)
Inductive transition_of (cfg : dict) : option Q -> Prop :=
| transition_absent :
    dict_get cfg "transition" = None ->
    transition_of cfg None
| transition_overlapping (tc : dict) (q : Q) :
    dict_get cfg "transition" = Some (VDict tc) ->
    overlapping_type (dict_get_default tc "type" (VStr "fade")) = true ->
    as_number (dict_get_default tc "duration" (VFloat 1.0)) = Some q ->
    transition_of cfg (Some q)
| transition_other (tc : dict) (q : Q) :
    dict_get cfg "transition" = Some (VDict tc) ->
    overlapping_type (dict_get_default tc "type" (VStr "fade")) = false ->
    as_number (dict_get_default tc "duration" (VFloat 1.0)) = Some q ->
    transition_of cfg None.

(** Every scene has a well-formed transition entry. *)
Definition well_formed (scenes : list scene_clip) : Prop :=
  Forall (fun s => exists o, transition_of (sc_config s) o) scenes.

(** The effective transition duration: the configured one, capped at half
    the incoming clip. *)
Definition effective (q dur : Q) : Q := Py.min q (dur * 0.5).

(** Where scene number [i] starts when the timeline stands at [ct]. *)
Definition start_for (i : Z) (ct : Q) (o : option Q) (dur : Q) : Q :=
  match o with
  | Some q => if (0 <? i)%Z then ct - effective q dur else ct
  | None => ct
  end.

(** Same start and duration, clip by clip. *)
Definition same_timing (a b : list clip) : Prop :=
  Forall2 (fun x y => start x = start y /\ duration x = duration y) a b.

Lemma same_timing_refl (a : list clip) : same_timing a a.
Proof. induction a; constructor; auto. Qed.

Lemma same_timing_trans (a b c : list clip) :
  same_timing a b -> same_timing b c -> same_timing a c.
Proof.
  intros H. revert c. induction H as [|x y a b Hxy _ IH]; intros c Hc.
  - inversion Hc. constructor.
  - inversion Hc as [|y' z b' c' Hyz Hbc]; subst.
    constructor; [destruct Hxy, Hyz; split; congruence|now apply IH].
Qed.

Lemma fade_out_last_timing (tl : list clip) (d : Q) :
  same_timing tl (fade_out_last tl d).
Proof.
  induction tl as [|c tl IH]; [constructor|].
  destruct tl as [|c' tl].
  - repeat constructor.
  - change (fade_out_last (c :: c' :: tl) d)
      with (c :: fade_out_last (c' :: tl) d).
    constructor; auto.
Qed.

(** The timeline the loop builds from scene [i] on, starting at time
    [ct]: each clip keeps its scene's duration and starts where
    [start_for] says; the next one is placed from this one's end. *)
Inductive resolves : Z -> Q -> list scene_clip -> list clip -> Prop :=
| resolves_nil (i : Z) (ct : Q) : resolves i ct [] []
| resolves_cons (i : Z) (ct : Q) (s : scene_clip) (rest : list scene_clip)
    (c : clip) (clips : list clip) (o : option Q) :
    transition_of (sc_config s) o ->
    duration c = duration (sc_clip s) ->
    start c = start_for i ct o (duration (sc_clip s)) ->
    resolves (i + 1) (start c + duration c) rest clips ->
    resolves i ct (s :: rest) (c :: clips).

Lemma transition_step_spec (i : Z) (tl : list clip) (ct : Q)
  (s : scene_clip) (o : option Q) :
  transition_of (sc_config s) o ->
  exists tl' c ct',
    transition_step i (tl, ct) s = Ok ((tl' ++ [c])%list, ct')
    /\ ct' = start c + duration c
    /\ same_timing tl tl'
    /\ duration c = duration (sc_clip s)
    /\ start c = start_for i ct o (duration (sc_clip s)).
Proof.
  intros Ho. unfold transition_step, start_for, effective.
  destruct (0 <? i)%Z eqn:Hi; cbn [andb].
  - destruct Ho as [Hno|tc q Htc Hty Hq|tc q Htc Hty Hq];
      unfold dict_in, dict_item.
    + rewrite Hno. cbn [bind].
      eexists tl, _, _. split; [reflexivity|]. split; [reflexivity|].
      split; [apply same_timing_refl|]. split; reflexivity.
    + rewrite Htc. cbn [bind get_of].
      unfold number. rewrite Hq. cbn [bind].
      unfold overlapping_type in Hty.
      destruct (is_str _ "fade" || is_str _ "crossfade") eqn:E1.
      * eexists (fade_out_last tl _), _, _.
        split; [reflexivity|]. split; [reflexivity|].
        split; [apply fade_out_last_timing|]. split; reflexivity.
      * rewrite <- orb_assoc in Hty. rewrite orb_false_l in Hty.
        rewrite Hty. cbn [bind].
        eexists tl, _, _. split; [reflexivity|]. split; [reflexivity|].
        split; [apply same_timing_refl|]. split; reflexivity.
    + rewrite Htc. cbn [bind get_of].
      unfold number. rewrite Hq. cbn [bind].
      unfold overlapping_type in Hty.
      rewrite <- orb_assoc in Hty.
      apply orb_false_iff in Hty as [Hty Hs].
      rewrite Hty, Hs.
      eexists tl, _, _. split; [reflexivity|]. split; [reflexivity|].
      split; [apply same_timing_refl|]. split; reflexivity.
  - eexists tl, _, _. split; [reflexivity|]. split; [reflexivity|].
    split; [apply same_timing_refl|].
    split; [reflexivity|]. destruct o; reflexivity.
Qed.

Lemma same_timing_snoc_inv (a b : list clip) (c : clip) :
  same_timing (a ++ [c]) b ->
  exists a' c', b = (a' ++ [c'])%list /\ same_timing a a'
                /\ start c = start c' /\ duration c = duration c'.
Proof.
  intros H. apply Forall2_app_inv_l in H as (a' & l & Ha & Hl & ->).
  inversion Hl as [|? c' ? l' [? ?] Hnil]; subst. inversion Hnil; subst.
  exists a', c'. auto.
Qed.

Lemma transition_loop_spec (scenes : list scene_clip) :
  well_formed scenes ->
  forall (i : Z) (tl : list clip) (ct : Q),
  exists tl' clips ct',
    transition_loop i scenes (tl, ct) = Ok ((tl' ++ clips)%list, ct')
    /\ same_timing tl tl'
    /\ resolves i ct scenes clips.
Proof.
  induction 1 as [|s rest [o Ho] _ IH]; intros i tl ct.
  - exists tl, [], ct. simpl. rewrite app_nil_r.
    split; [reflexivity|]. split; [apply same_timing_refl|constructor].
  - destruct (transition_step_spec i tl ct s o Ho) as (tl1 & c & ct1 & E & -> & Ht & Hd & Hs).
    destruct (IH (i + 1)%Z (tl1 ++ [c])%list (start c + duration c))
      as (X & clips & ct' & E' & HX & Hres).
    apply same_timing_snoc_inv in HX as (tl2 & c' & -> & Ht2 & Hs' & Hd').
    exists tl2, (c' :: clips), ct'. cbn [transition_loop]. rewrite E.
    cbn [bind]. rewrite E'. rewrite <- app_assoc.
    split; [reflexivity|].
    split; [eapply same_timing_trans; eassumption|].
    econstructor; [exact Ho|congruence|congruence|].
    now rewrite <- Hs', <- Hd'.
Qed.

Lemma resolves_app_inv (a b : list scene_clip) :
  forall (i : Z) (ct : Q) (tl : list clip),
  resolves i ct (a ++ b) tl ->
  exists ta tb ct',
    tl = (ta ++ tb)%list /\ List.length ta = List.length a
    /\ resolves (i + Z.of_nat (List.length a)) ct' b tb.
Proof.
  induction a as [|s a IH]; intros i ct tl H.
  - exists [], tl, ct. simpl. rewrite Z.add_0_r. auto.
  - inversion H as [|? ? ? ? c clips o Ho Hd Hs Hrest]; subst.
    destruct (IH _ _ _ Hrest) as (ta & tb & ct' & -> & Hlen & Hb).
    exists (c :: ta), tb, ct'. simpl. split; [reflexivity|].
    split; [now rewrite Hlen|].
    replace (i + Z.pos (Pos.of_succ_nat (List.length a)))%Z
      with (i + 1 + Z.of_nat (List.length a))%Z by lia.
    exact Hb.
Qed.

Lemma last_cons (l : list Q) (x d : Q) : last (x :: l) d = last l x.
Proof.
  revert x d. induction l as [|y l IH]; intros x d; [reflexivity|].
  change (last (x :: y :: l) d) with (last (y :: l) d).
  now rewrite !IH.
Qed.

(** With non-negative durations no clip ends after the last one. *)
Lemma resolves_ends (scenes : list scene_clip) (clips : list clip)
  (i : Z) (ct : Q) :
  resolves i ct scenes clips ->
  (forall s, In s scenes -> 0 <= duration (sc_clip s)) ->
  ct <= last (map clip_end clips) ct
  /\ Forall (fun c => clip_end c <= last (map clip_end clips) ct) clips.
Proof.
  induction 1 as [|i ct s rest c clips o Ho Hd Hs Hres IH]; intros Hpos.
  - simpl. split; [lra|constructor].
  - destruct IH as [Hle Hall]; [intros; apply Hpos; now right|].
    assert (Hdur : 0 <= duration (sc_clip s)) by (apply Hpos; now left).
    assert (Hstep : ct <= start c + duration c).
    { rewrite Hs, Hd. unfold start_for, effective.
      destruct o as [q|]; [|lra].
      destruct (0 <? i)%Z; [|lra].
      pose proof (min_le_r q (duration (sc_clip s) * 0.5)). lra. }
    assert (Hlast : last (map clip_end (c :: clips)) ct
                    = last (map clip_end clips) (start c + duration c)).
    { cbn [map]. apply last_cons. }
    rewrite Hlast. split; [lra|].
    constructor; [exact Hle|exact Hall].
Qed.

Lemma max_list_last (l : list Q) (m : Q) :
  l <> [] -> In m l -> (forall x, In x l -> x <= m) -> max_list l == m.
Proof.
  intros Hne Hin Hub. destruct l as [|x rest]; [congruence|].
  unfold max_list.
  destruct (fold_max_is_max rest x) as [[y [Hy Ey]] Hmax].
  apply Qle_antisym.
  - rewrite <- Ey. now apply Hub.
  - now apply Hmax.
Qed.

Lemma last_in (l : list Q) (d : Q) : l <> [] -> In (last l d) l.
Proof.
  induction l as [|x l IH]; [congruence|]. intros _.
  destruct l as [|y l]; [now left|].
  right. apply IH. discriminate.
Qed.

(** The scene clip a scene builder hands over: starts at 0. *)
Definition scene (name : string) (dur : Q) (cfg : dict) (i : Z) : scene_clip :=
  {| sc_clip := {| source := name; size := (1184, 864)%Z; start := 0;
                   duration := dur; effects := [] |};
     sc_config := cfg; sc_index := i |}.

Definition transition_cfg (ty : string) (d : Q) : dict :=
  [("transition", VDict [("type", VStr ty); ("duration", VFloat d)])].

Definition default_composer : composer :=
  {| config := []; width := 1184; height := 864; fps := 30 |}.

(** C2, as worded, fails: a 1 s scene followed by a 10 s scene with a 3 s
    fade.  The overlap actually used is d = 3 s (scene 2 starts at
    0 + 1 - 3 = -2 s), which is more than half the shorter scene. *)
Lemma transition_clamp_counterexample :
  exists c1 c2 sz,
    _apply_transitions default_composer
      [scene "one" 1 [] 0; scene "two" 10 (transition_cfg "fade" 3) 1]
    = Ok (CompositeVideoClip [c1; c2] sz)
    /\ duration c1 == 1 /\ duration c2 == 10
    /\ start c2 == start c1 + duration c1 - 3
    /\ ~ 3 <= 0.5 * Py.min (duration c1) (duration c2).
Proof.
  eexists _, _, _. split; [vm_compute; reflexivity|].
  repeat split; try reflexivity.
  vm_compute. intros H. now apply H.
Qed.

Lemma resolves_length (scenes : list scene_clip) (clips : list clip)
  (i : Z) (ct : Q) :
  resolves i ct scenes clips -> List.length clips = List.length scenes.
Proof. induction 1; simpl; congruence. Qed.

Lemma transition_of_overlapping (cfg : dict) (o : option Q) (q : Q) :
  transition_of cfg (Some q) -> transition_of cfg o -> o = Some q.
Proof.
  intros Hq Ho.
  inversion Hq as [|tc q' Htc Hty Hnum|]; subst.
  inversion Ho as [Hno|tc2 q2 Htc2 Hty2 Hnum2|tc2 q2 Htc2 Hty2 Hnum2]; subst;
    rewrite Htc in *; try discriminate;
    inversion Htc2; subst; congruence.
Qed.

(** C2 (amended).  A timeline of at least two well-formed scenes with
    non-negative durations is resolved, and the composite lasts exactly
    until its last clip ends.  For adjacent scenes whose second one
    carries a fade, crossfade, slide or slideIn transition of configured
    duration [q], the overlap is [d = min(q, 0.5 * duration_2)] and the
    second clip starts at [start_1 + duration_1 - d]. *)
Theorem transition_overlap (self : composer) (scenes : list scene_clip) :
  well_formed scenes ->
  (forall s, In s scenes -> 0 <= duration (sc_clip s)) ->
  (2 <= List.length scenes)%nat ->
  exists timeline,
    _apply_transitions self scenes
      = Ok (CompositeVideoClip timeline (width self, height self))
    /\ List.length timeline = List.length scenes
    /\ video_duration (CompositeVideoClip timeline (width self, height self))
       == last (map clip_end timeline) 0
    /\ (forall before s1 s2 after q,
          scenes = (before ++ s1 :: s2 :: after)%list ->
          transition_of (sc_config s2) (Some q) ->
          exists tl_before c1 c2 tl_after,
            let d := Py.min q (duration c2 * 0.5) in
            timeline = (tl_before ++ c1 :: c2 :: tl_after)%list
            /\ List.length tl_before = List.length before
            /\ duration c1 = duration (sc_clip s1)
            /\ duration c2 = duration (sc_clip s2)
            /\ start c2 = start c1 + duration c1 - d
            /\ d <= 0.5 * duration c2).
Proof.
  intros Hwf Hpos Hlen.
  destruct (transition_loop_spec scenes Hwf 0 [] 0)
    as (tl0 & timeline & ct' & E & Hnil & Hres).
  inversion Hnil; subst tl0. simpl app in E.
  pose proof (resolves_length _ _ _ _ Hres) as Hlen'.
  exists timeline. split; [|split; [exact Hlen'|split]].
  - unfold _apply_transitions.
    destruct scenes as [|x [|y rest]]; simpl in Hlen; try lia.
    rewrite E. reflexivity.
  - cbn [video_duration].
    destruct (resolves_ends _ _ _ _ Hres Hpos) as [_ Hall].
    assert (Hne : timeline <> []).
    { intros ->. simpl in Hlen'. lia. }
    apply max_list_last.
    + destruct timeline; [congruence|discriminate].
    + apply last_in. destruct timeline; [congruence|discriminate].
    + intros x Hx. apply in_map_iff in Hx as (c & <- & Hc).
      rewrite Forall_forall in Hall. now apply Hall.
  - intros before s1 s2 after q -> Hq.
    apply resolves_app_inv in Hres as (ta & tb & ct1 & -> & Hlena & Hb).
    inversion Hb as [|? ? ? ? c1 clips1 o1 Ho1 Hd1 Hs1 Hrest1]; subst.
    inversion Hrest1 as [|? ? ? ? c2 clips2 o2 Ho2 Hd2 Hs2 Hrest2]; subst.
    rewrite (transition_of_overlapping _ _ _ Hq Ho2) in Hs2.
    exists ta, c1, c2, clips2. cbv zeta.
    split; [reflexivity|]. split; [exact Hlena|].
    split; [exact Hd1|]. split; [exact Hd2|]. split.
    + rewrite Hs2. unfold start_for, effective.
      destruct (Z.ltb_spec 0 (0 + Z.of_nat (List.length before) + 1)); [|lia].
      now rewrite Hd2.
    + pose proof (min_le_r q (duration c2 * 0.5)). lra.
Qed.

Lemma transition_overlap_witness :
  exists c1 c2,
    _apply_transitions default_composer
      [scene "one" 5 [] 0; scene "two" 6 (transition_cfg "crossfade" 1) 1]
    = Ok (CompositeVideoClip [c1; c2] (1184, 864)%Z)
    /\ start c2 = start c1 + duration c1 - Py.min 1 (duration c2 * 0.5).
Proof.
  destruct (transition_overlap default_composer
              [scene "one" 5 [] 0;
               scene "two" 6 (transition_cfg "crossfade" 1) 1])
    as (timeline & E & Hlen & _ & Hadj).
  - repeat constructor.
    + exists None. now constructor.
    + exists (Some 1). econstructor; reflexivity.
  - intros s [<-|[<-|[]]]; vm_compute; discriminate.
  - simpl. lia.
  - destruct (Hadj [] (scene "one" 5 [] 0)
                (scene "two" 6 (transition_cfg "crossfade" 1) 1) [] 1
                eq_refl ltac:(econstructor; reflexivity))
      as (tb & c1 & c2 & ta & -> & Hb & _ & _ & Hs & _).
    destruct tb; [|discriminate].
    destruct ta; [|simpl in Hlen; lia].
    exists c1, c2. split; [exact E|exact Hs].
Defined.

(** A single scene is handed back as it is: the timeline lasts as long as
    the scene. *)
Example single_scene_timeline (self : composer) (s : scene_clip) :
  _apply_transitions self [s] = Ok (Single (sc_clip s))
  /\ video_duration (Single (sc_clip s)) = duration (sc_clip s).
Proof. split; reflexivity. Qed.

(** Scenario C of the specification: 5 s and 6 s scenes with a 1 s
    crossfade last 10 s in total, and the second scene starts at 4 s. *)
Example crossfade_scenario :
  exists c1 c2 sz,
    _apply_transitions default_composer
      [scene "one" 5 [] 0; scene "two" 6 (transition_cfg "crossfade" 1) 1]
    = Ok (CompositeVideoClip [c1; c2] sz)
    /\ start c2 == 4
    /\ video_duration (CompositeVideoClip [c1; c2] sz) == 10.
Proof.
  eexists _, _, _. split; [vm_compute; reflexivity|].
  split; vm_compute; reflexivity.
Qed.

(** A [zoom] transition is accepted by the loader but not handled by the
    composer's loop: the clips simply follow each other. *)
Example zoom_no_overlap :
  exists c1 c2 sz,
    _apply_transitions default_composer
      [scene "one" 5 [] 0; scene "two" 6 (transition_cfg "zoom" 1) 1]
    = Ok (CompositeVideoClip [c1; c2] sz)
    /\ start c2 == 5.
Proof.
  eexists _, _, _. split; [vm_compute; reflexivity|].
  vm_compute; reflexivity.
Qed.

End TransitionFacts.

(** ** Audio attachment (VideoComposer._add_audio) *)

Module AudioFacts.
Import Py MoviePy VideoComposer PyFacts.

(** The outermost operation on the track is the 1.5 s fade-out. *)
Definition has_fadeout (a : audio) : bool :=
  match a with AudioFadeout _ _ => true | _ => false end.

(** The track went through [subclip] (trim, or cut after looping). *)
Fixpoint was_cut (a : audio) : bool :=
  match a with
  | Subclip _ _ _ => true
  | AudioFadeout a _ => was_cut a
  | _ => false
  end.

(** C10.  When the audio file exists and lasts exactly as long as the
    video, the loaded track is attached as it is: no trim, no loop, no
    fade-out.  More generally the attached track carries the fade-out
    exactly when the two durations differ. *)
Theorem audio_equal_length_unmodified
  (path_exists : value -> result bool) (audio_length : string -> Q)
  (self : composer) (video_clip : video) (p : string) :
  dict_get (config self) "audio_path" = Some (VStr p) ->
  path_exists (VStr p) = Ok true ->
  (audio_length p == video_duration video_clip ->
   _add_audio path_exists audio_length self video_clip
   = Ok (SetAudio video_clip (AudioFileClip p (audio_length p)),
         [AddingAudio p; AudioAdded]))
  /\ (forall v notices,
        _add_audio path_exists audio_length self video_clip = Ok (v, notices) ->
        exists a, v = SetAudio video_clip a
                  /\ (has_fadeout a = true
                      <-> ~ audio_length p == video_duration video_clip)
                  /\ (was_cut a = true
                      <-> ~ audio_length p == video_duration video_clip)).
Proof.
  intros Hcfg Hex. unfold _add_audio, dict_item. rewrite Hcfg. cbn [bind].
  rewrite Hex. cbn [bind negb audio_duration].
  split.
  - intros Heq.
    destruct (Qltb (video_duration video_clip) (audio_length p)) eqn:E1.
    { apply Qltb_lt in E1. lra. }
    destruct (Qltb (audio_length p) (video_duration video_clip)) eqn:E2.
    { apply Qltb_lt in E2. lra. }
    reflexivity.
  - intros v notices.
    destruct (Qltb (video_duration video_clip) (audio_length p)) eqn:E1;
      [apply Qltb_lt in E1|apply Qltb_ge in E1].
    { intros H. inversion H; subst. eexists. split; [reflexivity|].
      simpl. split; (split; [intros _; lra|reflexivity]). }
    destruct (Qltb (audio_length p) (video_duration video_clip)) eqn:E2;
      [apply Qltb_lt in E2|apply Qltb_ge in E2].
    { destruct (Qeq_bool (audio_length p) 0); [discriminate|].
      intros H. inversion H; subst. eexists. split; [reflexivity|].
      simpl. split; (split; [intros _; lra|reflexivity]). }
    intros H. inversion H; subst. eexists. split; [reflexivity|].
    simpl. split; (split; [discriminate|intros Hne; exfalso; apply Hne; lra]).
Qed.

Definition solo_video : video :=
  Single {| source := "one"; size := (1184, 864)%Z; start := 0;
            duration := 5.5; effects := [] |}.

Definition composer_with_audio : composer :=
  {| config := [("audio_path", VStr "music.mp3")];
     width := 1184; height := 864; fps := 30 |}.

Lemma audio_equal_length_unmodified_witness :
  _add_audio (fun _ => Ok true) (fun _ => 5.5) composer_with_audio solo_video
  = Ok (SetAudio solo_video (AudioFileClip "music.mp3" 5.5),
        [AddingAudio "music.mp3"; AudioAdded]).
Proof.
  destruct (audio_equal_length_unmodified (fun _ => Ok true) (fun _ => 5.5)
              composer_with_audio solo_video "music.mp3"
              eq_refl eq_refl) as [H _].
  apply H. reflexivity.
Defined.

(** A shorter track is looped, cut to the video length and faded. *)
Example audio_shorter_is_looped :
  _add_audio (fun _ => Ok true) (fun _ => 2) composer_with_audio solo_video
  = Ok (SetAudio solo_video
          (AudioFadeout
             (Subclip (Concatenate (repeat (AudioFileClip "music.mp3" 2) 3))
                0 5.5) 1.5),
        [AddingAudio "music.mp3"; LoopingAudio; AudioAdded]).
Proof. reflexivity. Qed.

End AudioFacts.

(** ** Missing audio file (ConfigLoader._validate, VideoComposer._add_audio) *)

Module MissingAudioFacts.
Import Py MoviePy.

(** A file system given by the list of paths that exist; directories can
    always be created. *)
Definition disk : Type := list string.

Definition on_disk (fs : disk) (x : value) : result bool :=
  match x with
  | VStr p => Ok (existsb (String.eqb p) fs)
  | _ => Raise TypeError
  end.

Definition mkdir (fs : disk) (dir : string) : option disk := Some (dir :: fs).

Definition plain_str (v : value) : string :=
  match v with VStr s => s | _ => "?" end.

Definition fresh_loader : ConfigLoader.loader :=
  {| ConfigLoader.config := []; ConfigLoader.warnings := [];
     ConfigLoader.errors := [] |}.

(** One scene with its background image, and an audio track. *)
Definition project : dict :=
  [("audio_path", VStr "soundtrack/music.mp3");
   ("scenes", VList [VDict [("image_path", VStr "scenes/scene1.png")]])].

(** The image is on disk, the audio file is not. *)
Definition disk_without_audio : disk := ["scenes/scene1.png"; "output"].

(** The audio file is on disk, the image is not. *)
Definition disk_without_image : disk := ["soundtrack/music.mp3"; "output"].

(** A stand-in scene builder: a clip of the scene's computed duration. *)
Definition still_scene (cfg : dict) (i : Z) : result clip :=
  d <- Timing.calculate_scene_duration cfg ;;
  d <- Py.number d ;;
  Ok {| source := "scene"; size := (1184, 864)%Z; start := 0;
        duration := d; effects := [] |}.

Definition composer_of (cfg : dict) : VideoComposer.composer :=
  {| VideoComposer.config := cfg; VideoComposer.width := 1184;
     VideoComposer.height := 864; VideoComposer.fps := 30 |}.


(** By contrast a missing background image is fatal. *)
Example missing_image_is_fatal :
  ConfigLoader.load on_disk mkdir plain_str disk_without_image
    fresh_loader project = Raise ValueError.
Proof. vm_compute. reflexivity. Qed.

Lemma check_audio_keeps_errors (FS : Type)
  (path_exists : FS -> value -> result bool) (str : value -> string)
  (fs : FS) (self st : ConfigLoader.loader) :
  ConfigLoader.check_audio path_exists str fs self = Ok st ->
  ConfigLoader.errors st = ConfigLoader.errors self
  /\ ConfigLoader.config st = ConfigLoader.config self.
Proof.
  unfold ConfigLoader.check_audio.
  destruct (dict_get _ "audio_path") as [v|]; [|intros [= <-]; auto].
  destruct (path_exists fs v) as [[|]|e]; simpl; intros [= <-]; auto.
Qed.



End MissingAudioFacts.

(** ** Font fallback (TextAnimator.render_text, render_text_multicolor) *)

Module FontFacts.
Import Py TextAnimator.

Section Lookup.

Variable pil_font : Type.
Variable getbbox : pil_font -> string -> Z * Z * Z * Z.
Variable truetype : string -> Z -> result pil_font.
Variable load_default : pil_font.
Variable int16 : string -> result Z.
Variable str : value -> string.

(** The single-colour path always ends up with a font: the requested one,
    Arial, or the bundled default when both lookups fail. *)
Lemma load_font_fallback (font_name : string) (size : Z) :
  (forall e1 e2,
     truetype font_name size = Raise e1 ->
     truetype "arial.ttf" size = Raise e2 ->
     load_font pil_font truetype load_default font_name size
       = (load_default, UsingDefaultFont))
  /\ (forall e1 f,
     truetype font_name size = Raise e1 ->
     truetype "arial.ttf" size = Ok f ->
     load_font pil_font truetype load_default font_name size
       = (f, FontNotFoundUsingArial font_name))
  /\ (forall f,
     truetype font_name size = Ok f ->
     load_font pil_font truetype load_default font_name size
       = (f, LoadedFont font_name)).
Proof.
  unfold load_font. repeat split; intros.
  - now rewrite H, H0.
  - now rewrite H, H0.
  - now rewrite H.
Qed.

(** The multi-colour path propagates the failure of the Arial lookup. *)
Lemma multicolor_lookup_propagates (self : animator) (text_lines : value)
  (font : string) (font_size : Q) (bold shadow outline : bool)
  (outline_width : Z) (background : option string) (bg_opacity : Q)
  (bg_padding : Z) (e1 e2 : exn) :
  let size := Py.int (font_size * (inject_Z (height self) / 720) * 1.5) in
  truetype font size = Raise e1 ->
  truetype "arial.ttf" size = Raise e2 ->
  render_text_multicolor pil_font getbbox truetype int16 str self text_lines
    font font_size bold shadow outline outline_width background bg_opacity
    bg_padding = Raise e2.
Proof.
  intros size H1 H2. unfold render_text_multicolor, load_font_multicolor.
  fold size. rewrite H1, H2. reflexivity.
Qed.

End Lookup.

(** A machine without any TrueType file: every lookup raises [OSError].
    Fonts are named by the file they came from. *)
Definition no_fonts (name : string) (size : Z) : result string := Raise OSError.

Definition bundled_default : string := "default".

Definition fixed_pitch (_ : string) (s : string) : Z * Z * Z * Z :=
  (0, 0, 10 * Z.of_nat (String.length s), 20)%Z.

Definition white_only (_ : string) : result Z := Ok 255%Z.

Definition no_str (_ : value) : string := "".

Definition hd_animator : animator :=
  {| width := 1280; height := 720; fps := 30 |}.

(** C6 at its failing input: with no font file on the machine the
    single-colour path renders with the bundled default face, while the
    multi-colour path raises the [OSError] of its Arial lookup. *)
Theorem multicolor_missing_font_raises :
  (exists img,
     render_text string fixed_pitch no_fonts bundled_default white_only
       hd_animator "Hi" "NoSuchFont" 25 (ColorHex "#FFFFFF") true false false
       3 None 0.7 20 = Ok (img, UsingDefaultFont)
     /\ size img = (100, 124)%Z)
  /\ render_text_multicolor string fixed_pitch no_fonts white_only no_str
       hd_animator (VList [VDict [("text", VStr "Hi")]]) "NoSuchFont" 25
       true false false 3 None 0.7 20 = Raise OSError.
Proof.
  split; [|reflexivity].
  eexists. split; [vm_compute; reflexivity|reflexivity].
Qed.

(** With Arial installed both paths fall back to it. *)
Definition arial_only (name : string) (size : Z) : result string :=
  if String.eqb name "arial.ttf" then Ok "arial.ttf" else Raise OSError.

Example both_paths_fall_back_to_arial :
  (exists img,
     render_text string fixed_pitch arial_only bundled_default white_only
       hd_animator "Hi" "NoSuchFont" 25 (ColorHex "#FFFFFF") true false false
       3 None 0.7 20 = Ok (img, FontNotFoundUsingArial "NoSuchFont"))
  /\ (exists img,
     render_text_multicolor string fixed_pitch arial_only white_only no_str
       hd_animator (VList [VDict [("text", VStr "Hi")]]) "NoSuchFont" 25
       true false false 3 None 0.7 20 = Ok img).
Proof.
  split; eexists; vm_compute; reflexivity.
Qed.

End FontFacts.

(** ** Easing curves (utils/easing.py) *)

Module EasingFacts.
Import Reals Lra Easing.
Local Open Scope R_scope.

(** [f(0) = 0] and [f(1) = 1]. *)
Definition endpoints (f : R -> R) : Prop := f 0 = 0 /\ f 1 = 1.

(** Non-decreasing on [0, 1]. *)
Definition monotone (f : R -> R) : Prop :=
  forall a b, 0 <= a -> a <= b -> b <= 1 -> f a <= f b.

(** Maps [0, 1] into [0, 1]. *)
Definition into_unit (f : R -> R) : Prop :=
  forall t, 0 <= t <= 1 -> 0 <= f t <= 1.

(** The eight curves of the module, and the seven without overshoot. *)
Definition regular_easings : list (R -> R) :=
  [linear; ease_in_out_cubic; ease_in_out_quad; ease_out_cubic;
   ease_in_cubic; ease_out_expo; ease_in_out_sine].

Definition all_easings : list (R -> R) :=
  (regular_easings ++ [ease_out_back])%list.

Lemma monotone_into_unit (f : R -> R) :
  endpoints f -> monotone f -> into_unit f.
Proof.
  intros [H0 H1] Hm t [Ht0 Ht1]. split.
  - rewrite <- H0. apply Hm; lra.
  - rewrite <- H1. apply Hm; lra.
Qed.

Lemma linear_ok : endpoints linear /\ monotone linear.
Proof. unfold endpoints, monotone, linear. repeat split; intros; lra. Qed.

Lemma square_monotone (x y : R) : 0 <= x -> x <= y -> x * x <= y * y.
Proof. intros. nra. Qed.

Lemma cube_monotone (x y : R) :
  0 <= x -> x <= y -> x * (x * x) <= y * (y * y).
Proof. intros Hx Hxy. pose proof (square_monotone x y Hx Hxy). nra. Qed.

Lemma ease_in_out_cubic_ok :
  endpoints ease_in_out_cubic /\ monotone ease_in_out_cubic.
Proof.
  unfold endpoints, monotone, ease_in_out_cubic. repeat split.
  - destruct (Rlt_dec 0 0.5); lra.
  - destruct (Rlt_dec 1 0.5); simpl; lra.
  - intros a b Ha Hab Hb.
    destruct (Rlt_dec a 0.5) as [La|La], (Rlt_dec b 0.5) as [Lb|Lb]; simpl.
    + pose proof (cube_monotone a b Ha Hab). lra.
    + pose proof (cube_monotone a 0.5 Ha ltac:(lra)).
      pose proof (cube_monotone (-2 * b + 2) 1 ltac:(lra) ltac:(lra)). lra.
    + lra.
    + pose proof (cube_monotone (-2 * b + 2) (-2 * a + 2)
                    ltac:(lra) ltac:(lra)). lra.
Qed.

Lemma ease_in_out_quad_ok :
  endpoints ease_in_out_quad /\ monotone ease_in_out_quad.
Proof.
  unfold endpoints, monotone, ease_in_out_quad. repeat split.
  - destruct (Rlt_dec 0 0.5); lra.
  - destruct (Rlt_dec 1 0.5); simpl; lra.
  - intros a b Ha Hab Hb.
    destruct (Rlt_dec a 0.5) as [La|La], (Rlt_dec b 0.5) as [Lb|Lb]; simpl.
    + pose proof (square_monotone a b Ha Hab). lra.
    + pose proof (square_monotone a 0.5 Ha ltac:(lra)).
      pose proof (square_monotone (-2 * b + 2) 1 ltac:(lra) ltac:(lra)). lra.
    + lra.
    + pose proof (square_monotone (-2 * b + 2) (-2 * a + 2)
                    ltac:(lra) ltac:(lra)). lra.
Qed.

Lemma ease_out_cubic_ok : endpoints ease_out_cubic /\ monotone ease_out_cubic.
Proof.
  unfold endpoints, monotone, ease_out_cubic. repeat split; simpl; try lra.
  intros a b Ha Hab Hb.
  pose proof (cube_monotone (1 - b) (1 - a) ltac:(lra) ltac:(lra)). lra.
Qed.

Lemma ease_in_cubic_ok : endpoints ease_in_cubic /\ monotone ease_in_cubic.
Proof.
  unfold endpoints, monotone, ease_in_cubic. repeat split; try lra.
  intros a b Ha Hab Hb. pose proof (cube_monotone a b Ha Hab). lra.
Qed.

Lemma ease_out_expo_ok : endpoints ease_out_expo /\ monotone ease_out_expo.
Proof.
  unfold endpoints, monotone, ease_out_expo. repeat split.
  - destruct (Req_dec_T 0 1); [lra|].
    rewrite Rmult_0_r, Rpower_O; lra.
  - destruct (Req_dec_T 1 1); [reflexivity|congruence].
  - intros a b Ha Hab Hb.
    destruct (Req_dec_T a 1), (Req_dec_T b 1); try lra.
    + assert (0 < Rpower 2 (-10 * a)) by (unfold Rpower; apply exp_pos). lra.
    + assert (Rpower 2 (-10 * b) <= Rpower 2 (-10 * a))
        by (apply Rle_Rpower; lra).
      lra.
Qed.

Lemma ease_in_out_sine_ok :
  endpoints ease_in_out_sine /\ monotone ease_in_out_sine.
Proof.
  unfold endpoints, monotone, ease_in_out_sine. repeat split.
  - rewrite Rmult_0_r, cos_0. lra.
  - rewrite Rmult_1_r, cos_PI. lra.
  - intros a b Ha Hab Hb. pose proof PI_RGT_0 as Hpi.
    assert (cos (PI * b) <= cos (PI * a)) by (apply cos_decr_1; nra).
    lra.
Qed.

Lemma ease_out_back_endpoints : endpoints ease_out_back.
Proof. unfold endpoints, ease_out_back. split; simpl; lra. Qed.

(** The overshoot of [ease_out_back]: above 1 at the midpoint. *)
Lemma ease_out_back_overshoot : 1 < ease_out_back 0.5.
Proof. unfold ease_out_back. simpl. lra. Qed.

(** C5, as worded, fails on its last part: an unknown preset name gives
    ease-in-out-cubic, but nothing is logged. *)
Lemma get_easing_no_warning_counterexample :
  fst (get_easing "wobble") = ease_in_out_cubic
  /\ ~ (exists warning, In warning (snd (get_easing "wobble"))).
Proof.
  split; [reflexivity|]. intros [w []].
Qed.

(** C5 (amended).  Over the reals all eight curves are 0 at 0 and 1 at 1;
    the seven other than [ease_out_back] are non-decreasing on [0, 1] and
    map it into [0, 1], while [ease_out_back] exceeds 1 inside the
    interval; a name that is no preset gives ease-in-out-cubic, and
    [get_easing] never fails and never logs anything. *)
Theorem easing_curves_and_fallback :
  Forall endpoints all_easings
  /\ Forall monotone regular_easings
  /\ Forall into_unit regular_easings
  /\ (0 <= 0.5 <= 1 /\ 1 < ease_out_back 0.5)
  /\ (forall name, preset EASING_PRESETS name = None ->
                   get_easing name = (ease_in_out_cubic, []))
  /\ (forall name, snd (get_easing name) = []).
Proof.
  pose proof linear_ok as [? ?].
  pose proof ease_in_out_cubic_ok as [? ?].
  pose proof ease_in_out_quad_ok as [? ?].
  pose proof ease_out_cubic_ok as [? ?].
  pose proof ease_in_cubic_ok as [? ?].
  pose proof ease_out_expo_ok as [? ?].
  pose proof ease_in_out_sine_ok as [? ?].
  split; [|split; [|split; [|split; [|split]]]].
  - unfold all_easings, regular_easings. simpl.
    repeat (apply Forall_cons;
            [assumption || apply ease_out_back_endpoints|]).
    apply Forall_nil.
  - repeat (apply Forall_cons; [assumption|]). apply Forall_nil.
  - repeat (apply Forall_cons; [apply monotone_into_unit; assumption|]).
    apply Forall_nil.
  - split; [lra|apply ease_out_back_overshoot].
  - intros name Hnone. unfold get_easing. now rewrite Hnone.
  - reflexivity.
Qed.

Lemma easing_curves_and_fallback_witness :
  get_easing "wobble" = (ease_in_out_cubic, []).
Proof.
  destruct easing_curves_and_fallback as (_ & _ & _ & _ & H & _).
  apply H. reflexivity.
Defined.

(** The five presets resolve to their curves. *)
Example presets_resolve :
  fst (get_easing "motion") = ease_in_out_cubic
  /\ fst (get_easing "zoom") = ease_in_out_sine
  /\ fst (get_easing "text") = ease_out_cubic
  /\ fst (get_easing "transition") = ease_in_out_quad
  /\ fst (get_easing "dynamic") = ease_out_back.
Proof. repeat split. Qed.

End EasingFacts.

(** ** A binary64 remark on [ease_out_back]

    The endpoint [ease_out_back(0) = 0] above is a fact of real
    arithmetic.  In binary64 the sum [1.70158 + 1] is rounded, and the
    expression evaluated by the interpreter at [t = 0], where
    [pow(-1, 3) = -1] and [pow(-1, 2) = 1], is one unit in the last place
    of 1 away from zero. *)

Module EasingBinary64.
Import PrimFloat.

Set Warnings "-inexact-float".

Definition ease_out_back_at_zero : float :=
  let c1 := 1.70158%float in
  let c3 := (c1 + 1)%float in
  (1 + c3 * (-1) + c1 * 1)%float.

Example ease_out_back_at_zero_is_one_ulp :
  ease_out_back_at_zero = 0x1p-52%float.
Proof. vm_compute. reflexivity. Qed.

End EasingBinary64.

(** ** Further properties of the duration policy (utils/timing.py) *)

Module DurationBounds.
Import Py Timing PyFacts PyStrFacts TimingFacts SceneDurationFacts.

(** The unclamped reading time of a text of [n] words. *)
Definition reading_time (n : nat) : Q :=
  inject_Z (Z.of_nat n) / 1.8 + 1.5 + inject_Z (Z.of_nat n) * 0.4.

Lemma text_duration_formula (text : string) :
  calculate_text_duration text
  == Py.max 4.0 (Py.min (reading_time (List.length (PyStr.split text))) 10.0).
Proof.
  destruct (blank text) eqn:B.
  - rewrite (text_duration_blank _ B), (split_blank _ B). vm_compute. reflexivity.
  - rewrite (text_duration_not_blank _ B). reflexivity.
Qed.

Lemma text_duration_range (text : string) :
  4.0 <= calculate_text_duration text <= 10.0.
Proof.
  rewrite text_duration_formula.
  split; [apply max_ge_l|].
  match goal with |- Py.max ?a (Py.min ?x ?h) <= _ =>
    destruct (max_cases a (Py.min x h)) as [[_ ->]|[_ ->]];
    [apply min_le_r|lra] end.
Qed.

Lemma reading_time_monotone (n m : nat) :
  (n <= m)%nat -> reading_time n <= reading_time m.
Proof.
  intros H. unfold reading_time.
  assert (Hz : inject_Z (Z.of_nat n) <= inject_Z (Z.of_nat m)).
  { rewrite <- Zle_Qle. lia. }
  assert (E : forall x : Q, x / 1.8 == x * (5 # 9)) by (intros x; field).
  rewrite !E. lra.
Qed.

(** A text with more words is never shown for a shorter time. *)
Theorem text_duration_monotone (t1 t2 : string) :
  (List.length (PyStr.split t1) <= List.length (PyStr.split t2))%nat ->
  calculate_text_duration t1 <= calculate_text_duration t2.
Proof.
  intros H. rewrite !text_duration_formula.
  pose proof (reading_time_monotone _ _ H) as Hr.
  repeat match goal with
  | |- context [Py.min ?x ?h] =>
      destruct (min_cases x h) as [[? ->]|[? ->]]
  | |- context [Py.max ?a ?b] =>
      destruct (max_cases a b) as [[? ->]|[? ->]]
  end; lra.
Qed.

Lemma text_duration_monotone_witness :
  calculate_text_duration "Hello" <= calculate_text_duration "Premium Quality Materials".
Proof. apply text_duration_monotone. vm_compute. lia. Defined.

(** Without a manual duration, a scene whose overlays are well formed lasts
    between 4.5 s and 11.0 s, and at least 5.5 s as soon as it has an
    overlay. *)
Theorem auto_scene_duration_bounds
  (scene_data : dict) (ovs : list value) (shapes : list (option string)) :
  no_manual_duration scene_data ->
  dict_get scene_data "overlays" = Some (VList ovs) ->
  Forall2 overlay_shape ovs shapes ->
  exists r,
    calculate_scene_duration scene_data = Ok (VFloat r)
    /\ 4.5 <= r <= 11.0
    /\ (ovs <> [] -> 5.5 <= r).
Proof.
  intros Hno Hov Hsh. unfold calculate_scene_duration.
  rewrite (no_manual_continue _ Hno). cbn [bind].
  unfold dict_get_default. rewrite Hov. cbn [iterate bind].
  rewrite (overlay_loop_shapes _ _ Hsh). cbn [bind].
  pose proof (fold_max_is_max
    (map calculate_text_duration (texts shapes)) 4.5) as [[x [Hx Ex]] Hub].
  assert (Hlo : 4.5 <= fold_left Py.max
                          (map calculate_text_duration (texts shapes)) 4.5).
  { apply Hub. now left. }
  assert (Hhi : fold_left Py.max
                  (map calculate_text_duration (texts shapes)) 4.5 <= 10.0).
  { rewrite <- Ex. destruct Hx as [<-|Hx]; [lra|].
    apply in_map_iff in Hx as (s & <- & _). apply text_duration_range. }
  eexists. split; [reflexivity|].
  destruct ovs as [|ov ovs]; cbn [truthy].
  - split; [lra|]. intros Hne. now elim Hne.
  - split; [lra|]. intros _. lra.
Qed.

Lemma auto_scene_duration_bounds_witness :
  exists r, calculate_scene_duration scene_hello = Ok (VFloat r)
            /\ 4.5 <= r <= 11.0 /\ 5.5 <= r.
Proof.
  destruct (auto_scene_duration_bounds scene_hello
              [VDict [("type", VStr "text"); ("text", VStr "Hello")]]
              [Some "Hello"] (or_introl eq_refl) eq_refl)
    as (r & Hr & Hb & Hne).
  - repeat constructor.
  - exists r. split; [exact Hr|]. split; [exact Hb|]. apply Hne. discriminate.
Defined.

(** A text overlay without a [text] key stops the automatic timing with
    [KeyError: 'text']. *)
Lemma text_overlay_without_text_raises
  (scene_data : dict) (pre post : list value) (shapes : list (option string))
  (d : dict) :
  no_manual_duration scene_data ->
  dict_get scene_data "overlays" = Some (VList (pre ++ VDict d :: post)) ->
  Forall2 overlay_shape pre shapes ->
  dict_get d "type" = Some (VStr "text") ->
  dict_get d "text" = None ->
  calculate_scene_duration scene_data = Raise (KeyError "text").
Proof.
  intros Hno Hov Hsh Hty Htx. unfold calculate_scene_duration.
  rewrite (no_manual_continue _ Hno). cbn [bind].
  unfold dict_get_default. rewrite Hov. cbn [iterate bind].
  assert (Hloop : forall acc,
    overlay_loop (pre ++ VDict d :: post) acc = Raise (KeyError "text")).
  { clear Hov. induction Hsh as [|ov sh pre shapes Hs _ IH]; intros acc.
    - cbn [app overlay_loop]. unfold overlay_step.
      cbn [subscript]. unfold dict_item. rewrite Hty. cbn [bind is_str].
      rewrite Htx. reflexivity.
    - cbn [app overlay_loop]. rewrite (overlay_step_shape _ _ _ Hs).
      cbn [bind]. apply IH. }
  rewrite Hloop. reflexivity.
Qed.

End DurationBounds.

(** ** Line widths after wrapping (TextAnimator._wrap_text) *)

Module WrapFit.
Import PyStr PyStrFacts TextAnimator WrapFacts.

Section Fit.

Variable pil_font : Type.
Variable getbbox : pil_font -> string -> Z * Z * Z * Z.
Variable font : pil_font.
Variable max_width : Z.
Variable words : list string.

(** A line that fits, or that is one of the words on its own. *)
Definition acceptable (line : string) : Prop :=
  (text_width getbbox font line <= max_width)%Z \/ In line words.

(** Loop invariant of [_wrap_text]: the finished lines are acceptable, and
    so is the line being filled. *)
Definition fit_invariant (st : list string * list string) : Prop :=
  Forall acceptable (fst st)
  /\ (snd st <> [] -> acceptable (join " " (snd st))).

Lemma wrap_step_fit (st : list string * list string) (w : string) :
  In w words -> fit_invariant st ->
  fit_invariant (wrap_step getbbox font max_width st w).
Proof.
  intros Hw (Hlines & Hcur). destruct st as [lines cur].
  cbn [fst snd] in *. unfold wrap_step.
  fold (text_width getbbox font (join " " (cur ++ [w]))).
  destruct (_ <=? _)%Z eqn:Hfit.
  - apply Z.leb_le in Hfit. split; [exact Hlines|]. cbn [fst snd].
    intros _. now left.
  - split; cbn [fst snd].
    + destruct cur as [|v cur]; [exact Hlines|].
      apply Forall_app. split; [exact Hlines|].
      constructor; [|constructor]. apply Hcur. discriminate.
    + intros _. now right.
Qed.

Lemma wrap_loop_fit (ws : list string) (st : list string * list string) :
  incl ws words -> fit_invariant st ->
  fit_invariant (fold_left (wrap_step getbbox font max_width) ws st).
Proof.
  revert st. induction ws as [|w ws IH]; intros st Hincl Hinv; [exact Hinv|].
  cbn [fold_left]. apply IH.
  - intros x Hx. apply Hincl. now right.
  - apply wrap_step_fit; [apply Hincl; now left|exact Hinv].
Qed.

Lemma finish_fit (st : list string * list string) :
  fit_invariant st -> Forall acceptable (finish st).
Proof.
  intros (Hlines & Hcur). destruct st as [lines cur]. cbn [fst snd] in *.
  unfold finish. destruct cur as [|v cur]; [exact Hlines|].
  apply Forall_app. split; [exact Hlines|].
  constructor; [|constructor]. apply Hcur. discriminate.
Qed.

(** The number of lines never exceeds the number of words read. *)
Lemma wrap_step_count (st : list string * list string) (w : string) :
  (List.length (finish (wrap_step getbbox font max_width st w))
   <= List.length (finish st) + 1)%nat.
Proof.
  destruct st as [lines cur]. unfold wrap_step.
  destruct (_ <=? _)%Z; cbn [finish snd].
  - destruct cur as [|v cur]; cbn [app]; rewrite ?length_app; simpl; lia.
  - destruct cur as [|v cur]; rewrite ?length_app; simpl; lia.
Qed.

Lemma wrap_loop_count (ws : list string) (st : list string * list string) :
  (List.length (finish (fold_left (wrap_step getbbox font max_width) ws st))
   <= List.length (finish st) + List.length ws)%nat.
Proof.
  revert st. induction ws as [|w ws IH]; intros st; cbn [fold_left].
  - simpl. lia.
  - specialize (IH (wrap_step getbbox font max_width st w)).
    pose proof (wrap_step_count st w) as H. simpl in *. lia.
Qed.

End Fit.

(** Every line handed back by [_wrap_text] fits in [max_width] or is a
    single word of the text (one too wide to fit anywhere); the only other
    case is a text without words, handed back as it is.  There are never
    more lines than words. *)
Theorem wrap_text_lines_fit (pil_font : Type)
  (getbbox : pil_font -> string -> Z * Z * Z * Z)
  (font : pil_font) (text : string) (max_width : Z) :
  let lines := _wrap_text getbbox text font max_width in
  (forall line, In line lines ->
     (text_width getbbox font line <= max_width)%Z
     \/ In line (split text)
     \/ (split text = [] /\ line = text))
  /\ (List.length lines <= Nat.max 1 (List.length (split text)))%nat.
Proof.
  cbv zeta. rewrite wrap_text_finish.
  pose proof (wrap_loop_fit pil_font getbbox font max_width (split text)
                (split text) ([], []) (incl_refl _)) as Hfit.
  pose proof (wrap_loop_count pil_font getbbox font max_width
                (split text) ([], [])) as Hcount.
  assert (Hinv : fit_invariant pil_font getbbox font max_width (split text)
                   ([], [])).
  { split; [constructor|]. intros H. now elim H. }
  specialize (Hfit Hinv). apply finish_fit in Hfit.
  destruct (split text) as [|w ws] eqn:Ews.
  - cbn [fold_left finish] in *. split.
    + intros line [<-|[]]. right. right. split; reflexivity.
    + simpl. lia.
  - destruct (finish _) as [|l ls] eqn:Efin.
    + split; [|simpl; lia]. intros line [<-|[]].
      exfalso. simpl in Hcount.
      pose proof (wrap_loop_words pil_font getbbox font max_width
                    (w :: ws) [] []) as Hwords.
      rewrite Efin in Hwords. cbn [flat_map app] in Hwords.
      assert (Hall : Forall word (w :: ws)).
      { rewrite <- Ews. apply split_words. }
      specialize (Hwords (Forall_nil _) Hall). discriminate.
    + split.
      * intros line Hin. rewrite Forall_forall in Hfit.
        destruct (Hfit line Hin) as [H|H]; [now left|right; now left].
      * simpl in *. lia.
Qed.

End WrapFit.

(** ** Positions the parsers do not recognise *)

Module PositionEdges.
Import Py TextAnimator.



(** [float] on the digits used in the example below. *)
Definition float_25 (s : string) : result Q :=
  if String.eqb s "25" then Ok 25 else Raise ValueError.


End PositionEdges.

(** ** Truncation *)

Module IntFacts.

(** [int(x)] is the floor of a non-negative number and the ceiling of a
    negative one. *)
Lemma int_nonneg (x : Q) : 0 <= x -> Py.int x = Qfloor x.
Proof.
  destruct x as [n d]. unfold Qle, Py.int, Qfloor. simpl. intros H.
  apply Z.quot_div_nonneg; lia.
Qed.

Lemma int_neg (x : Q) : x <= 0 -> Py.int x = Qceiling x.
Proof.
  destruct x as [n d]. unfold Qle, Py.int, Qceiling, Qfloor. simpl. intros H.
  assert (Hn : (n <= 0)%Z) by lia.
  rewrite <- (Z.opp_involutive n) at 1. rewrite Z.quot_opp_l by discriminate.
  rewrite Z.quot_div_nonneg by lia. reflexivity.
Qed.

Lemma int_gt (x : Q) : 0 <= x -> x < inject_Z (Py.int x + 1).
Proof. intros H. rewrite (int_nonneg _ H). apply Qlt_floor. Qed.

Lemma int_monotone (x y : Q) : x <= y -> (Py.int x <= Py.int y)%Z.
Proof.
  intros H. destruct (Qlt_le_dec x 0) as [Hx|Hx];
    destruct (Qlt_le_dec y 0) as [Hy|Hy].
  - rewrite (int_neg x), (int_neg y) by lra. now apply Qceiling_resp_le.
  - rewrite (int_neg x), (int_nonneg y) by lra.
    assert (Qceiling x <= 0)%Z.
    { change 0%Z with (Qceiling 0). apply Qceiling_resp_le. lra. }
    assert (0 <= Qfloor y)%Z.
    { change 0%Z with (Qfloor 0). now apply Qfloor_resp_le. }
    lia.
  - lra.
  - rewrite (int_nonneg x), (int_nonneg y) by lra. now apply Qfloor_resp_le.
Qed.

End IntFacts.

(** ** Phases of a text animation (TextAnimator, the four frame generators) *)

Module PhaseFacts.
Import Py TextAnimator IntFacts.

Section Phases.

Variable pil_font : Type.

Lemma for_frames_nth (body : Z -> result (image pil_font)) (indices : list Z)
  (frames : list (image pil_font)) :
  for_frames pil_font body indices = Ok frames ->
  forall n f, nth_error frames n = Some f ->
    exists i, nth_error indices n = Some i /\ body i = Ok f.
Proof.
  revert frames. induction indices as [|i rest IH]; intros frames.
  - intros [= <-] n f. destruct n; discriminate.
  - cbn [for_frames]. destruct (body i) as [c|e] eqn:Ec; [|discriminate].
    cbn [bind]. destruct (for_frames pil_font body rest) as [fs|e] eqn:Er;
      [|discriminate].
    cbn [bind]. intros [= <-] n f. destruct n as [|n]; cbn [nth_error].
    + intros [= <-]. exists i. split; [reflexivity|exact Ec].
    + intros Hn. apply (IH fs eq_refl n f Hn).
Qed.

Lemma range_nth (total : Z) (n : nat) (i : Z) :
  nth_error (range total) n = Some i -> i = Z.of_nat n.
Proof.
  unfold range. rewrite nth_error_map.
  destruct (nth_error (seq 0 (Z.to_nat total)) n) as [k|] eqn:E;
    [|discriminate].
  intros [= <-].
  assert (Hlt : (n < List.length (seq 0 (Z.to_nat total)))%nat).
  { apply nth_error_Some. rewrite E. discriminate. }
  rewrite length_seq in Hlt.
  apply nth_error_nth with (d := 0%nat) in E.
  rewrite seq_nth in E by exact Hlt. now subst.
Qed.

Variable self : animator.
Variable text_img : image pil_font.
Variable start_time : Q.
Variables pos_x pos_y : Z.

(** The blank canvas and the canvas with the finished text at its place. *)
Definition blank_frame : image pil_font :=
  New "RGBA" (width self) (height self).

Definition settled_frame : image pil_font :=
  Pasted blank_frame text_img
    ((pos_x - img_width text_img / 2)%Z, (pos_y - img_height text_img / 2)%Z).

(** Frame [i] is blank before the start frame and settled from
    [anim_frames] frames after it. *)
Definition phased (anim_frames : Z) (i : Z) (f : image pil_font) : Prop :=
  ((i < Py.int (start_time * fps self))%Z -> f = blank_frame)
  /\ ((Py.int (start_time * fps self) + anim_frames <= i)%Z ->
      f = settled_frame).

Lemma canvas_is_blank (canvas : image pil_font) :
  image_new "RGBA" (width self) (height self) = Ok canvas ->
  canvas = blank_frame.
Proof.
  unfold image_new. destruct (_ || _); [discriminate|]. now intros [= <-].
Qed.

Hypothesis fps_nonneg : 0 <= fps self.

Lemma anim_frames_nonneg (c : Q) : 0 <= c -> (0 <= Py.int (c * fps self))%Z.
Proof.
  intros Hc. change 0%Z with (Py.int 0). apply int_monotone. nra.
Qed.

Lemma phased_weaken (a a' i : Z) (f : image pil_font) :
  (a <= a')%Z -> phased a i f -> phased a' i f.
Proof. intros Hle [Hb Hs]. split; [exact Hb|]. intros H. apply Hs. lia. Qed.

Ltac phase_body n f H Hn :=
  destruct (for_frames_nth _ _ _ H n f Hn) as (i & Hi & Hb);
  apply range_nth in Hi; subst i; revert Hb; cbv zeta;
  destruct (image_new "RGBA" (width self) (height self)) as [canvas|e] eqn:Ec;
    [|discriminate];
  apply canvas_is_blank in Ec; subst canvas; cbn [bind];
  destruct (Z.ltb_spec (Z.of_nat n) (Py.int (start_time * fps self)));
    [intros [= <-]; split; [reflexivity|intros ?; lia]|];
  match goal with
  | |- context [(Z.of_nat n <? ?b)%Z] => destruct (Z.ltb_spec (Z.of_nat n) b)
  end;
    [intros _; split; intros ?; lia
    |intros [= <-]; split; [intros ?; lia|reflexivity]].

Lemma animate_fade_phased (total_frames : Z) (frames : list (image pil_font))
  (n : nat) (f : image pil_font) :
  _animate_fade pil_font self text_img total_frames start_time pos_x pos_y
    = Ok frames ->
  nth_error frames n = Some f ->
  phased (Py.int (0.8 * fps self)) (Z.of_nat n) f.
Proof.
  pose proof (anim_frames_nonneg 0.8 ltac:(lra)) as Hpos.
  unfold _animate_fade. intros H Hn. phase_body n f H Hn.
Qed.

Lemma animate_slide_phased (total_frames : Z) (direction : string)
  (frames : list (image pil_font)) (n : nat) (f : image pil_font) :
  _animate_slide pil_font self text_img total_frames start_time direction
    pos_x pos_y = Ok frames ->
  nth_error frames n = Some f ->
  phased (Py.int (0.8 * fps self)) (Z.of_nat n) f.
Proof.
  pose proof (anim_frames_nonneg 0.8 ltac:(lra)) as Hpos.
  unfold _animate_slide. intros H Hn. phase_body n f H Hn.
Qed.

Lemma animate_scale_phased (total_frames : Z) (frames : list (image pil_font))
  (n : nat) (f : image pil_font) :
  _animate_scale pil_font self text_img total_frames start_time pos_x pos_y
    = Ok frames ->
  nth_error frames n = Some f ->
  phased (Py.int (0.7 * fps self)) (Z.of_nat n) f.
Proof.
  pose proof (anim_frames_nonneg 0.7 ltac:(lra)) as Hpos.
  unfold _animate_scale. intros H Hn. phase_body n f H Hn.
Qed.

Lemma animate_pop_phased (total_frames : Z) (frames : list (image pil_font))
  (n : nat) (f : image pil_font) :
  _animate_pop pil_font self text_img total_frames start_time pos_x pos_y
    = Ok frames ->
  nth_error frames n = Some f ->
  phased (Py.int (0.5 * fps self)) (Z.of_nat n) f.
Proof.
  pose proof (anim_frames_nonneg 0.5 ltac:(lra)) as Hpos.
  unfold _animate_pop. intros H Hn. phase_body n f H Hn.
Qed.

End Phases.

Arguments blank_frame {pil_font} self.
Arguments settled_frame {pil_font} self text_img pos_x pos_y.

(** Whatever the animation kind, a frame before the start frame
    [int(start_time * fps)] is the empty canvas, and a frame from
    [int(0.8 * fps)] frames after the start frame on shows the unmodified
    text image centred on the target position. *)
Theorem animation_phases (pil_font : Type) (self : animator)
  (text_img : image pil_font) (animation : string)
  (duration start_time : Q) (pos_x pos_y : Z)
  (frames : list (image pil_font)) (n : nat) (f : image pil_font) :
  0 <= fps self ->
  generate_animation_frames self text_img animation duration start_time
    pos_x pos_y = Ok frames ->
  nth_error frames n = Some f ->
  ((Z.of_nat n < Py.int (start_time * fps self))%Z -> f = blank_frame self)
  /\ ((Py.int (start_time * fps self) + Py.int (0.8 * fps self)
       <= Z.of_nat n)%Z ->
      f = settled_frame self text_img pos_x pos_y).
Proof.
  intros Hfps Hgen Hn.
  change (phased pil_font self text_img start_time pos_x pos_y
            (Py.int (0.8 * fps self)) (Z.of_nat n) f).
  assert (H7 : (Py.int (0.7 * fps self) <= Py.int (0.8 * fps self))%Z).
  { apply int_monotone. nra. }
  assert (H5 : (Py.int (0.5 * fps self) <= Py.int (0.8 * fps self))%Z).
  { apply int_monotone. nra. }
  revert Hgen. unfold generate_animation_frames. cbv zeta.
  repeat match goal with
         | |- context [if ?b then _ else _] => destruct b
         end;
    intros Hgen;
    eauto using animate_fade_phased, animate_slide_phased;
    [apply (phased_weaken _ _ _ _ _ _ _ _ _ _ H7)
    |apply (phased_weaken _ _ _ _ _ _ _ _ _ _ H5)];
    eauto using animate_scale_phased, animate_pop_phased.
Qed.

Lemma animation_phases_witness :
  exists frames,
    generate_animation_frames FrameFacts.default_animator
      FrameFacts.sample_text_img "scale_in" 4 0.5 592 432 = Ok frames
    /\ nth_error frames 14 = Some (blank_frame FrameFacts.default_animator)
    /\ nth_error frames 39
       = Some (settled_frame FrameFacts.default_animator
                 FrameFacts.sample_text_img 592 432).
Proof.
  assert (Hfps : 0 <= fps FrameFacts.default_animator)
    by (vm_compute; discriminate).
  destruct (generate_animation_frames FrameFacts.default_animator
              FrameFacts.sample_text_img "scale_in" 4 0.5 592 432)
    as [frames|e] eqn:E; [|vm_compute in E; discriminate].
  exists frames. split; [reflexivity|].
  destruct (nth_error frames 14) as [f14|] eqn:E14;
    [|vm_compute in E; injection E as <-; discriminate].
  destruct (nth_error frames 39) as [f39|] eqn:E39;
    [|vm_compute in E; injection E as <-; discriminate].
  destruct (animation_phases unit _ _ _ _ _ _ _ frames 14 f14 Hfps E E14)
    as [Hb _].
  destruct (animation_phases unit _ _ _ _ _ _ _ frames 39 f39 Hfps E E39)
    as [_ Hs].
  split; f_equal; [apply Hb|apply Hs]; vm_compute; congruence.
Defined.

End PhaseFacts.

(** ** Length of the timeline (VideoComposer._apply_transitions) *)

Module TimelineLength.
Import Py MoviePy VideoComposer PyFacts TransitionFacts.

(** The overlap a scene's own configuration asks for with the scene before
    it: the capped transition duration for a fade, crossfade, slide or
    slideIn, nothing otherwise. *)
Definition overlap_of (s : scene_clip) : Q :=
  match dict_get (sc_config s) "transition" with
  | Some (VDict tc) =>
      if overlapping_type (dict_get_default tc "type" (VStr "fade")) then
        match as_number (dict_get_default tc "duration" (VFloat 1.0)) with
        | Some q => effective q (duration (sc_clip s))
        | None => 0
        end
      else 0
  | _ => 0
  end.

(** Sum of the scene durations, less the overlaps. *)
Fixpoint net_length (scenes : list scene_clip) : Q :=
  match scenes with
  | [] => 0
  | s :: rest => duration (sc_clip s) - overlap_of s + net_length rest
  end.

Fixpoint total_length (scenes : list scene_clip) : Q :=
  match scenes with
  | [] => 0
  | s :: rest => duration (sc_clip s) + total_length rest
  end.

Lemma overlap_of_transition (s : scene_clip) (o : option Q) :
  transition_of (sc_config s) o ->
  overlap_of s = match o with
                 | Some q => effective q (duration (sc_clip s))
                 | None => 0
                 end.
Proof.
  intros [Hno|tc q Htc Hty Hq|tc q Htc Hty Hq]; unfold overlap_of.
  - now rewrite Hno.
  - now rewrite Htc, Hty, Hq.
  - now rewrite Htc, Hty.
Qed.

Lemma overlap_le_half (s : scene_clip) :
  0 <= duration (sc_clip s) -> overlap_of s <= duration (sc_clip s) * 0.5.
Proof.
  intros Hd. unfold overlap_of.
  destruct (dict_get _ _) as [[| | | | | |tc]|]; try lra.
  destruct (overlapping_type _); [|lra].
  destruct (as_number _); [|lra]. apply min_le_r.
Qed.

(** From scene 1 on, the timeline ends [net_length] after where it
    stood. *)
Lemma resolves_last (scenes : list scene_clip) (clips : list clip)
  (i : Z) (ct : Q) :
  resolves i ct scenes clips -> (0 < i)%Z ->
  last (map clip_end clips) ct == ct + net_length scenes.
Proof.
  induction 1 as [|i ct s rest c clips o Ho Hd Hs Hres IH]; intros Hi.
  - simpl. lra.
  - cbn [map]. rewrite last_cons. unfold clip_end at 2.
    rewrite IH by lia. cbn [net_length].
    rewrite (overlap_of_transition _ _ Ho), Hs, Hd. unfold start_for.
    destruct (Z.ltb_spec 0 i); [|lia]. destruct o; lra.
Qed.

Lemma net_length_bounds (scenes : list scene_clip) :
  (forall s, In s scenes -> 0 <= duration (sc_clip s)) ->
  total_length scenes * 0.5 <= net_length scenes.
Proof.
  induction scenes as [|s rest IH]; intros Hpos; cbn [net_length total_length].
  - lra.
  - assert (Hs : 0 <= duration (sc_clip s)) by (apply Hpos; now left).
    pose proof (overlap_le_half s Hs).
    assert (total_length rest * 0.5 <= net_length rest).
    { apply IH. intros; apply Hpos; now right. }
    lra.
Qed.

(** The loop of [_apply_transitions] on a first scene and the others: the
    timeline it builds and how long that lasts. *)
Lemma apply_transitions_duration (self : composer) (first : scene_clip)
  (others : list scene_clip) :
  well_formed (first :: others) ->
  (forall s, In s (first :: others) -> 0 <= duration (sc_clip s)) ->
  others <> [] ->
  exists timeline,
    _apply_transitions self (first :: others)
      = Ok (CompositeVideoClip timeline (width self, height self))
    /\ video_duration (CompositeVideoClip timeline (width self, height self))
       == duration (sc_clip first) + net_length others.
Proof.
  intros Hwf Hpos Hne.
  destruct (transition_loop_spec _ Hwf 0 [] 0)
    as (tl0 & timeline & ct' & E & Hnil & Hres).
  inversion Hnil; subst tl0. cbn [app] in E.
  exists timeline. split.
  - unfold _apply_transitions. destruct others as [|y rest]; [now elim Hne|].
    rewrite E. reflexivity.
  - cbn [video_duration].
    destruct (resolves_ends _ _ _ _ Hres Hpos) as [_ Hall].
    pose proof (resolves_length _ _ _ _ Hres) as Hlen.
    assert (Hnn : map clip_end timeline <> []).
    { destruct timeline; [discriminate|discriminate]. }
    rewrite (max_list_last _ (last (map clip_end timeline) 0) Hnn).
    + inversion Hres as [|? ? ? ? c clips o Ho Hd Hs Hrest]; subst.
      cbn [map]. rewrite last_cons. unfold clip_end at 2.
      rewrite (resolves_last _ _ _ _ Hrest) by lia.
      rewrite Hs, Hd. unfold start_for. destruct o; cbn; lra.
    + now apply last_in.
    + intros x Hx. apply in_map_iff in Hx as (c & <- & Hc).
      rewrite Forall_forall in Hall. now apply Hall.
Qed.

Lemma net_length_no_overlap (scenes : list scene_clip) :
  (forall s, In s scenes -> overlap_of s == 0) ->
  net_length scenes == total_length scenes.
Proof.
  intros Hzero. induction scenes as [|s rest IH];
    cbn [net_length total_length]; [reflexivity|].
  rewrite (Hzero s) by now left. rewrite IH; [ring|].
  intros; apply Hzero; now right.
Qed.

(** The composed timeline of two or more scenes lasts the first scene's
    duration plus, for each later scene, its duration less its overlap
    with the scene before: a transition configured on the first scene is
    ignored, and scenes without an overlapping transition follow each
    other back to back.  Since an overlap is capped at half the incoming
    scene, the timeline is never shorter than the first scene plus half of
    all the others. *)
Theorem timeline_length (self : composer) (first : scene_clip)
  (others : list scene_clip) :
  well_formed (first :: others) ->
  (forall s, In s (first :: others) -> 0 <= duration (sc_clip s)) ->
  others <> [] ->
  exists timeline,
    _apply_transitions self (first :: others)
      = Ok (CompositeVideoClip timeline (width self, height self))
    /\ video_duration (CompositeVideoClip timeline (width self, height self))
       == duration (sc_clip first) + net_length others
    /\ duration (sc_clip first) + total_length others * 0.5
       <= video_duration
            (CompositeVideoClip timeline (width self, height self))
    /\ ((forall s, In s others -> overlap_of s == 0) ->
        video_duration (CompositeVideoClip timeline (width self, height self))
        == total_length (first :: others)).
Proof.
  intros Hwf Hpos Hne.
  destruct (apply_transitions_duration self first others Hwf Hpos Hne)
    as (timeline & E & Hdur).
  exists timeline. split; [exact E|]. split; [exact Hdur|]. split.
  - rewrite Hdur.
    assert (total_length others * 0.5 <= net_length others).
    { apply net_length_bounds. intros; apply Hpos; now right. }
    lra.
  - intros Hzero. rewrite Hdur. cbn [total_length].
    rewrite (net_length_no_overlap _ Hzero). reflexivity.
Qed.

Lemma timeline_length_witness :
  exists timeline,
    _apply_transitions default_composer
      [scene "one" 5 (transition_cfg "fade" 2) 0;
       scene "two" 6 (transition_cfg "crossfade" 1) 1;
       scene "three" 4 (transition_cfg "zoom" 1) 2]
    = Ok (CompositeVideoClip timeline (1184, 864)%Z)
    /\ video_duration (CompositeVideoClip timeline (1184, 864)%Z) == 14.
Proof.
  destruct (timeline_length default_composer
              (scene "one" 5 (transition_cfg "fade" 2) 0)
              [scene "two" 6 (transition_cfg "crossfade" 1) 1;
               scene "three" 4 (transition_cfg "zoom" 1) 2])
    as (timeline & E & Hd & _).
  - repeat constructor.
    + exists (Some 2). econstructor; reflexivity.
    + exists (Some 1). econstructor; reflexivity.
    + exists None. eapply transition_other; reflexivity.
  - intros s [<-|[<-|[<-|[]]]]; vm_compute; discriminate.
  - discriminate.
  - exists timeline. split; [exact E|]. rewrite Hd. vm_compute. reflexivity.
Defined.

End TimelineLength.

(** ** The attached audio track (VideoComposer._add_audio, compose) *)

Module AudioLength.
Import Py MoviePy VideoComposer PyFacts IntFacts.

Lemma repeat_duration (a : audio) (n : nat) :
  audio_duration (Concatenate (repeat a n))
  == inject_Z (Z.of_nat n) * audio_duration a.
Proof.
  cbn [audio_duration]. induction n as [|n IH].
  - simpl. ring.
  - cbn [repeat fold_right]. rewrite IH.
    rewrite Nat2Z.inj_succ. unfold Z.succ. rewrite inject_Z_plus. ring.
Qed.

(** Enough repetitions are concatenated to cover the video. *)
Lemma loops_cover (video_length audio_length : Q) :
  0 < audio_length -> audio_length < video_length ->
  video_length
  <= inject_Z (Z.of_nat (Z.to_nat (Py.int (video_length / audio_length) + 1)))
     * audio_length.
Proof.
  intros Ha Hlt.
  assert (Hq : 0 <= video_length / audio_length).
  { apply Qle_shift_div_l; lra. }
  pose proof (int_gt _ Hq) as Hgt.
  assert (Hn : (0 <= Py.int (video_length / audio_length))%Z).
  { change 0%Z with (Py.int 0). now apply int_monotone. }
  rewrite Z2Nat.id by lia.
  apply Qlt_le_weak.
  apply (Qmult_lt_r _ _ audio_length Ha) in Hgt.
  assert (E : video_length / audio_length * audio_length == video_length).
  { field. lra. }
  rewrite E in Hgt. exact Hgt.
Qed.

(** When the audio file exists, the track set on the video lasts exactly
    as long as the video, whichever of the three branches ran, and what is
    cut by [subclip(0, video_duration)] is at least that long: the looped
    material covers the video.  An audio file of length zero under a
    video of positive length stops the composition with
    [ZeroDivisionError]. *)
Theorem attached_audio_spans_video
  (path_exists : value -> result bool) (audio_length : string -> Q)
  (self : composer) (video_clip : video) (p : string) :
  dict_get (config self) "audio_path" = Some (VStr p) ->
  path_exists (VStr p) = Ok true ->
  (0 < audio_length p ->
   exists a notices,
     _add_audio path_exists audio_length self video_clip
       = Ok (SetAudio video_clip a, notices)
     /\ audio_duration a == video_duration video_clip
     /\ (forall inner t0 t1 d,
           a = AudioFadeout (Subclip inner t0 t1) d ->
           t0 = 0 /\ t1 = video_duration video_clip
           /\ t1 <= audio_duration inner))
  /\ (audio_length p == 0 -> 0 < video_duration video_clip ->
      _add_audio path_exists audio_length self video_clip
        = Raise ZeroDivisionError).
Proof.
  intros Hcfg Hex. unfold _add_audio, dict_item. rewrite Hcfg. cbn [bind].
  rewrite Hex. cbn [bind negb audio_duration]. split.
  - intros Hpos.
    destruct (Qltb (video_duration video_clip) (audio_length p)) eqn:E1;
      [apply Qltb_lt in E1|apply Qltb_ge in E1].
    { eexists _, _. split; [reflexivity|]. split.
      - cbn [audio_duration]. ring.
      - intros inner t0 t1 d [= <- <- <- _]. cbn [audio_duration].
        repeat split. lra. }
    destruct (Qltb (audio_length p) (video_duration video_clip)) eqn:E2;
      [apply Qltb_lt in E2|apply Qltb_ge in E2].
    { destruct (Qeq_bool (audio_length p) 0) eqn:E0.
      { apply Qeq_bool_iff in E0. lra. }
      eexists _, _. split; [reflexivity|]. split.
      - cbn [audio_duration]. ring.
      - intros inner t0 t1 d [= <- <- <- _]. repeat split.
        rewrite repeat_duration. cbn [audio_duration].
        now apply loops_cover. }
    eexists _, _. split; [reflexivity|]. split.
    + cbn [audio_duration]. lra.
    + intros inner t0 t1 d. discriminate.
  - intros Hzero Hvid.
    destruct (Qltb (video_duration video_clip) (audio_length p)) eqn:E1.
    { apply Qltb_lt in E1. lra. }
    destruct (Qltb (audio_length p) (video_duration video_clip)) eqn:E2.
    + apply Qeq_bool_iff in Hzero. now rewrite Hzero.
    + apply Qltb_ge in E2. lra.
Qed.

Lemma attached_audio_spans_video_witness :
  exists a notices,
    _add_audio (fun _ => Ok true) (fun _ => 2)
      AudioFacts.composer_with_audio AudioFacts.solo_video
      = Ok (SetAudio AudioFacts.solo_video a, notices)
    /\ audio_duration a == 5.5.
Proof.
  destruct (attached_audio_spans_video (fun _ => Ok true) (fun _ => 2)
              AudioFacts.composer_with_audio AudioFacts.solo_video
              "music.mp3" eq_refl eq_refl) as [H _].
  destruct (H ltac:(reflexivity)) as (a & notices & E & Hd & _).
  exists a, notices. split; [exact E|exact Hd].
Defined.

(** What is shown and what is heard, under the final fades. *)
Fixpoint picture (v : video) : video :=
  match v with
  | SetAudio v _ => picture v
  | Faded v _ => picture v
  | _ => v
  end.

Fixpoint audio_track (v : video) : option audio :=
  match v with
  | SetAudio _ a => Some a
  | Faded v _ => audio_track v
  | _ => None
  end.

Lemma transitions_picture (self : composer) (scene_clips : list scene_clip)
  (tl : video) :
  _apply_transitions self scene_clips = Ok tl ->
  picture tl = tl /\ audio_track tl = None.
Proof.
  unfold _apply_transitions. destruct scene_clips as [|x [|y rest]].
  - discriminate.
  - intros [= <-]. split; reflexivity.
  - destruct (transition_loop _ _ _) as [[tlc ct]|e]; [|discriminate].
    intros [= <-]. split; reflexivity.
Qed.

Lemma final_effects_keep (self : composer) (v v' : video) :
  _apply_final_effects self v = Ok v' ->
  picture v' = picture v /\ audio_track v' = audio_track v
  /\ video_duration v' = video_duration v.
Proof.
  unfold _apply_final_effects.
  destruct (gt_zero (dict_get_default _ "intro_fade" _)) as [i|e];
    [|discriminate].
  destruct (gt_zero (dict_get_default _ "outro_fade" _)) as [o|e];
    [|discriminate].
  cbn [bind]. intros [= <-]. destruct i, o; repeat split.
Qed.



End AudioLength.

(** ** Dictionaries *)

Module DictFacts.
Import Py ConfigLoader.

Lemma dict_get_set (d : dict) (k k' : string) (v : value) :
  dict_get (dict_set d k v) k'
  = if String.eqb k k' then Some v else dict_get d k'.
Proof.
  induction d as [|[k0 v0] d IH]; cbn [dict_set dict_get].
  - reflexivity.
  - destruct (String.eqb_spec k0 k) as [->|Hne]; cbn [dict_get].
    + destruct (String.eqb k k'); reflexivity.
    + rewrite IH. destruct (String.eqb_spec k0 k') as [->|Hne'].
      * destruct (String.eqb_spec k k') as [->|]; [now elim Hne|reflexivity].
      * reflexivity.
Qed.

Lemma dict_get_set_same (d : dict) (k : string) (v : value) :
  dict_get (dict_set d k v) k = Some v.
Proof. rewrite dict_get_set. now rewrite String.eqb_refl. Qed.

Lemma dict_get_set_other (d : dict) (k k' : string) (v : value) :
  k <> k' -> dict_get (dict_set d k v) k' = dict_get d k'.
Proof.
  intros H. rewrite dict_get_set.
  destruct (String.eqb_spec k k'); [contradiction|reflexivity].
Qed.

Lemma dict_get_in_keys (d : dict) (k : string) (v : value) :
  dict_get d k = Some v -> In k (map fst d).
Proof.
  induction d as [|[k0 v0] d IH]; cbn [dict_get map fst]; [discriminate|].
  destruct (String.eqb_spec k0 k) as [->|]; [now left|].
  intros H. right. now apply IH.
Qed.

(** [d.update(other)] for a dictionary [other] (its keys are distinct):
    [other] wins where it has the key. *)
Lemma dict_get_update (other d : dict) (k : string) :
  NoDup (map fst other) ->
  dict_get (dict_update d other) k
  = match dict_get other k with
    | Some v => Some v
    | None => dict_get d k
    end.
Proof.
  unfold dict_update. revert d.
  induction other as [|[k0 v0] other IH]; intros d Hnd; cbn [fold_left].
  - reflexivity.
  - inversion Hnd as [|? ? Hnotin Hnd']; subst. cbn [fst snd].
    rewrite (IH _ Hnd'). cbn [dict_get].
    destruct (dict_get other k) as [v|] eqn:E.
    + destruct (String.eqb_spec k0 k) as [->|]; [|reflexivity].
      elim Hnotin. now apply (dict_get_in_keys _ _ v).
    + rewrite dict_get_set. destruct (String.eqb k0 k); reflexivity.
Qed.

End DictFacts.

(** ** Defaults (ConfigLoader._merge_with_defaults) *)

Module MergeFacts.
Import Py ConfigLoader DictFacts.

(** In the merged configuration a key given by the user holds the user's
    value, any other key holds its default, and nothing else is present:
    in particular every key of [DEFAULTS] is always there. *)
Theorem merge_with_defaults_lookup (raw_config : dict) (k : string) :
  NoDup (map fst raw_config) ->
  dict_get (_merge_with_defaults raw_config) k
  = match dict_get raw_config k with
    | Some v => Some v
    | None => dict_get DEFAULTS k
    end.
Proof. intros H. unfold _merge_with_defaults. now apply dict_get_update. Qed.

Lemma merge_with_defaults_lookup_witness :
  dict_get (_merge_with_defaults
              [("fps", VInt 24); ("scenes", VList [])]) "fps"
  = Some (VInt 24)
  /\ dict_get (_merge_with_defaults
                 [("fps", VInt 24); ("scenes", VList [])]) "width"
     = Some (VInt 1184).
Proof.
  assert (Hnd : NoDup (map fst [("fps", VInt 24); ("scenes", VList [])])).
  { repeat constructor; simpl; intuition discriminate. }
  split.
  - exact (merge_with_defaults_lookup _ "fps" Hnd).
  - exact (merge_with_defaults_lookup _ "width" Hnd).
Defined.

End MergeFacts.

(** ** Validation (ConfigLoader._validate and its helpers) *)

Module ValidationFacts.
Import Py ConfigLoader DictFacts.

(** [b] has the configuration of [a] and holds the messages of [a], then
    possibly more. *)
Definition extends (a b : loader) : Prop :=
  config b = config a
  /\ (exists e, errors b = (errors a ++ e)%list)
  /\ (exists w, warnings b = (warnings a ++ w)%list).

Lemma extends_refl (a : loader) : extends a a.
Proof.
  split; [reflexivity|]. split; exists []; now rewrite app_nil_r.
Qed.

Lemma extends_trans (a b c : loader) :
  extends a b -> extends b c -> extends a c.
Proof.
  intros (Hc1 & [e1 He1] & [w1 Hw1]) (Hc2 & [e2 He2] & [w2 Hw2]).
  split; [congruence|]. split.
  - exists (e1 ++ e2)%list. now rewrite He2, He1, app_assoc.
  - exists (w1 ++ w2)%list. now rewrite Hw2, Hw1, app_assoc.
Qed.

Lemma extends_fail (a b : loader) (msg : string) :
  extends a b -> extends a (fail b msg).
Proof.
  intros H. apply (extends_trans a b); [exact H|].
  split; [reflexivity|].
  split; [exists [msg]|exists []]; cbn; [reflexivity|now rewrite app_nil_r].
Qed.

Lemma extends_warn (a b : loader) (msg : string) :
  extends a b -> extends a (warn b msg).
Proof.
  intros H. apply (extends_trans a b); [exact H|].
  split; [reflexivity|].
  split; [exists []|exists [msg]]; cbn; [now rewrite app_nil_r|reflexivity].
Qed.

Lemma extends_errors (a b : loader) :
  extends a b -> errors a <> [] -> errors b <> [].
Proof.
  intros (_ & [e He] & _) Ha. rewrite He.
  destruct (errors a); [now elim Ha|]. discriminate.
Qed.

Lemma fail_errors (a : loader) (msg : string) : errors (fail a msg) <> [].
Proof. cbn. destruct (errors a); discriminate. Qed.

Create HintDb ext.

#[local] Hint Resolve extends_refl extends_fail extends_warn : ext.

Lemma not_among_false (v : value) (names : list string) :
  not_among v names = false -> exists s, v = VStr s /\ In s names.
Proof.
  unfold not_among. rewrite negb_false_iff. intros H.
  apply existsb_exists in H as (s & Hin & Hs).
  destruct v; try discriminate. cbn in Hs.
  apply String.eqb_eq in Hs. subst. eauto.
Qed.

Section Env.

Variable FS : Type.
Variable path_exists : FS -> value -> result bool.
Variable makedirs : FS -> string -> option FS.
Variable str : value -> string.

Lemma check_lines_extends (name : string) (lines : list value) :
  forall (i : Z) (self : loader),
    extends self (check_lines name i lines self).
Proof.
  induction lines as [|line rest IH]; intros i self; cbn [check_lines].
  - auto with ext.
  - eapply extends_trans; [|apply IH].
    destruct line; auto with ext. destruct (negb _); auto with ext.
Qed.

Lemma validate_overlay_extends (fs : FS) (scene_name : string) (j : Z)
  (overlay overlay' : value) (self self' : loader) :
  validate_overlay FS path_exists str fs scene_name j overlay self
    = Ok (overlay', self') ->
  extends self self'.
Proof.
  unfold validate_overlay.
  destruct (contains_key overlay "type") as [[|]|e]; cbn [bind negb];
    [|intros [= <- <-]; auto with ext|discriminate].
  destruct (subscript overlay "type") as [ty|e]; cbn [bind]; [|discriminate].
  destruct overlay as [| | | | | |ov]; try discriminate.
  destruct (is_str ty "text").
  - set (s1 := if negb (dict_in "text" ov) && negb (dict_in "lines" ov)
               then fail self _ else self).
    assert (H1 : extends self s1).
    { subst s1. destruct (_ && _); auto with ext. }
    set (s2 := if dict_in "lines" ov then _ else s1).
    assert (H2 : extends self s2).
    { subst s2. destruct (dict_in "lines" ov); [|exact H1].
      destruct (dict_get ov "lines") as [[| | | | |lines|]|];
        auto with ext.
      eapply extends_trans; [exact H1|apply check_lines_extends]. }
    clearbody s2. clear s1 H1.
    destruct (dict_get ov "animation") as [anim|].
    + destruct (not_among anim VALID_ANIMATIONS); intros [= <- <-];
        auto with ext.
    + intros [= <- <-]. exact H2.
  - destruct (is_str ty "image"); [|intros [= <- <-]; auto with ext].
    destruct (dict_get ov "path") as [path|];
      [|intros [= <- <-]; auto with ext].
    destruct (path_exists fs path) as [[|]|e]; cbn [bind negb];
      [| |discriminate]; intros [= <- <-]; auto with ext.
Qed.

Lemma validate_overlay_list_extends (fs : FS) (scene_name : string)
  (overlays : list value) :
  forall (j : Z) (self : loader) (overlays' : list value) (self' : loader),
    validate_overlay_list FS path_exists str fs scene_name j overlays self
      = Ok (overlays', self') ->
    extends self self'.
Proof.
  induction overlays as [|ov rest IH]; intros j self overlays' self';
    cbn [validate_overlay_list].
  - intros [= <- <-]. auto with ext.
  - destruct (validate_overlay _ _ _ _ _ _ _ _) as [[ov1 s1]|e] eqn:E1;
      [|discriminate].
    cbn [bind].
    destruct (validate_overlay_list _ _ _ _ _ _ _ _) as [[rest1 s2]|e] eqn:E2;
      [|discriminate].
    cbn [bind]. intros [= <- <-].
    eapply extends_trans; [eapply validate_overlay_extends; exact E1|].
    eapply IH; exact E2.
Qed.

Lemma validate_overlays_extends (fs : FS) (overlays overlays' : value)
  (scene_name : string) (self self' : loader) :
  _validate_overlays FS path_exists str fs overlays scene_name self
    = Ok (overlays', self') ->
  extends self self'.
Proof.
  unfold _validate_overlays.
  destruct (iterate overlays) as [items|e]; [|discriminate]. cbn [bind].
  destruct (validate_overlay_list _ _ _ _ _ _ _ _) as [[items' s1]|e] eqn:E;
    [|discriminate].
  cbn [bind]. apply validate_overlay_list_extends in E.
  destruct overlays; intros [= <- <-]; exact E.
Qed.

(** What [check_kind] hands back has a valid [type], if it has one at all;
    the check may warn but never adds an error. *)
Lemma check_kind_valid (scene_name what fallback : string)
  (valid : list string) (entry entry' : value) (self self' : loader) :
  In fallback valid ->
  check_kind str scene_name what fallback valid entry self
    = Ok (entry', self') ->
  (forall ty, subscript entry' "type" = Ok ty ->
              exists s, ty = VStr s /\ In s valid)
  /\ extends self self'
  /\ errors self' = errors self.
Proof.
  intros Hfb. unfold check_kind.
  destruct (contains_key entry "type") as [[|]|e] eqn:Ec; cbn [bind];
    [| |discriminate].
  - destruct (subscript entry "type") as [kind|e] eqn:Es; cbn [bind];
      [|discriminate].
    destruct (not_among kind valid) eqn:Ena.
    + destruct entry as [| | | | | |d]; try discriminate.
      intros [= <- <-]. split; [|split; auto with ext].
      intros ty. cbn [subscript]. unfold dict_item.
      rewrite dict_get_set_same. intros [= <-]. eauto.
    + intros [= <- <-]. split; [|split; auto with ext].
      intros ty Hty. rewrite Es in Hty. injection Hty as <-.
      now apply not_among_false.
  - intros [= <- <-]. split; [|split; auto with ext].
    intros ty Hty. destruct entry as [| | | | | |d]; try discriminate.
    cbn in Ec, Hty. unfold dict_in in Ec. unfold dict_item in Hty.
    destruct (dict_get d "type"); [discriminate|discriminate].
Qed.

(** The first check of a scene: its background image. *)
Definition image_check (fs : FS) (sc : dict) (i : Z) (self : loader)
  : result loader :=
  let scene_name :=
    fmt str (dict_get_default sc "name" (VStr ("Scene " ++ fmt_int (i + 1)))) in
  match dict_get sc "image_path" with
  | None => Ok (fail self (scene_name ++ ": Missing 'image_path'"))
  | Some path =>
      found <- path_exists fs path ;;
      if negb found
      then Ok (fail self (scene_name ++ ": Image not found: " ++ fmt str path))
      else Ok self
  end.

Lemma image_check_extends (fs : FS) (sc : dict) (i : Z) (self s1 : loader) :
  image_check fs sc i self = Ok s1 -> extends self s1.
Proof.
  unfold image_check. cbv zeta.
  destruct (dict_get sc "image_path") as [path|];
    [|intros [= <-]; auto with ext].
  destruct (path_exists fs path) as [[|]|e]; cbn [bind negb];
    [| |discriminate]; intros [= <-]; auto with ext.
Qed.

(** The image of a scene is named and is on disk. *)
Definition image_present (fs : FS) (sc : dict) : Prop :=
  exists path, dict_get sc "image_path" = Some path
               /\ path_exists fs path = Ok true.

Lemma image_check_present (fs : FS) (sc : dict) (i : Z) (self s1 : loader) :
  image_check fs sc i self = Ok s1 -> errors s1 = [] -> image_present fs sc.
Proof.
  unfold image_check, image_present. cbv zeta.
  destruct (dict_get sc "image_path") as [path|].
  - destruct (path_exists fs path) as [[|]|e] eqn:Ep; cbn [bind negb];
      [| |discriminate]; intros [= <-] Hnone.
    + exists path. split; [reflexivity|exact Ep].
    + elim (fail_errors _ _ Hnone).
  - intros [= <-] Hnone. elim (fail_errors _ _ Hnone).
Qed.

(** The checks of a scene after the image: the background effect and the
    transition through [check_kind], then the overlays. *)
Definition kind_step (scene_name key what fallback : string)
  (valid : list string) (sc : dict) (self : loader) : result (dict * loader) :=
  match dict_get sc key with
  | Some entry =>
      r <- check_kind str scene_name what fallback valid entry self ;;
      let '(entry, self) := r in
      Ok (dict_set sc key entry, self)
  | None => Ok (sc, self)
  end.

Definition overlays_step (fs : FS) (scene_name : string) (sc : dict)
  (self : loader) : result (value * loader) :=
  match dict_get sc "overlays" with
  | Some overlays =>
      r <- _validate_overlays FS path_exists str fs overlays scene_name self ;;
      let '(overlays, self) := r in
      Ok (VDict (dict_set sc "overlays" overlays), self)
  | None => Ok (VDict sc, self)
  end.

Lemma validate_scene_steps (fs : FS) (i : Z) (sc : dict) (self : loader) :
  validate_scene FS path_exists str fs i (VDict sc) self
  = let scene_name :=
      fmt str (dict_get_default sc "name"
                 (VStr ("Scene " ++ fmt_int (i + 1)))) in
    s1 <- image_check fs sc i self ;;
    r <- kind_step scene_name "background_effect" "motion effect" "static"
           VALID_MOTIONS sc s1 ;;
    let '(sc, self) := r in
    r <- kind_step scene_name "transition" "transition" "fade"
           VALID_TRANSITIONS sc self ;;
    let '(sc, self) := r in
    overlays_step fs scene_name sc self.
Proof. reflexivity. Qed.

Lemma kind_step_spec (scene_name key what fallback : string)
  (valid : list string) (sc sc' : dict) (self self' : loader) :
  In fallback valid ->
  kind_step scene_name key what fallback valid sc self = Ok (sc', self') ->
  extends self self'
  /\ (forall k, k <> key -> dict_get sc' k = dict_get sc k)
  /\ (forall e ty, dict_get sc' key = Some e ->
                   subscript e "type" = Ok ty ->
                   exists s, ty = VStr s /\ In s valid).
Proof.
  intros Hfb. unfold kind_step.
  destruct (dict_get sc key) as [entry|] eqn:Ek.
  - destruct (check_kind _ _ _ _ _ _ _) as [[entry' s2]|e] eqn:Ec;
      [|discriminate].
    cbn [bind]. intros [= <- <-].
    apply check_kind_valid in Ec as (Hv & He & _); [|exact Hfb].
    split; [exact He|]. split.
    + intros k Hk. apply dict_get_set_other. congruence.
    + intros e ty. rewrite dict_get_set_same. intros [= <-]. apply Hv.
  - intros [= <- <-]. split; [auto with ext|]. split; [reflexivity|].
    intros e ty. rewrite Ek. discriminate.
Qed.

Lemma overlays_step_spec (fs : FS) (scene_name : string) (sc : dict)
  (scene' : value) (self self' : loader) :
  overlays_step fs scene_name sc self = Ok (scene', self') ->
  extends self self'
  /\ exists sc', scene' = VDict sc'
       /\ forall k, k <> "overlays" -> dict_get sc' k = dict_get sc k.
Proof.
  unfold overlays_step. destruct (dict_get sc "overlays") as [overlays|].
  - destruct (_validate_overlays _ _ _ _ _ _ _) as [[overlays' s4]|e] eqn:Eo;
      [|discriminate].
    cbn [bind]. intros [= <- <-].
    apply validate_overlays_extends in Eo. split; [exact Eo|].
    eexists. split; [reflexivity|].
    intros k Hk. apply dict_get_set_other. congruence.
  - intros [= <- <-]. split; [auto with ext|].
    eexists. split; reflexivity.
Qed.

(** A validated scene: the image check comes first and everything after it
    only adds messages; the kinds handed back are valid ones. *)
Lemma validate_scene_spec (fs : FS) (i : Z) (sc : dict) (scene' : value)
  (self self' : loader) :
  validate_scene FS path_exists str fs i (VDict sc) self = Ok (scene', self') ->
  exists s1 sc',
    image_check fs sc i self = Ok s1
    /\ extends s1 self'
    /\ scene' = VDict sc'
    /\ (forall e ty, dict_get sc' "background_effect" = Some e ->
                     subscript e "type" = Ok ty ->
                     exists s, ty = VStr s /\ In s VALID_MOTIONS)
    /\ (forall t ty, dict_get sc' "transition" = Some t ->
                     subscript t "type" = Ok ty ->
                     exists s, ty = VStr s /\ In s VALID_TRANSITIONS).
Proof.
  rewrite validate_scene_steps. cbv zeta.
  destruct (image_check fs sc i self) as [s1|e]; [|discriminate].
  cbn [bind].
  destruct (kind_step _ "background_effect" _ _ _ _ _) as [[sc1 s2]|e] eqn:E1;
    [|discriminate].
  cbn [bind].
  destruct (kind_step _ "transition" _ _ _ _ _) as [[sc2 s3]|e] eqn:E2;
    [|discriminate].
  cbn [bind]. intros E3.
  apply kind_step_spec in E1 as (He1 & Hk1 & Hv1); [|simpl; auto].
  apply kind_step_spec in E2 as (He2 & Hk2 & Hv2); [|simpl; auto 6].
  apply overlays_step_spec in E3 as (He3 & sc' & -> & Hk3).
  exists s1, sc'. split; [reflexivity|].
  split; [eauto using extends_trans|]. split; [reflexivity|]. split.
  - intros e ty. rewrite Hk3, Hk2 by discriminate. apply Hv1.
  - intros t ty. rewrite Hk3 by discriminate. apply Hv2.
Qed.

End Env.

End ValidationFacts.

(** ** What a successful load guarantees (ConfigLoader.load) *)

Module LoaderFacts.
Import Py ConfigLoader DictFacts ValidationFacts.

Section Env.

Variable FS : Type.
Variable path_exists : FS -> value -> result bool.
Variable makedirs : FS -> string -> option FS.
Variable str : value -> string.

(** [b] holds the messages of [a], then possibly more; the configuration
    may have been rewritten. *)
Definition grows (a b : loader) : Prop :=
  (exists e, errors b = (errors a ++ e)%list)
  /\ (exists w, warnings b = (warnings a ++ w)%list).

Lemma extends_grows (a b : loader) : extends a b -> grows a b.
Proof. intros (_ & He & Hw). split; assumption. Qed.

Lemma grows_refl (a : loader) : grows a a.
Proof. apply extends_grows, extends_refl. Qed.

Lemma grows_trans (a b c : loader) : grows a b -> grows b c -> grows a c.
Proof.
  intros [[e1 He1] [w1 Hw1]] [[e2 He2] [w2 Hw2]]. split.
  - exists (e1 ++ e2)%list. now rewrite He2, He1, app_assoc.
  - exists (w1 ++ w2)%list. now rewrite Hw2, Hw1, app_assoc.
Qed.

Lemma grows_set_config (a b : loader) (cfg : dict) :
  grows a b -> grows a (set_config b cfg).
Proof. intros H. exact H. Qed.

Lemma grows_no_errors (a b : loader) :
  grows a b -> errors b = [] -> errors a = [].
Proof.
  intros [[e He] _] Hb. rewrite He in Hb.
  destruct (errors a); [reflexivity|discriminate].
Qed.

(** The kinds of a scene are valid ones. *)
Definition kinds_valid (sc : dict) : Prop :=
  (forall e ty, dict_get sc "background_effect" = Some e ->
                subscript e "type" = Ok ty ->
                exists s, ty = VStr s /\ In s VALID_MOTIONS)
  /\ (forall t ty, dict_get sc "transition" = Some t ->
                   subscript t "type" = Ok ty ->
                   exists s, ty = VStr s /\ In s VALID_TRANSITIONS).

(** A scene before and after validation. *)
Definition validated (fs : FS) (scene scene' : value) : Prop :=
  exists sc sc',
    scene = VDict sc /\ scene' = VDict sc' /\ kinds_valid sc'.

Lemma validate_scene_list_spec (fs : FS) (scenes : list value) :
  forall (i : Z) (self : loader) (scenes' : list value) (self' : loader),
    validate_scene_list FS path_exists str fs i scenes self
      = Ok (scenes', self') ->
    extends self self'
    /\ Forall2 (validated fs) scenes scenes'
    /\ (errors self' = [] ->
        forall sc, In (VDict sc) scenes ->
                   image_present FS path_exists fs sc).
Proof.
  induction scenes as [|scene rest IH]; intros i self scenes' self';
    cbn [validate_scene_list].
  - intros [= <- <-]. split; [apply extends_refl|].
    split; [constructor|]. intros _ sc [].
  - destruct (validate_scene _ _ _ _ _ _ _) as [[scene1 s1]|e] eqn:E1;
      [|discriminate].
    cbn [bind].
    destruct (validate_scene_list _ _ _ _ _ _ _) as [[rest1 s2]|e] eqn:E2;
      [|discriminate].
    cbn [bind]. intros [= <- <-].
    destruct scene as [| | | | | |sc]; try discriminate.
    apply validate_scene_spec in E1
      as (s0 & sc' & Ei & He & -> & Hbe & Htr).
    apply IH in E2 as (He2 & Hall & Himg).
    pose proof (image_check_extends _ _ _ _ _ _ _ _ Ei) as He0.
    split; [eauto using extends_trans|]. split.
    + constructor; [|exact Hall]. exists sc, sc'. repeat split; assumption.
    + intros Hnone sc0 [[= <-]|Hin]; [|now apply Himg].
      apply (image_check_present _ _ _ _ _ _ _ _ Ei).
      destruct (errors s0) eqn:E0; [reflexivity|].
      elim (extends_errors s0 s2); [eauto using extends_trans| |exact Hnone].
      rewrite E0. discriminate.
Qed.

Lemma validate_scenes_spec (fs : FS) (self st : loader) :
  _validate_scenes path_exists str fs self = Ok st ->
  grows self st
  /\ (errors st = [] ->
      exists items items',
        dict_get (config self) "scenes" = Some (VList items)
        /\ items <> []
        /\ config st = dict_set (config self) "scenes" (VList items')
        /\ Forall2 (validated fs) items items'
        /\ forall sc, In (VDict sc) items ->
                      image_present FS path_exists fs sc).
Proof.
  unfold _validate_scenes, dict_get_default.
  destruct (dict_get (config self) "scenes") as [scenes|] eqn:Esc.
  - destruct (truthy scenes) eqn:Et; cbn [negb].
    + destruct (iterate scenes) as [items|e] eqn:Ei; [|discriminate].
      cbn [bind].
      destruct (validate_scene_list _ _ _ _ _ _ _) as [[items' s1]|e] eqn:E;
        [|discriminate].
      cbn [bind]. apply validate_scene_list_spec in E as (He & Hall & Himg).
      destruct scenes as [| | | |s| l |d]; try discriminate.
      * (* a string: its characters are not scenes *)
        intros [= <-]. split; [now apply extends_grows|].
        intros Hnone. exfalso.
        cbn in Ei. injection Ei as <-.
        destruct s as [|c s]; [discriminate|].
        inversion Hall as [|? ? ? ? (sc & ? & Hsc & _) _]; subst.
        discriminate.
      * intros [= <-]. cbn in Ei. injection Ei as <-.
        split; [now apply grows_set_config, extends_grows|]. intros Hnone.
        exists l, items'. split; [reflexivity|].
        split; [destruct l; [discriminate|discriminate]|].
        split; [cbn; destruct He as (-> & _); reflexivity|].
        split; [exact Hall|]. now apply Himg.
      * intros [= <-]. split; [now apply extends_grows|].
        intros Hnone. exfalso.
        cbn in Ei. injection Ei as <-.
        destruct d as [|[k v] d]; [discriminate|].
        inversion Hall as [|? ? ? ? (sc & ? & Hsc & _) _]; subst.
        discriminate.
    + intros [= <-]. split; [apply extends_grows, extends_fail, extends_refl|].
      intros Hnone. elim (fail_errors _ _ Hnone).
  - cbn. intros [= <-].
    split; [apply extends_grows, extends_fail, extends_refl|].
    intros Hnone. elim (fail_errors _ _ Hnone).
Qed.

Lemma check_output_path_spec (fs fs' : FS) (self st : loader) :
  check_output_path path_exists makedirs fs self = Ok (st, fs') ->
  extends self st.
Proof.
  unfold check_output_path.
  destruct (dict_get (config self) "output_path") as [[| | | |p| |]|];
    try discriminate; [|intros [= <- <-]; apply extends_refl].
  destruct (PyStr.truthy (dirname p));
    [|intros [= <- <-]; apply extends_refl].
  destruct (path_exists fs _) as [[|]|e]; cbn [bind negb]; [| |discriminate].
  - intros [= <- <-]; apply extends_refl.
  - destruct (makedirs fs _); intros [= <- <-];
      [apply extends_refl|apply extends_fail, extends_refl].
Qed.

Lemma check_audio_spec (fs : FS) (self st : loader) :
  check_audio path_exists str fs self = Ok st -> extends self st.
Proof.
  unfold check_audio.
  destruct (dict_get (config self) "audio_path") as [audio_path|];
    [|intros [= <-]; apply extends_refl].
  destruct (path_exists fs audio_path) as [[|]|e]; cbn [bind negb];
    [| |discriminate]; intros [= <-];
    [apply extends_refl|apply extends_warn, extends_refl].
Qed.

(** [v > 0] holds: the check [v <= 0] ran and was false. *)
Definition positive (v : value) : Prop :=
  exists q, as_number v = Some q /\ 0 < q.

Lemma le_zero_false (v : value) : le_zero v = Ok false -> positive v.
Proof.
  unfold le_zero, positive. destruct (as_number v) as [q|]; [|discriminate].
  intros [= H]. exists q. split; [reflexivity|].
  apply Qnot_le_lt. intros Hle. apply Qle_bool_iff in Hle. congruence.
Qed.

Lemma check_dimensions_spec (self st : loader) :
  check_dimensions self = Ok st ->
  extends self st
  /\ (errors st = [] ->
      exists w h, dict_get (config self) "width" = Some w
                  /\ dict_get (config self) "height" = Some h
                  /\ positive w /\ positive h).
Proof.
  unfold check_dimensions, dict_item.
  destruct (dict_get (config self) "width") as [w|]; [|discriminate].
  cbn [bind]. destruct (le_zero w) as [[|]|e] eqn:Ew; [| |discriminate];
    cbn [bind].
  - intros [= <-]. split; [apply extends_fail, extends_refl|].
    intros Hnone. elim (fail_errors _ _ Hnone).
  - destruct (dict_get (config self) "height") as [h|]; [|discriminate].
    cbn [bind]. destruct (le_zero h) as [[|]|e] eqn:Eh; [| |discriminate];
      cbn [bind]; intros [= <-].
    + split; [apply extends_fail, extends_refl|].
      intros Hnone. elim (fail_errors _ _ Hnone).
    + split; [apply extends_refl|].
      intros _. exists w, h. auto using le_zero_false.
Qed.

Lemma check_fps_spec (self st : loader) :
  check_fps self = Ok st ->
  extends self st
  /\ (errors st = [] ->
      exists f, dict_get (config self) "fps" = Some f /\ positive f).
Proof.
  unfold check_fps, dict_item.
  destruct (dict_get (config self) "fps") as [f|]; [|discriminate].
  cbn [bind]. destruct (le_zero f) as [[|]|e] eqn:Ef; [| |discriminate];
    cbn [bind]; intros [= <-].
  - split; [apply extends_fail, extends_refl|].
    intros Hnone. elim (fail_errors _ _ Hnone).
  - split; [apply extends_refl|].
    intros _. exists f. auto using le_zero_false.
Qed.

(** What [_validate] has established when it leaves no error. *)
Lemma validate_spec (fs fs' : FS) (self st : loader) :
  _validate path_exists makedirs str fs self = Ok (st, fs') ->
  grows self st
  /\ (errors st = [] ->
      exists items items' w h f,
        dict_get (config self) "scenes" = Some (VList items)
        /\ items <> []
        /\ config st = dict_set (config self) "scenes" (VList items')
        /\ Forall2 (validated fs) items items'
        /\ (forall sc, In (VDict sc) items ->
                       image_present FS path_exists fs sc)
        /\ dict_get (config st) "width" = Some w
        /\ dict_get (config st) "height" = Some h
        /\ dict_get (config st) "fps" = Some f
        /\ positive w /\ positive h /\ positive f).
Proof.
  unfold _validate. cbn [REQUIRED_FIELDS check_required].
  set (s0 := if negb (dict_in "scenes" (config self)) then _ else self).
  assert (H0 : extends self s0
               /\ (errors s0 = [] -> dict_in "scenes" (config self) = true)).
  { subst s0. destruct (dict_in "scenes" (config self)); cbn [negb].
    - split; [apply extends_refl|]. reflexivity.
    - split; [apply extends_fail, extends_refl|].
      intros Hnone. elim (fail_errors _ _ Hnone). }
  destruct H0 as (He0 & Hin0). clearbody s0.
  destruct (if dict_in "scenes" (config s0) then _ else _)
    as [s1|e] eqn:E1; [|discriminate].
  cbn [bind].
  destruct (check_output_path _ _ _ _) as [[s2 fs2]|e] eqn:E2;
    [|discriminate].
  cbn [bind].
  destruct (check_audio _ _ _ _) as [s3|e] eqn:E3; [|discriminate].
  cbn [bind].
  destruct (check_dimensions s3) as [s4|e] eqn:E4; [|discriminate].
  cbn [bind].
  destruct (check_fps s4) as [s5|e] eqn:E5; [|discriminate].
  cbn [bind]. intros [= <- <-].
  apply check_output_path_spec in E2 as He2.
  apply check_audio_spec in E3 as He3.
  apply check_dimensions_spec in E4 as (He4 & Hd4).
  apply check_fps_spec in E5 as (He5 & Hd5).
  pose proof (extends_trans _ _ _ He2 (extends_trans _ _ _ He3
                (extends_trans _ _ _ He4 He5))) as He15.
  assert (He1 : grows s0 s1
    /\ (errors s1 = [] ->
        exists items items',
          dict_get (config self) "scenes" = Some (VList items)
          /\ items <> []
          /\ config s1 = dict_set (config self) "scenes" (VList items')
          /\ Forall2 (validated fs) items items'
          /\ forall sc, In (VDict sc) items ->
                        image_present FS path_exists fs sc)).
  { destruct He0 as (Hc0 & _).
    destruct (dict_in "scenes" (config s0)) eqn:Ein.
    - apply validate_scenes_spec in E1 as (He1 & Hs1).
      rewrite Hc0 in Hs1. split; assumption.
    - injection E1 as <-. split; [apply grows_refl|].
      intros Hnone. apply Hin0 in Hnone. rewrite Hc0 in Ein. congruence. }
  destruct He1 as (He1 & Hs1).
  split.
  { eapply grows_trans; [apply extends_grows, He0|].
    eapply grows_trans; [exact He1|apply extends_grows, He15]. }
  intros Hnone.
  pose proof (grows_no_errors _ _ (extends_grows _ _ He5) Hnone) as Hn4.
  pose proof (grows_no_errors _ _ (extends_grows _ _ He15) Hnone) as Hn1.
  destruct (Hs1 Hn1) as (items & items' & Hsc & Hne & Hcfg & Hall & Himg).
  destruct (Hd4 Hn4) as (w & h & Hw & Hh & Hwp & Hhp).
  destruct (Hd5 Hnone) as (f & Hf & Hfp).
  assert (Hc5 : config s5 = config s1) by apply He15.
  assert (Hc4 : config s4 = config s1).
  { destruct He5 as (H5 & _). congruence. }
  assert (Hc3 : config s3 = config s1).
  { destruct He4 as (H4 & _). congruence. }
  exists items, items', w, h, f.
  rewrite Hc5. rewrite Hc3 in Hw, Hh. rewrite Hc4 in Hf.
  repeat split; assumption.
Qed.

End Env.

End LoaderFacts.

(** ** The loaded configuration (ConfigLoader._preprocess_scenes, load) *)

Module LoadGuarantees.
Import Py ConfigLoader DictFacts ValidationFacts LoaderFacts.

Lemma dict_in_get (d : dict) (k : string) :
  dict_in k d = true <-> exists v, dict_get d k = Some v.
Proof.
  unfold dict_in. destruct (dict_get d k) as [v|].
  - split; [eauto|reflexivity].
  - split; [discriminate|intros [v H]; discriminate].
Qed.

(** A scene before and after preprocessing: it has a name and a background
    effect, its own one if it had one and the static one otherwise; the
    transition is not touched. *)
Definition preprocessed (scene scene' : value) : Prop :=
  exists sc sc',
    scene = VDict sc /\ scene' = VDict sc'
    /\ dict_in "name" sc' = true
    /\ dict_get sc' "background_effect"
       = Some (dict_get_default sc "background_effect"
                 (VDict [("type", VStr "static")]))
    /\ dict_get sc' "transition" = dict_get sc "transition".

Lemma preprocess_scene_spec (self : loader) (i : Z) (scene scene' : value) :
  preprocess_scene self i scene = Ok scene' -> preprocessed scene scene'.
Proof.
  unfold preprocess_scene. destruct scene as [| | | | | |sc]; try discriminate.
  set (sc1 := if dict_in "name" sc then sc else _).
  assert (H1 : dict_in "name" sc1 = true
               /\ forall k, k <> "name" -> dict_get sc1 k = dict_get sc k).
  { subst sc1. destruct (dict_in "name" sc) eqn:E.
    - split; [exact E|reflexivity].
    - split.
      + apply dict_in_get. eexists. apply dict_get_set_same.
      + intros k Hk. apply dict_get_set_other. congruence. }
  destruct H1 as (Hn1 & Hk1). clearbody sc1.
  set (sc2 := if dict_in "background_effect" sc1 then sc1 else _).
  assert (H2 : dict_get sc2 "background_effect"
               = Some (dict_get_default sc "background_effect"
                         (VDict [("type", VStr "static")]))
               /\ forall k, k <> "background_effect" ->
                            dict_get sc2 k = dict_get sc1 k).
  { subst sc2. unfold dict_in, dict_get_default.
    rewrite <- (Hk1 "background_effect") by discriminate.
    destruct (dict_get sc1 "background_effect") as [e|] eqn:E.
    - split; [exact E|reflexivity].
    - split; [apply dict_get_set_same|].
      intros k Hk. apply dict_get_set_other. congruence. }
  destruct H2 as (Hb2 & Hk2). clearbody sc2.
  assert (Hgoal : forall sc',
    (forall k, k <> "overlays" -> dict_get sc' k = dict_get sc2 k) ->
    preprocessed (VDict sc) (VDict sc')).
  { intros sc' Hk3. exists sc, sc'. split; [reflexivity|].
    split; [reflexivity|]. split; [|split].
    - apply dict_in_get. rewrite Hk3, Hk2 by discriminate.
      now apply dict_in_get.
    - now rewrite Hk3 by discriminate.
    - now rewrite Hk3, Hk2, Hk1 by discriminate. }
  destruct (dict_get sc2 "overlays") as [overlays|];
    [|intros [= <-]; now apply Hgoal].
  destruct (iterate overlays) as [items|e]; [|discriminate]. cbn [bind].
  destruct (preprocess_overlay_list self items) as [items'|e];
    [|discriminate].
  cbn [bind].
  destruct overlays; intros [= <-]; apply Hgoal; try reflexivity.
  intros k Hk. apply dict_get_set_other. congruence.
Qed.

Lemma preprocess_scene_list_spec (self : loader) (scenes : list value) :
  forall (i : Z) (scenes' : list value),
    preprocess_scene_list self i scenes = Ok scenes' ->
    Forall2 preprocessed scenes scenes'.
Proof.
  induction scenes as [|scene rest IH]; intros i scenes';
    cbn [preprocess_scene_list].
  - intros [= <-]. constructor.
  - destruct (preprocess_scene self i scene) as [scene1|e] eqn:E1;
      [|discriminate].
    cbn [bind].
    destruct (preprocess_scene_list self (i + 1) rest) as [rest1|e] eqn:E2;
      [|discriminate].
    cbn [bind]. intros [= <-]. constructor.
    + now apply preprocess_scene_spec in E1.
    + now apply IH in E2.
Qed.

Lemma preprocess_scenes_spec (self st : loader) (items : list value) :
  dict_get (config self) "scenes" = Some (VList items) ->
  _preprocess_scenes self = Ok st ->
  errors st = errors self
  /\ warnings st = warnings self
  /\ exists items',
       config st = dict_set (config self) "scenes" (VList items')
       /\ Forall2 preprocessed items items'.
Proof.
  intros Hsc. unfold _preprocess_scenes, dict_get_default, dict_in.
  rewrite Hsc. cbn [iterate bind].
  destruct (preprocess_scene_list self 0 items) as [items'|e] eqn:E;
    [|discriminate].
  cbn [bind]. intros [= <-].
  split; [reflexivity|]. split; [reflexivity|].
  exists items'. split; [reflexivity|].
  now apply preprocess_scene_list_spec in E.
Qed.

(** A scene of the loaded configuration. *)
Definition normal_scene (scene : value) : Prop :=
  exists sc,
    scene = VDict sc
    /\ dict_in "name" sc = true
    /\ dict_in "background_effect" sc = true
    /\ kinds_valid sc.

Lemma validated_preprocessed_normal (FS : Type) (fs : FS)
  (a b c : list value) :
  Forall2 (validated FS fs) a b -> Forall2 preprocessed b c ->
  Forall normal_scene c /\ List.length c = List.length a.
Proof.
  intros Hab. revert c.
  induction Hab as [|x y a b Hxy _ IH]; intros c Hbc.
  - inversion Hbc. split; [constructor|reflexivity].
  - inversion Hbc as [|? z ? c' Hyz Hbc']; subst.
    destruct (IH _ Hbc') as (Hall & Hlen).
    split; [|cbn; now rewrite Hlen].
    constructor; [|exact Hall].
    destruct Hxy as (sx & sy & -> & -> & Hbe & Htr).
    destruct Hyz as (sy' & sz & [= <-] & -> & Hname & Hb & Ht).
    exists sz. split; [reflexivity|]. split; [exact Hname|].
    split; [apply dict_in_get; eauto|]. split.
    + intros e ty. rewrite Hb. intros [= <-]. unfold dict_get_default.
      destruct (dict_get sy "background_effect") as [e|] eqn:Ee.
      * now apply Hbe.
      * cbn. intros [= <-]. exists "static". split; [reflexivity|].
        simpl. auto.
    + intros t ty. rewrite Ht. apply Htr.
Qed.

Lemma forall2_in_left (A B : Type) (R : A -> B -> Prop)
  (a : list A) (b : list B) (x : A) :
  Forall2 R a b -> In x a -> exists y, In y b /\ R x y.
Proof.
  induction 1 as [|x0 y0 a b Hxy _ IH]; intros Hin; [destruct Hin|].
  destruct Hin as [<-|Hin].
  - exists y0. split; [now left|exact Hxy].
  - destruct (IH Hin) as (y & Hy & Hr). exists y. split; [now right|exact Hr].
Qed.

Section Env.

Variable FS : Type.
Variable path_exists : FS -> value -> result bool.
Variable makedirs : FS -> string -> option FS.
Variable str : value -> string.

Lemma load_spec (fs fs' : FS) (self st : loader) (raw_config cfg : dict) :
  load path_exists makedirs str fs self raw_config = Ok (cfg, st, fs') ->
  cfg = config st
  /\ errors st = []
  /\ errors self = []
  /\ (exists w, warnings st = (warnings self ++ w)%list)
  /\ exists items scenes w h f,
       dict_get (_merge_with_defaults raw_config) "scenes" = Some (VList items)
       /\ items <> []
       /\ (forall scene, In scene items ->
             exists sc, scene = VDict sc
                        /\ image_present FS path_exists fs sc)
       /\ dict_get cfg "scenes" = Some (VList scenes)
       /\ List.length scenes = List.length items
       /\ Forall normal_scene scenes
       /\ dict_get cfg "width" = Some w
       /\ dict_get cfg "height" = Some h
       /\ dict_get cfg "fps" = Some f
       /\ positive w /\ positive h /\ positive f.
Proof.
  unfold load.
  destruct (_validate _ _ _ _ _) as [[s1 fs1]|e] eqn:Ev; [|discriminate].
  cbn [bind].
  destruct (_preprocess_scenes s1) as [s2|e] eqn:Ep; [|discriminate].
  cbn [bind]. destruct (errors s2) eqn:Ee; [|discriminate].
  intros [= <- <- <-].
  apply validate_spec in Ev as (Hg & Hok).
  assert (Hs1 : errors s1 = []).
  { unfold _preprocess_scenes in Ep.
    destruct (iterate _) as [x|]; [|discriminate]. cbn [bind] in Ep.
    destruct (preprocess_scene_list _ _ _) as [y|]; [|discriminate].
    cbn [bind] in Ep.
    destruct (dict_get_default _ _ _); try (injection Ep as <-; exact Ee).
    destruct (dict_in _ _); injection Ep as <-; exact Ee. }
  destruct (Hok Hs1)
    as (items & items' & w & h & f & Hsc & Hne & Hcfg & Hall & Himg
        & Hw & Hh & Hf & Hwp & Hhp & Hfp).
  cbn [config set_config] in Hsc.
  assert (Hsc1 : dict_get (config s1) "scenes" = Some (VList items')).
  { rewrite Hcfg. apply dict_get_set_same. }
  destruct (preprocess_scenes_spec _ _ _ Hsc1 Ep)
    as (_ & Hwarn & items'' & Hcfg2 & Hpre).
  destruct (validated_preprocessed_normal _ _ _ _ _ Hall Hpre)
    as (Hnormal & Hlen).
  split; [reflexivity|]. split; [exact Ee|].
  split; [apply (grows_no_errors _ _ Hg Hs1)|].
  split.
  { destruct Hg as (_ & [wn Hwn]). exists wn. now rewrite Hwarn. }
  exists items, items'', w, h, f.
  split; [exact Hsc|]. split; [exact Hne|]. split.
  { intros scene Hin.
    destruct (forall2_in_left _ _ _ _ _ _ Hall Hin) as (y & _ & sc & sc' & -> & _).
    exists sc. split; [reflexivity|]. now apply Himg. }
  rewrite Hcfg2.
  split; [apply dict_get_set_same|]. split; [exact Hlen|].
  split; [exact Hnormal|].
  rewrite !dict_get_set_other by discriminate.
  repeat split; assumption.
Qed.

End Env.

End LoadGuarantees.

(** ** Theorems on loading *)

Module LoadTheorems.
Import Py ConfigLoader DictFacts ValidationFacts LoaderFacts LoadGuarantees.

(** Validation only appends: the errors and warnings collected before
    [_validate] are still there afterwards, in the same order, at the front
    of the lists. *)
Theorem validate_only_appends (FS : Type)
  (path_exists : FS -> value -> result bool)
  (makedirs : FS -> string -> option FS) (str : value -> string)
  (fs fs' : FS) (self st : loader) :
  _validate path_exists makedirs str fs self = Ok (st, fs') ->
  (exists e, errors st = (errors self ++ e)%list)
  /\ (exists w, warnings st = (warnings self ++ w)%list).
Proof. intros H. now apply validate_spec in H as (Hg & _). Qed.

(** A disk holding the image and the audio file of the sample project. *)
Definition full_disk : MissingAudioFacts.disk :=
  ["scenes/scene1.png"; "soundtrack/music.mp3"; "output"].

Lemma validate_only_appends_witness :
  exists st fs',
    _validate MissingAudioFacts.on_disk MissingAudioFacts.mkdir
      MissingAudioFacts.plain_str MissingAudioFacts.disk_without_image
      (set_config (fail MissingAudioFacts.fresh_loader "earlier")
         (_merge_with_defaults MissingAudioFacts.project))
    = Ok (st, fs')
    /\ exists e, errors st = ("earlier" :: e)%list.
Proof.
  destruct (_validate MissingAudioFacts.on_disk MissingAudioFacts.mkdir
      MissingAudioFacts.plain_str MissingAudioFacts.disk_without_image
      (set_config (fail MissingAudioFacts.fresh_loader "earlier")
         (_merge_with_defaults MissingAudioFacts.project)))
    as [[st fs']|e] eqn:E; [|vm_compute in E; discriminate].
  exists st, fs'. split; [reflexivity|].
  exact (proj1 (validate_only_appends _ _ _ _ _ _ _ _ E)).
Defined.

(** [load] succeeds only on a configuration whose [scenes] entry is a
    non-empty list of objects, each naming a background image that exists
    on disk. *)
Theorem load_requires_scenes_and_images (FS : Type)
  (path_exists : FS -> value -> result bool)
  (makedirs : FS -> string -> option FS) (str : value -> string)
  (fs fs' : FS) (self st : loader) (raw_config cfg : dict) :
  NoDup (map fst raw_config) ->
  load path_exists makedirs str fs self raw_config = Ok (cfg, st, fs') ->
  exists items,
    dict_get raw_config "scenes" = Some (VList items)
    /\ items <> []
    /\ forall scene, In scene items ->
         exists sc path,
           scene = VDict sc
           /\ dict_get sc "image_path" = Some path
           /\ path_exists fs path = Ok true.
Proof.
  intros Hnd H. apply load_spec in H
    as (_ & _ & _ & _ & items & scenes & w & h & f & Hsc & Hne & Himg & _).
  exists items. split; [|split; [exact Hne|]].
  - unfold _merge_with_defaults in Hsc.
    rewrite (dict_get_update _ _ _ Hnd) in Hsc.
    destruct (dict_get raw_config "scenes"); [exact Hsc|discriminate].
  - intros scene Hin. destruct (Himg scene Hin) as (sc & -> & path & Hp & He).
    exists sc, path. auto.
Qed.

Lemma load_requires_scenes_and_images_witness :
  exists items,
    dict_get MissingAudioFacts.project "scenes" = Some (VList items)
    /\ items <> [].
Proof.
  destruct (load MissingAudioFacts.on_disk MissingAudioFacts.mkdir
              MissingAudioFacts.plain_str full_disk
              MissingAudioFacts.fresh_loader MissingAudioFacts.project)
    as [[[cfg st] fs']|e] eqn:E; [|vm_compute in E; discriminate].
  assert (Hnd : NoDup (map fst MissingAudioFacts.project)).
  { repeat constructor; simpl; intuition discriminate. }
  destruct (load_requires_scenes_and_images _ _ _ _ _ _ _ _ _ _ Hnd E)
    as (items & Hsc & Hne & _).
  exists items. split; assumption.
Defined.

(** In a loaded configuration [scenes] is a non-empty list in which every
    scene has a name and a background effect, and in which the type of a
    background effect or of a transition, where one is given, is one of
    the valid ones: unknown types have been replaced. *)
Theorem loaded_scenes_are_normal (FS : Type)
  (path_exists : FS -> value -> result bool)
  (makedirs : FS -> string -> option FS) (str : value -> string)
  (fs fs' : FS) (self st : loader) (raw_config cfg : dict) :
  load path_exists makedirs str fs self raw_config = Ok (cfg, st, fs') ->
  exists scenes,
    dict_get cfg "scenes" = Some (VList scenes)
    /\ scenes <> []
    /\ forall scene, In scene scenes ->
         exists sc,
           scene = VDict sc
           /\ dict_in "name" sc = true
           /\ dict_in "background_effect" sc = true
           /\ (forall e ty, dict_get sc "background_effect" = Some e ->
                 subscript e "type" = Ok ty ->
                 exists s, ty = VStr s /\ In s VALID_MOTIONS)
           /\ (forall t ty, dict_get sc "transition" = Some t ->
                 subscript t "type" = Ok ty ->
                 exists s, ty = VStr s /\ In s VALID_TRANSITIONS).
Proof.
  intros H. apply load_spec in H
    as (_ & _ & _ & _ & items & scenes & w & h & f & _ & Hne & _ & Hsc
        & Hlen & Hnormal & _).
  exists scenes. split; [exact Hsc|]. split.
  - intros ->. destruct items; [now elim Hne|discriminate].
  - intros scene Hin. rewrite Forall_forall in Hnormal.
    destruct (Hnormal scene Hin) as (sc & -> & Hn & Hb & Hbe & Htr).
    exists sc. repeat split; assumption.
Qed.

(** A project whose only scene asks for an unknown transition. *)
Definition project_with_wipe : dict :=
  [("scenes",
    VList [VDict [("image_path", VStr "scenes/scene1.png");
                  ("transition", VDict [("type", VStr "wipe")])]])].

Lemma loaded_scenes_are_normal_witness :
  exists cfg st fs' sc,
    load MissingAudioFacts.on_disk MissingAudioFacts.mkdir
      MissingAudioFacts.plain_str full_disk
      MissingAudioFacts.fresh_loader project_with_wipe = Ok (cfg, st, fs')
    /\ dict_get cfg "scenes" = Some (VList [VDict sc])
    /\ dict_get sc "transition" = Some (VDict [("type", VStr "fade")])
    /\ dict_in "name" sc = true.
Proof.
  destruct (load MissingAudioFacts.on_disk MissingAudioFacts.mkdir
              MissingAudioFacts.plain_str full_disk
              MissingAudioFacts.fresh_loader project_with_wipe)
    as [[[cfg st] fs']|e] eqn:E; [|vm_compute in E; discriminate].
  destruct (loaded_scenes_are_normal _ _ _ _ _ _ _ _ _ _ E)
    as (scenes & Hsc & Hne & Hall).
  vm_compute in E. injection E as <- <- <-.
  eexists _, _, _, _. split; [reflexivity|].
  vm_compute in Hsc. injection Hsc as <-.
  destruct (Hall _ (or_introl eq_refl)) as (sc & [= <-] & Hname & _).
  split; [reflexivity|]. split; [reflexivity|exact Hname].
Defined.



End LoadTheorems.

(** ** Text overlays (ConfigLoader._validate_overlays, _preprocess_overlay) *)

Module OverlayFacts.
Import Py ConfigLoader DictFacts ValidationFacts.

(** The keys [_preprocess_overlay] fills in on a text overlay, each with
    the value used when the overlay does not give one. *)
Definition text_defaults (cfg : dict) : list (string * result value) :=
  [("font", dict_item cfg "default_font");
   ("font_size", dict_item cfg "default_font_size");
   ("color", dict_item cfg "default_text_color");
   ("bold", dict_item cfg "enable_text_bold");
   ("shadow", dict_item cfg "enable_text_shadow");
   ("animation", Ok (VStr "fade_in"));
   ("position", Ok (VStr "center"));
   ("start_time", Ok (VInt 0))].

(** [if key not in overlay: overlay[key] = v]. *)
Definition set_default (ov : dict) (key : string) (v : result value)
  : result dict :=
  if dict_in key ov then Ok ov else (x <- v ;; Ok (dict_set ov key x)).

Fixpoint set_defaults (ov : dict) (table : list (string * result value))
  : result dict :=
  match table with
  | [] => Ok ov
  | (key, v) :: rest => ov <- set_default ov key v ;; set_defaults ov rest
  end.

Lemma preprocess_overlay_steps (self : loader) (ov : dict) (ty : value) :
  dict_get ov "type" = Some ty ->
  _preprocess_overlay self (VDict ov)
  = if is_str ty "text"
    then ov' <- set_defaults ov (text_defaults (config self)) ;; Ok (VDict ov')
    else Ok (VDict ov).
Proof.
  intros Hty. unfold _preprocess_overlay. cbn [subscript].
  unfold dict_item at 1. rewrite Hty. cbn [bind].
  destruct (is_str ty "text"); [|reflexivity].
  cbn [set_defaults text_defaults]. unfold set_default.
  repeat match goal with
  | |- context [if ?b then _ else _] => destruct b; cbn [bind]
  | |- context [dict_item ?c ?k] => destruct (dict_item c k); cbn [bind]
  end; reflexivity.
Qed.

Lemma set_default_spec (ov ov' : dict) (key : string) (v : result value) :
  set_default ov key v = Ok ov' ->
  (exists x, dict_get ov' key = Some x
             /\ (dict_get ov key = Some x
                 \/ (dict_get ov key = None /\ v = Ok x)))
  /\ forall k, k <> key -> dict_get ov' k = dict_get ov k.
Proof.
  unfold set_default, dict_in.
  destruct (dict_get ov key) as [x|] eqn:E.
  - intros [= <-]. split; [|reflexivity]. exists x. auto.
  - destruct v as [x|e]; [|discriminate]. cbn [bind]. intros [= <-]. split.
    + exists x. split; [apply dict_get_set_same|auto].
    + intros k Hk. apply dict_get_set_other. congruence.
Qed.

Lemma set_defaults_spec (table : list (string * result value)) :
  NoDup (map fst table) ->
  forall ov ov',
    set_defaults ov table = Ok ov' ->
    (forall key v, In (key, v) table ->
       exists x, dict_get ov' key = Some x
                 /\ (dict_get ov key = Some x
                     \/ (dict_get ov key = None /\ v = Ok x)))
    /\ (forall k, ~ In k (map fst table) -> dict_get ov' k = dict_get ov k).
Proof.
  induction table as [|[key0 v0] rest IH]; intros Hnd ov ov';
    cbn [set_defaults].
  - intros [= <-]. split; [intros key v []|reflexivity].
  - inversion Hnd as [|? ? Hnotin Hnd']; subst.
    destruct (set_default ov key0 v0) as [ov1|e] eqn:E1; [|discriminate].
    cbn [bind]. intros E2.
    apply set_default_spec in E1 as ((x0 & Hx0 & Hsrc) & Hk1).
    destruct (IH Hnd' _ _ E2) as (Hin & Hout).
    split.
    + intros key v [[= <- <-]|Hkv].
      * exists x0. split; [|exact Hsrc].
        rewrite (Hout key0 Hnotin). exact Hx0.
      * destruct (Hin key v Hkv) as (x & Hx & Hs).
        assert (Hne : key <> key0).
        { intros ->. apply Hnotin. apply in_map_iff. now exists (key0, v). }
        exists x. split; [exact Hx|]. now rewrite <- (Hk1 key Hne).
    + intros k Hk. cbn [map fst] in Hk.
      rewrite (Hout k) by (intros H; apply Hk; now right).
      apply Hk1. intros ->. apply Hk. now left.
Qed.

(** After [_preprocess_overlay] a text overlay has a font, a font size, a
    colour, the bold and shadow flags, an animation, a position and a start
    time: the overlay's own value where it gave one (it is never
    overwritten), the configured or built-in default otherwise.  All other
    keys, and overlays that are not text, are left as they are. *)
Theorem preprocess_overlay_defaults (self : loader) (ov : dict)
  (ty overlay' : value) :
  dict_get ov "type" = Some ty ->
  _preprocess_overlay self (VDict ov) = Ok overlay' ->
  exists ov',
    overlay' = VDict ov'
    /\ (is_str ty "text" = false -> ov' = ov)
    /\ (is_str ty "text" = true ->
        (forall key v, In (key, v) (text_defaults (config self)) ->
           exists x, dict_get ov' key = Some x
                     /\ (dict_get ov key = Some x
                         \/ (dict_get ov key = None /\ v = Ok x)))
        /\ (forall k v, dict_get ov k = Some v -> dict_get ov' k = Some v)).
Proof.
  intros Hty. rewrite (preprocess_overlay_steps _ _ _ Hty).
  destruct (is_str ty "text").
  - destruct (set_defaults ov _) as [ov'|e] eqn:E; [|discriminate].
    cbn [bind]. intros [= <-]. exists ov'. split; [reflexivity|].
    split; [discriminate|]. intros _.
    apply set_defaults_spec in E as (Hin & Hout).
    + split; [exact Hin|]. intros k v Hk.
      destruct (in_dec string_dec k
                  (map fst (text_defaults (config self)))) as [Hmem|Hmem].
      * apply in_map_iff in Hmem as ([key d] & <- & Hkd).
        destruct (Hin key d Hkd) as (x & Hx & [Hs|[Hs _]]);
          cbn [fst] in *; congruence.
      * now rewrite (Hout k Hmem).
    + cbn. repeat constructor; simpl; intuition discriminate.
  - intros [= <-]. exists ov. split; [reflexivity|].
    split; [reflexivity|discriminate].
Qed.

Lemma preprocess_overlay_defaults_witness :
  exists ov',
    _preprocess_overlay
      (set_config MissingAudioFacts.fresh_loader DEFAULTS)
      (VDict [("type", VStr "text"); ("text", VStr "Hi");
              ("font", VStr "Roboto")])
    = Ok (VDict ov')
    /\ dict_get ov' "font" = Some (VStr "Roboto")
    /\ exists x, dict_get ov' "font_size" = Some x.
Proof.
  destruct (_preprocess_overlay
      (set_config MissingAudioFacts.fresh_loader DEFAULTS)
      (VDict [("type", VStr "text"); ("text", VStr "Hi");
              ("font", VStr "Roboto")])) as [o|e] eqn:E;
    [|vm_compute in E; discriminate].
  destruct (preprocess_overlay_defaults
              (set_config MissingAudioFacts.fresh_loader DEFAULTS)
              [("type", VStr "text"); ("text", VStr "Hi");
               ("font", VStr "Roboto")] (VStr "text") o eq_refl E)
    as (ov' & -> & _ & H).
  destruct (H eq_refl) as (Hin & Hkeep).
  exists ov'. split; [reflexivity|]. split.
  - apply Hkeep. reflexivity.
  - destruct (Hin "font_size" _ (or_intror (or_introl eq_refl)))
      as (x & Hx & _).
    exists x. exact Hx.
Defined.

Section Env.

Variable FS : Type.
Variable path_exists : FS -> value -> result bool.
Variable str : value -> string.

(** After validation the animation of a text overlay, if it names one, is
    one of [VALID_ANIMATIONS]: an unknown name has been replaced by
    [fade_in] with a warning, and never with an error.  Nothing else in
    the overlay changes. *)
Theorem validated_animation_is_valid (fs : FS) (scene_name : string) (j : Z)
  (ov : dict) (overlay' : value) (self self' : loader) :
  validate_overlay FS path_exists str fs scene_name j (VDict ov) self
    = Ok (overlay', self') ->
  exists ov',
    overlay' = VDict ov'
    /\ (forall k, k <> "animation" -> dict_get ov' k = dict_get ov k)
    /\ (forall ty anim,
          dict_get ov' "type" = Some ty -> is_str ty "text" = true ->
          dict_get ov' "animation" = Some anim ->
          exists s, anim = VStr s /\ In s VALID_ANIMATIONS)
    /\ (forall anim s,
          dict_get ov "animation" = Some anim ->
          anim = VStr s -> In s VALID_ANIMATIONS -> ov' = ov).
Proof.
  unfold validate_overlay. cbn [contains_key subscript bind].
  unfold dict_in at 1, dict_item.
  destruct (dict_get ov "type") as [ty0|] eqn:Ety; cbn [bind negb].
  - destruct (is_str ty0 "text") eqn:Etext.
    + destruct (dict_get ov "animation") as [anim0|] eqn:Ea.
      * destruct (not_among anim0 VALID_ANIMATIONS) eqn:Ena.
        -- intros [= <- <-]. eexists. split; [reflexivity|]. split; [|split].
           ++ intros k Hk. apply dict_get_set_other. congruence.
           ++ intros ty anim _ _. rewrite dict_get_set_same. intros [= <-].
              exists "fade_in". split; [reflexivity|]. simpl. auto.
           ++ intros anim s [= <-] -> Hin. exfalso.
              unfold not_among in Ena. apply negb_true_iff in Ena.
              assert (existsb (is_str (VStr s)) VALID_ANIMATIONS = true).
              { apply existsb_exists. exists s. split; [exact Hin|].
                cbn. apply String.eqb_refl. }
              congruence.
        -- intros [= <- <-]. exists ov. split; [reflexivity|].
           split; [reflexivity|]. split; [|reflexivity].
           intros ty anim _ _. rewrite Ea. intros [= <-].
           now apply not_among_false.
      * intros [= <- <-]. exists ov. split; [reflexivity|].
        split; [reflexivity|]. split; [|reflexivity].
        intros ty anim _ _. rewrite Ea. discriminate.
    + assert (Hsame : forall r : value * loader,
                r = (overlay', self') -> fst r = VDict ov ->
                exists ov', overlay' = VDict ov'
                  /\ (forall k, k <> "animation" ->
                                dict_get ov' k = dict_get ov k)
                  /\ (forall ty anim,
                        dict_get ov' "type" = Some ty ->
                        is_str ty "text" = true ->
                        dict_get ov' "animation" = Some anim ->
                        exists s, anim = VStr s /\ In s VALID_ANIMATIONS)
                  /\ (forall anim s,
                        dict_get ov "animation" = Some anim ->
                        anim = VStr s -> In s VALID_ANIMATIONS -> ov' = ov)).
      { intros r -> Hr. cbn in Hr. exists ov. split; [exact Hr|].
        split; [reflexivity|]. split; [|reflexivity].
        intros ty anim Hty Ht. rewrite Ety in Hty. injection Hty as <-.
        congruence. }
      destruct (is_str ty0 "image").
      * destruct (dict_get ov "path") as [path|].
        -- destruct (path_exists fs path) as [[|]|e]; cbn [bind negb];
             [| |discriminate]; intros [= H1 H2];
             eapply Hsame; [rewrite <- H1, <- H2; reflexivity|reflexivity
                           |rewrite <- H1, <- H2; reflexivity|reflexivity].
        -- intros [= H1 H2].
           eapply Hsame; [rewrite <- H1, <- H2; reflexivity|reflexivity].
      * intros [= H1 H2].
        eapply Hsame; [rewrite <- H1, <- H2; reflexivity|reflexivity].
  - intros [= <- <-]. exists ov. split; [reflexivity|].
    split; [reflexivity|]. split; [|reflexivity].
    intros ty anim Hty. rewrite Ety in Hty. discriminate.
Qed.

End Env.

Lemma validated_animation_is_valid_witness :
  exists ov' st,
    validate_overlay _ MissingAudioFacts.on_disk MissingAudioFacts.plain_str
      LoadTheorems.full_disk "Scene 1" 0
      (VDict [("type", VStr "text"); ("text", VStr "Hi");
              ("animation", VStr "pop")])
      MissingAudioFacts.fresh_loader
    = Ok (VDict ov', st)
    /\ exists s, dict_get ov' "animation" = Some (VStr s)
                 /\ In s VALID_ANIMATIONS.
Proof.
  destruct (validate_overlay _ MissingAudioFacts.on_disk
      MissingAudioFacts.plain_str LoadTheorems.full_disk "Scene 1" 0
      (VDict [("type", VStr "text"); ("text", VStr "Hi");
              ("animation", VStr "pop")])
      MissingAudioFacts.fresh_loader) as [[o st]|e] eqn:E;
    [|vm_compute in E; discriminate].
  destruct (validated_animation_is_valid _ _ _ _ _ _ _ _ _ _ E)
    as (ov' & -> & Hk & Hv & _).
  exists ov', st. split; [reflexivity|].
  assert (Ha : exists anim, dict_get ov' "animation" = Some anim).
  { vm_compute in E. injection E as <- _. eexists. reflexivity. }
  destruct Ha as (anim & Ha).
  destruct (Hv (VStr "text") anim) as (s & -> & Hs).
  - rewrite Hk by discriminate. reflexivity.
  - reflexivity.
  - exact Ha.
  - exists s. split; assumption.
Defined.

End OverlayFacts.

(** ** Which generator renders a valid animation name *)

Module AnimationNames.
Import Py TextAnimator.

Ltac eval_contains :=
  repeat match goal with
  | |- context [PyStr.contains ?a (PyStr.lower ?b)] =>
      let v := eval vm_compute in (PyStr.contains a (PyStr.lower b)) in
      change (PyStr.contains a (PyStr.lower b)) with v
  end; cbn [andb orb].

(** Every animation name the loader accepts is rendered by the fade, the
    slide or the scale generator, never by the pop generator.  The names
    [typewriter], [word_by_word] and [AnimateTextFromLeft] are rendered as a
    plain fade. *)
Theorem valid_animation_generators (pil_font : Type) (self : animator)
  (text_img : image pil_font) (animation : string)
  (duration start_time : Q) (pos_x pos_y : Z) :
  In animation ConfigLoader.VALID_ANIMATIONS ->
  let total_frames := Py.int (duration * fps self) in
  let frames :=
    generate_animation_frames self text_img animation duration start_time
      pos_x pos_y in
  (In animation ["fade_in"; "typewriter"; "word_by_word";
                 "AnimateTextFromLeft"; "AnimateTextFadeInWordByWord"]
   /\ frames = _animate_fade pil_font self text_img total_frames start_time
                 pos_x pos_y)
  \/ (exists direction,
        In direction ["bottom"; "top"; "left"; "right"]
        /\ animation = "slide_" ++ direction
        /\ frames = _animate_slide pil_font self text_img total_frames
                      start_time direction pos_x pos_y)
  \/ (In animation ["scale_in"; "grow"; "AnimateTextGrowFromCenter"]
      /\ frames = _animate_scale pil_font self text_img total_frames
                    start_time pos_x pos_y).
Proof.
  intros Hin. cbv zeta. unfold generate_animation_frames. cbv zeta.
  unfold ConfigLoader.VALID_ANIMATIONS in Hin.
  repeat (destruct Hin as [<-|Hin]); [..|destruct Hin]; eval_contains.
  - left. split; [simpl; auto|reflexivity].
  - right. left. exists "bottom". simpl. auto.
  - right. left. exists "top". simpl. auto.
  - right. left. exists "left". simpl. auto.
  - right. left. exists "right". simpl. auto 6.
  - right. right. split; [simpl; auto|reflexivity].
  - right. right. split; [simpl; auto|reflexivity].
  - left. split; [simpl; auto|reflexivity].
  - left. split; [simpl; auto|reflexivity].
  - left. split; [simpl; auto 6|reflexivity].
  - right. right. split; [simpl; auto|reflexivity].
  - left. split; [simpl; auto 6|reflexivity].
Qed.

Lemma valid_animation_generators_witness :
  generate_animation_frames FrameFacts.default_animator
    FrameFacts.sample_text_img "typewriter" 4 0.5 592 432
  = _animate_fade unit FrameFacts.default_animator
      FrameFacts.sample_text_img 120 0.5 592 432.
Proof.
  destruct (valid_animation_generators unit FrameFacts.default_animator
              FrameFacts.sample_text_img "typewriter" 4 0.5 592 432)
    as [[_ H]|[(dir & _ & Hd & _)|[Hs _]]].
  - simpl. auto 10.
  - exact H.
  - exfalso. destruct dir; [discriminate|]. cbn in Hd. discriminate.
  - exfalso. cbn in Hs. intuition discriminate.
Defined.

End AnimationNames.

(** ** Shape of the easing curves (utils/easing.py) *)

Module EasingShape.
Import Reals Lra Easing EasingFacts.
Local Open Scope R_scope.

(** The three in-out curves are point-symmetric about (1/2, 1/2): what has
    been covered at [t] is what is left at [1 - t].  The cubic ease-out is
    the mirror image of the cubic ease-in. *)
Theorem in_out_curves_symmetric (t : R) :
  ease_in_out_cubic t + ease_in_out_cubic (1 - t) = 1
  /\ ease_in_out_quad t + ease_in_out_quad (1 - t) = 1
  /\ ease_in_out_sine t + ease_in_out_sine (1 - t) = 1
  /\ ease_out_cubic t = 1 - ease_in_cubic (1 - t).
Proof.
  split; [|split; [|split]].
  - unfold ease_in_out_cubic.
    destruct (Rlt_dec t 0.5), (Rlt_dec (1 - t) 0.5); simpl; try lra.
    assert (t = 0.5) by lra. subst. lra.
  - unfold ease_in_out_quad.
    destruct (Rlt_dec t 0.5), (Rlt_dec (1 - t) 0.5); simpl; try lra.
    assert (t = 0.5) by lra. subst. lra.
  - unfold ease_in_out_sine.
    replace (PI * (1 - t)) with (PI - PI * t) by ring.
    rewrite cos_minus, cos_PI, sin_PI. lra.
  - unfold ease_out_cubic, ease_in_cubic. simpl. ring.
Qed.

Lemma two_pow_minus_ten : Rpower 2 (-10) = / 1024.
Proof.
  replace (-10) with (- INR 10) by (simpl; lra).
  rewrite Rpower_Ropp, Rpower_pow by lra. f_equal. simpl. lra.
Qed.

(** The exponential ease-out jumps at the end: before [t = 1] it stays
    below [1 - 2^-10], and at [t = 1] it is 1. *)
Theorem ease_out_expo_jump (t : R) :
  t < 1 -> ease_out_expo t < 1 - / 1024 /\ ease_out_expo 1 = 1.
Proof.
  intros Ht. unfold ease_out_expo. split.
  - destruct (Req_dec_T t 1); [lra|].
    assert (Rpower 2 (-10) < Rpower 2 (-10 * t)).
    { apply Rpower_lt; lra. }
    rewrite two_pow_minus_ten in *. lra.
  - destruct (Req_dec_T 1 1); [reflexivity|congruence].
Qed.

Lemma ease_out_expo_jump_witness :
  ease_out_expo 0.999 < 1 - / 1024 /\ ease_out_expo 1 = 1.
Proof. apply ease_out_expo_jump. lra. Defined.

Lemma ease_out_back_range (t : R) :
  0 <= t <= 1 -> 0 <= ease_out_back t <= 1.1001.
Proof.
  intros [H0 H1]. unfold ease_out_back. cbv zeta.
  remember (1 - t) as u eqn:Eu.
  replace (t - 1) with (- u) by lra.
  assert (Hu0 : 0 <= u) by lra. assert (Hu1 : u <= 1) by lra.
  assert (Hsq : 0 <= u * u) by nra.
  split.
  - assert (0 <= u * u * (1 - u)) by nra.
    assert (u * u * u <= 1) by nra.
    simpl. nra.
  - assert (0 <= (u - 0.42) * (u - 0.42) * (u + 0.21)).
    { apply Rmult_le_pos; [exact (Rle_0_sqr (u - 0.42))|lra]. }
    simpl. nra.
Qed.

(** Whatever name is asked for, the curve handed back by [get_easing] maps
    [0, 1] into [0, 1.1001]; only the [dynamic] preset leaves [0, 1], by
    at most a hundredth of a percent over ten percent. *)
Theorem get_easing_range (name : string) (t : R) :
  0 <= t <= 1 ->
  0 <= fst (get_easing name) t <= 1.1001
  /\ (name <> "dynamic" -> fst (get_easing name) t <= 1).
Proof.
  intros Ht.
  pose proof (monotone_into_unit _ (proj1 ease_in_out_cubic_ok)
                (proj2 ease_in_out_cubic_ok) t Ht) as Hcubic.
  pose proof (monotone_into_unit _ (proj1 ease_in_out_sine_ok)
                (proj2 ease_in_out_sine_ok) t Ht) as Hsine.
  pose proof (monotone_into_unit _ (proj1 ease_out_cubic_ok)
                (proj2 ease_out_cubic_ok) t Ht) as Hout.
  pose proof (monotone_into_unit _ (proj1 ease_in_out_quad_ok)
                (proj2 ease_in_out_quad_ok) t Ht) as Hquad.
  pose proof (ease_out_back_range t Ht) as Hback.
  unfold get_easing, EASING_PRESETS. cbn [preset fst].
  destruct (String.eqb "motion" name); [cbn [fst]; lra|].
  destruct (String.eqb "zoom" name); [cbn [fst]; lra|].
  destruct (String.eqb "text" name); [cbn [fst]; lra|].
  destruct (String.eqb "transition" name); [cbn [fst]; lra|].
  destruct (String.eqb_spec "dynamic" name) as [<-|Hne]; cbn [fst].
  - split; [lra|]. intros H. now elim H.
  - lra.
Qed.

Lemma get_easing_range_witness :
  0 <= fst (get_easing "dynamic") 0.5 <= 1.1001.
Proof. apply get_easing_range. lra. Defined.

End EasingShape.

(** ** Background motion (effects/motion.py) *)

Module MotionFacts.
Import Py Reals Lra Easing EasingFacts EasingShape Motion.
Local Open Scope R_scope.

Lemma get_easing_endpoints (name : string) : endpoints (fst (get_easing name)).
Proof.
  unfold get_easing, EASING_PRESETS. cbn [preset fst].
  destruct (String.eqb "motion" name); [apply ease_in_out_cubic_ok|].
  destruct (String.eqb "zoom" name); [apply ease_in_out_sine_ok|].
  destruct (String.eqb "text" name); [apply ease_out_cubic_ok|].
  destruct (String.eqb "transition" name); [apply ease_in_out_quad_ok|].
  destruct (String.eqb "dynamic" name);
    [apply ease_out_back_endpoints|apply ease_in_out_cubic_ok].
Qed.

Lemma elapsed_ok (duration t : R) :
  0 < duration -> elapsed duration t = Ok (t / duration).
Proof.
  intros H. unfold elapsed. destruct (Req_dec_T duration 0); [lra|reflexivity].
Qed.

Lemma elapsed_unit (duration t : R) :
  0 < duration -> 0 <= t <= duration -> 0 <= t / duration <= 1.
Proof.
  intros Hd [H0 H1]. split.
  - apply Rmult_le_pos; [lra|]. left. now apply Rinv_0_lt_compat.
  - apply (Rmult_le_reg_r duration); [lra|].
    unfold Rdiv. rewrite Rmult_assoc, Rinv_l by lra. lra.
Qed.

(** The progress of an effect: the eased fraction of the duration. *)
Definition progress_at (easing : string) (duration t : R) : R :=
  fst (get_easing easing) (t / duration).

Arguments progress_at : simpl never.

Lemma get_easing_unit (name : string) :
  name <> "dynamic" -> into_unit (fst (get_easing name)).
Proof.
  intros Hne. unfold get_easing, EASING_PRESETS. cbn [preset fst].
  destruct (String.eqb "motion" name);
    [apply monotone_into_unit; apply ease_in_out_cubic_ok|].
  destruct (String.eqb "zoom" name);
    [apply monotone_into_unit; apply ease_in_out_sine_ok|].
  destruct (String.eqb "text" name);
    [apply monotone_into_unit; apply ease_out_cubic_ok|].
  destruct (String.eqb "transition" name);
    [apply monotone_into_unit; apply ease_in_out_quad_ok|].
  destruct (String.eqb_spec "dynamic" name) as [E|_]; [now elim Hne|].
  apply monotone_into_unit; apply ease_in_out_cubic_ok.
Qed.

Lemma progress_unit (easing : string) (duration t : R) :
  easing <> "dynamic" -> 0 < duration -> 0 <= t <= duration ->
  0 <= progress_at easing duration t <= 1.
Proof.
  intros He Hd Ht. unfold progress_at.
  apply (get_easing_unit easing He). now apply elapsed_unit.
Qed.

Lemma progress_start (easing : string) (duration : R) :
  progress_at easing duration 0 = 0.
Proof.
  unfold progress_at. replace (0 / duration) with 0 by (unfold Rdiv; ring).
  apply get_easing_endpoints.
Qed.

Lemma progress_end (easing : string) (duration : R) :
  0 < duration -> progress_at easing duration duration = 1.
Proof.
  intros Hd. unfold progress_at.
  replace (duration / duration) with 1 by (field; lra).
  apply get_easing_endpoints.
Qed.

Lemma get_scale_progress (duration zoom : R) (direction : value)
  (easing : string) (t : R) :
  0 < duration ->
  get_scale duration zoom direction easing t
  = let progress := progress_at easing duration t in
    if is_str direction "in" then Ok (1.0 + (zoom - 1.0) * progress)
    else if is_str direction "out" then Ok (zoom - (zoom - 1.0) * progress)
    else if is_str direction "in-out" then
      if Rlt_dec progress 0.5
      then Ok (1.0 + (zoom - 1.0) * (progress * 2))
      else Ok (zoom - (zoom - 1.0) * ((progress - 0.5) * 2))
    else Ok zoom.
Proof.
  intros Hd. unfold get_scale. rewrite (elapsed_ok _ _ Hd). reflexivity.
Qed.

Lemma get_scale_in_range (duration zoom : R) (direction : value)
  (easing : string) (t : R) :
  0 < duration -> 1 <= zoom -> easing <> "dynamic" ->
  0 <= t <= duration ->
  exists s, get_scale duration zoom direction easing t = Ok s
            /\ 1 <= s <= zoom.
Proof.
  intros Hd Hz He Ht.
  pose proof (progress_unit easing duration t He Hd Ht) as Hp.
  rewrite (get_scale_progress _ _ _ _ _ Hd). cbv zeta.
  destruct (is_str direction "in"); [eexists; split; [reflexivity|nra]|].
  destruct (is_str direction "out"); [eexists; split; [reflexivity|nra]|].
  destruct (is_str direction "in-out");
    [|eexists; split; [reflexivity|lra]].
  destruct (Rlt_dec _ 0.5); eexists; (split; [reflexivity|nra]).
Qed.

(** The Ken Burns zoom never leaves the range between no zoom and the
    configured zoom while the scene plays, whatever the direction; a zoom
    in starts at 1 and ends at [zoom], a zoom out does the reverse, an
    in-out zoom starts and ends at 1, and any other direction holds the
    image at [zoom] throughout. *)
Theorem ken_burns_scale_range (duration zoom : R) (direction : value)
  (easing : string) (t : R) :
  0 < duration -> 1 <= zoom -> easing <> "dynamic" ->
  0 <= t <= duration ->
  (exists s, get_scale duration zoom direction easing t = Ok s
             /\ 1 <= s <= zoom)
  /\ get_scale duration zoom (VStr "in") easing 0 = Ok 1
  /\ (exists s, get_scale duration zoom (VStr "in") easing duration = Ok s
                /\ s = zoom)
  /\ (exists s, get_scale duration zoom (VStr "out") easing 0 = Ok s
                /\ s = zoom)
  /\ (exists s, get_scale duration zoom (VStr "out") easing duration = Ok s
                /\ s = 1)
  /\ (exists s, get_scale duration zoom (VStr "in-out") easing 0 = Ok s
                /\ s = 1)
  /\ (exists s, get_scale duration zoom (VStr "in-out") easing duration = Ok s
                /\ s = 1)
  /\ (is_str direction "in" = false -> is_str direction "out" = false ->
      is_str direction "in-out" = false ->
      get_scale duration zoom direction easing t = Ok zoom).
Proof.
  intros Hd Hz He Ht.
  pose proof (progress_unit easing duration t He Hd Ht) as Hp.
  repeat split.
  - now apply get_scale_in_range.
  - rewrite (get_scale_progress _ _ _ _ _ Hd). cbn.
    rewrite progress_start. f_equal. lra.
  - rewrite (get_scale_progress _ _ _ _ _ Hd). cbn.
    rewrite (progress_end _ _ Hd). eexists. split; [reflexivity|lra].
  - rewrite (get_scale_progress _ _ _ _ _ Hd). cbn.
    rewrite progress_start. eexists. split; [reflexivity|lra].
  - rewrite (get_scale_progress _ _ _ _ _ Hd). cbn.
    rewrite (progress_end _ _ Hd). eexists. split; [reflexivity|lra].
  - rewrite (get_scale_progress _ _ _ _ _ Hd). cbn.
    rewrite progress_start.
    destruct (Rlt_dec 0 0.5); [|lra]. eexists. split; [reflexivity|lra].
  - rewrite (get_scale_progress _ _ _ _ _ Hd). cbn.
    rewrite (progress_end _ _ Hd).
    destruct (Rlt_dec 1 0.5); [lra|]. eexists. split; [reflexivity|lra].
  - intros H1 H2 H3. rewrite (get_scale_progress _ _ _ _ _ Hd). cbv zeta.
    now rewrite H1, H2, H3.
Qed.

Lemma ken_burns_scale_range_witness :
  exists s, get_scale 5 1.2 (VStr "in-out") "motion" 2 = Ok s
            /\ 1 <= s <= 1.2.
Proof.
  destruct (ken_burns_scale_range 5 1.2 (VStr "in-out") "motion" 2)
    as [H _]; try lra.
  - discriminate.
  - exact H.
Defined.

(** The scaled image covers the frame along an axis when placed at [x]:
    its near edge is not inside the frame, nor is its far edge. *)
Definition covers (dim scale : R) (x : coordinate) : Prop :=
  match x with
  | Center => True
  | At a => a <= 0 /\ dim <= a + dim * scale
  end.

(** While a Ken Burns pan plays, the enlarged image always covers the
    frame: no edge of the image enters the picture. *)
Theorem ken_burns_pan_covers_frame (w h duration zoom : R)
  (direction pan : value) (easing : string) (t : R) :
  0 <= w -> 0 <= h -> 0 < duration -> 1 <= zoom -> easing <> "dynamic" ->
  0 <= t <= duration ->
  exists s x y,
    get_scale duration zoom direction easing t = Ok s
    /\ get_position w h duration zoom direction pan easing t = Ok (x, y)
    /\ covers w s x /\ covers h s y.
Proof.
  intros Hw Hh Hd Hz He Ht.
  destruct (get_scale_in_range duration zoom direction easing t
              Hd Hz He Ht) as (s & Es & Hs).
  pose proof (progress_unit easing duration t He Hd Ht) as Hp.
  unfold get_position. rewrite (elapsed_ok _ _ Hd). cbn [bind].
  rewrite Es. cbn [bind].
  fold (progress_at easing duration t).
  set (p := progress_at easing duration t) in *.
  assert (Haw : 0 <= w * s - w) by nra.
  assert (Hah : 0 <= h * s - h) by nra.
  assert (Hwp : 0 <= (w * s - w) * p) by (apply Rmult_le_pos; lra).
  assert (Hwq : 0 <= (w * s - w) * (1 - p)) by (apply Rmult_le_pos; lra).
  assert (Hhp : 0 <= (h * s - h) * p) by (apply Rmult_le_pos; lra).
  assert (Hhq : 0 <= (h * s - h) * (1 - p)) by (apply Rmult_le_pos; lra).
  exists s.
  destruct (is_str pan "right");
    [eexists _, _; split; [reflexivity|]; split; [reflexivity|];
     split; [cbn; nra|exact I]|].
  destruct (is_str pan "left");
    [eexists _, _; split; [reflexivity|]; split; [reflexivity|];
     split; [cbn; nra|exact I]|].
  destruct (is_str pan "down");
    [eexists _, _; split; [reflexivity|]; split; [reflexivity|];
     split; [exact I|cbn; nra]|].
  destruct (is_str pan "up");
    [eexists _, _; split; [reflexivity|]; split; [reflexivity|];
     split; [exact I|cbn; nra]|].
  eexists _, _. split; [reflexivity|]. split; [reflexivity|].
  split; exact I.
Qed.

Lemma ken_burns_pan_covers_frame_witness :
  exists s x y,
    get_scale 5 1.1 (VStr "in") "motion" 2 = Ok s
    /\ get_position 1184 864 5 1.1 (VStr "in") (VStr "right") "motion" 2
       = Ok (x, y)
    /\ covers 1184 s x /\ covers 864 s y.
Proof.
  apply ken_burns_pan_covers_frame; try lra. discriminate.
Defined.

(** The parallax offset runs from [-w * depth] at the start of the scene
    to [+w * depth] at its end and stays between the two.  The clip is
    enlarged by [2 * depth] and placed by its left edge, so from the
    middle of the motion on its left edge is inside the frame. *)
Theorem parallax_offset_range (w duration depth : R) (easing : string)
  (t : R) :
  0 <= w -> 0 <= depth -> 0 < duration -> easing <> "dynamic" ->
  0 <= t <= duration ->
  (exists x, parallax_position w duration depth easing t = Ok (At x, Center)
             /\ - (w * depth) <= x <= w * depth
             /\ (0.5 < progress_at easing duration t -> 0 < w * depth ->
                 0 < x))
  /\ (exists x, parallax_position w duration depth easing 0
                = Ok (At x, Center) /\ x = - (w * depth))
  /\ (exists x, parallax_position w duration depth easing duration
                = Ok (At x, Center) /\ x = w * depth).
Proof.
  intros Hw Hdp Hd He Ht.
  pose proof (progress_unit easing duration t He Hd Ht) as Hp.
  unfold parallax_position. rewrite !(elapsed_ok _ _ Hd). cbn [bind].
  fold (progress_at easing duration t) (progress_at easing duration 0)
    (progress_at easing duration duration).
  rewrite progress_start, (progress_end _ _ Hd).
  split; [|split].
  - set (p := progress_at easing duration t) in *.
    assert (Ha : 0 <= w * depth) by (apply Rmult_le_pos; lra).
    assert (Hap : 0 <= w * depth * p) by (apply Rmult_le_pos; lra).
    assert (Haq : 0 <= w * depth * (1 - p)) by (apply Rmult_le_pos; lra).
    eexists. split; [reflexivity|]. split; [lra|].
    intros Hhalf Hpos.
    assert (0 < w * depth * (p - 0.5)) by (apply Rmult_lt_0_compat; lra).
    lra.
  - eexists. split; [reflexivity|]. lra.
  - eexists. split; [reflexivity|]. lra.
Qed.

Lemma parallax_offset_range_witness :
  exists x, parallax_position 1184 5 0.05 "motion" 5 = Ok (At x, Center)
            /\ x = 1184 * 0.05.
Proof.
  destruct (parallax_offset_range 1184 5 0.05 "motion" 5) as (_ & _ & H);
    try lra.
  - discriminate.
  - exact H.
Defined.

(** The zoom pulse stays within [intensity] of the original size, starts
    at the original size, and comes back to it at the end of the scene
    when the number of pulses is a whole number. *)
Theorem zoom_pulse_range (duration intensity pulses t : R) :
  0 < duration ->
  (exists s, pulse_scale duration intensity pulses t = Ok s
             /\ Rabs (s - 1) <= Rabs intensity)
  /\ (exists s, pulse_scale duration intensity pulses 0 = Ok s /\ s = 1)
  /\ (forall k : Z, pulses = IZR k ->
        exists s, pulse_scale duration intensity pulses duration = Ok s
                  /\ s = 1).
Proof.
  intros Hd. unfold pulse_scale. rewrite !(elapsed_ok _ _ Hd). cbn [bind].
  split; [|split].
  - eexists. split; [reflexivity|].
    replace (1.0 + intensity * sin (t / duration * pulses * PI * 2) - 1)
      with (intensity * sin (t / duration * pulses * PI * 2)) by lra.
    rewrite Rabs_mult.
    rewrite <- (Rmult_1_r (Rabs intensity)) at 2.
    apply Rmult_le_compat_l; [apply Rabs_pos|].
    apply Rabs_le. pose proof (SIN_bound (t / duration * pulses * PI * 2)).
    lra.
  - eexists. split; [reflexivity|].
    replace (0 / duration * pulses * PI * 2) with 0
      by (unfold Rdiv; ring).
    rewrite sin_0. lra.
  - intros k ->. eexists. split; [reflexivity|].
    replace (duration / duration * IZR k * PI * 2)
      with (IZR (2 * k) * PI) by (rewrite mult_IZR; field; lra).
    rewrite sin_eq_0_1 by (exists (2 * k)%Z; reflexivity).
    lra.
Qed.

Lemma zoom_pulse_range_witness :
  exists s, pulse_scale 5 0.03 1 5 = Ok s /\ s = 1.
Proof.
  destruct (zoom_pulse_range 5 0.03 1 5) as (_ & _ & H); [lra|].
  apply (H 1%Z). reflexivity.
Defined.

(** Of the five motion names the loader accepts, [kenBurns], [parallax]
    and [pulse] animate the background; [zoom_pulse] leaves the clip as it
    is, like [static].  Any other type leaves it as it is too. *)
Theorem valid_motions_applied (effect_config : dict) (ty : value) :
  dict_get effect_config "type" = Some ty ->
  (apply_motion_effect effect_config = Unchanged
   <-> ~ (ty = VStr "kenBurns" \/ ty = VStr "parallax" \/ ty = VStr "pulse"))
  /\ (ty = VStr "zoom_pulse" ->
      In "zoom_pulse" ConfigLoader.VALID_MOTIONS
      /\ apply_motion_effect effect_config = Unchanged).
Proof.
  intros Hty. unfold apply_motion_effect, dict_get_default. rewrite Hty.
  cbv zeta. split.
  - destruct ty as [| | | |s| |]; cbn [is_str];
      try (split; [intros _ [H|[H|H]]; discriminate|reflexivity]).
    destruct (String.eqb_spec s "static") as [->|H1].
    { split; [intros _ [H|[H|H]]; discriminate|reflexivity]. }
    destruct (String.eqb_spec s "kenBurns") as [->|H2].
    { split; [discriminate|intros H; elim H; auto]. }
    destruct (String.eqb_spec s "parallax") as [->|H3].
    { split; [discriminate|intros H; elim H; auto]. }
    destruct (String.eqb_spec s "pulse") as [->|H4].
    { split; [discriminate|intros H; elim H; auto]. }
    split; [|reflexivity].
    intros _ [H|[H|H]]; injection H as ->; congruence.
  - intros ->. split; [simpl; auto 6|reflexivity].
Qed.

Lemma valid_motions_applied_witness :
  apply_motion_effect
    [("type", VStr "zoom_pulse"); ("intensity", VFloat 0.05)] = Unchanged.
Proof.
  destruct (valid_motions_applied
              [("type", VStr "zoom_pulse"); ("intensity", VFloat 0.05)]
              (VStr "zoom_pulse") eq_refl) as [_ H].
  exact (proj2 (H eq_refl)).
Defined.

End MotionFacts.

(** ** The mixed pipeline (video_mixer) *)

Module MixedFacts.
Import Py MoviePy PyFacts IntFacts TransitionFacts TimelineLength AudioLength.

(** *** Loading a video file (VideoUtils.load_video) *)

(** Where the footage is cut at the end: the given end time, capped at the
    length of the file; the length of the file when no end time is given
    (or when it is zero, which reads as not given). *)
Definition stop_time (length : Q) (end_time : option Q) : Q :=
  match end_time with
  | Some e => if Qeq_bool e 0 then length else Py.min e length
  | None => length
  end.

Lemma footage_repeat_duration (c : VideoUtils.footage) (n : nat) :
  VideoUtils.footage_duration (VideoUtils.Concatenate (repeat c n))
  == inject_Z (Z.of_nat n) * VideoUtils.footage_duration c.
Proof.
  cbn [VideoUtils.footage_duration]. induction n as [|n IH].
  - simpl. ring.
  - cbn [repeat fold_right]. rewrite IH.
    rewrite Nat2Z.inj_succ. unfold Z.succ. rewrite inject_Z_plus. ring.
Qed.

(** A video that exists, read from a start time before its cut and at a
    positive speed, is handed back with exactly the target duration when
    one is given, and with its own length, [(stop - start) / speed],
    otherwise.  When it has to be looped, the repetitions cover the
    target. *)
Theorem load_video_length
  (path_exists : value -> result bool) (video_length : string -> Q)
  (p : string) (target_duration : option Q) (start_time : Q)
  (end_time : option Q) (speed : Q) :
  path_exists (VStr p) = Ok true ->
  0 <= start_time -> 0 < speed ->
  start_time < stop_time (video_length p) end_time ->
  exists clip notices,
    VideoUtils.load_video path_exists video_length (VStr p) target_duration
      start_time end_time speed = Ok (clip, notices)
    /\ VideoUtils.footage_duration clip
       == match target_duration with
          | Some target => target
          | None => (stop_time (video_length p) end_time - start_time) / speed
          end
    /\ (notices = [VideoUtils.Looped] ->
        exists inner target,
          target_duration = Some target
          /\ clip = VideoUtils.Subclip inner 0 target
          /\ target <= VideoUtils.footage_duration inner).
Proof.
  intros Hex Hs0 Hsp Hstop. unfold VideoUtils.load_video.
  rewrite Hex. cbn [bind negb].
  set (file := VideoUtils.VideoFileClip p (video_length p)).
  set (trimmed :=
    match end_time with
    | Some e =>
        if negb (Qeq_bool e 0)
        then VideoUtils.Subclip file start_time
               (Py.min e (VideoUtils.footage_duration file))
        else if Qltb 0 start_time
             then VideoUtils.Subclip file start_time
                    (VideoUtils.footage_duration file)
             else file
    | None =>
        if Qltb 0 start_time
        then VideoUtils.Subclip file start_time
               (VideoUtils.footage_duration file)
        else file
    end).
  assert (Htrim : VideoUtils.footage_duration trimmed
                  == stop_time (video_length p) end_time - start_time).
  { assert (Hfrom : VideoUtils.footage_duration
              (if Qltb 0 start_time
               then VideoUtils.Subclip file start_time
                      (VideoUtils.footage_duration file)
               else file) == video_length p - start_time).
    { destruct (Qltb 0 start_time) eqn:E; cbn; [reflexivity|].
      apply Qltb_ge in E. lra. }
    subst trimmed. unfold stop_time.
    destruct end_time as [e|]; [|exact Hfrom].
    destruct (Qeq_bool e 0); cbn [negb]; [exact Hfrom|reflexivity]. }
  clearbody trimmed.
  set (natural := (stop_time (video_length p) end_time - start_time) / speed).
  assert (Hnat : 0 < natural).
  { subst natural. apply Qlt_shift_div_l; lra. }
  assert (Hsped : exists sped,
    (if negb (Qeq_bool speed 1.0)
     then if Qeq_bool speed 0 then Raise ZeroDivisionError
          else Ok (VideoUtils.SpeedX trimmed speed)
     else Ok trimmed) = Ok sped
    /\ VideoUtils.footage_duration sped == natural).
  { destruct (Qeq_bool speed 1.0) eqn:E1; cbn [negb].
    - exists trimmed. split; [reflexivity|].
      apply Qeq_bool_iff in E1. subst natural. rewrite Htrim, E1.
      field.
    - destruct (Qeq_bool speed 0) eqn:E0.
      { apply Qeq_bool_iff in E0. lra. }
      eexists. split; [reflexivity|]. cbn. subst natural.
      now rewrite Htrim. }
  destruct Hsped as (sped & -> & Hdur). cbn [bind].
  destruct target_duration as [target|].
  - destruct (Qltb (VideoUtils.footage_duration sped) target) eqn:E1;
      [apply Qltb_lt in E1|apply Qltb_ge in E1].
    + destruct (Qeq_bool (VideoUtils.footage_duration sped) 0) eqn:E0.
      { apply Qeq_bool_iff in E0. lra. }
      eexists _, _. split; [reflexivity|]. split; [cbn; ring|].
      intros _. eexists _, target. split; [reflexivity|].
      split; [reflexivity|].
      rewrite footage_repeat_duration. apply loops_cover; lra.
    + destruct (Qltb target (VideoUtils.footage_duration sped)) eqn:E2;
        [apply Qltb_lt in E2|apply Qltb_ge in E2].
      * eexists _, _. split; [reflexivity|]. split; [cbn; ring|].
        discriminate.
      * eexists _, _. split; [reflexivity|]. split; [lra|discriminate].
  - eexists _, _. split; [reflexivity|]. split; [exact Hdur|discriminate].
Qed.

Lemma load_video_length_witness :
  exists clip,
    VideoUtils.load_video (fun _ => Ok true) (fun _ => 4) (VStr "clip.mp4")
      (Some 10) 1 None 1 = Ok (clip, [VideoUtils.Looped])
    /\ VideoUtils.footage_duration clip == 10.
Proof.
  destruct (load_video_length (fun _ => Ok true) (fun _ => 4) "clip.mp4"
              (Some 10) 1 None 1 eq_refl)
    as (clip & notices & E & Hd & _); try reflexivity.
  - discriminate.
  - assert (Hn : notices = [VideoUtils.Looped]).
    { vm_compute in E. now injection E as _ <-. }
    subst notices. exists clip. split; [exact E|exact Hd].
Defined.

(** *** The mixed timeline (MixedComposer._concatenate_scenes) *)

Lemma place_from_ends (clips : list clip) :
  (forall c, In c clips -> 0 <= duration c) ->
  forall t,
    t <= last (map clip_end (MixedComposer.place_from t clips)) t
    /\ Forall (fun c => clip_end c
                        <= last (map clip_end
                                   (MixedComposer.place_from t clips)) t)
         (MixedComposer.place_from t clips)
    /\ last (map clip_end (MixedComposer.place_from t clips)) t
       == t + fold_right (fun c total => duration c + total) 0 clips.
Proof.
  induction clips as [|c rest IH]; intros Hpos t.
  - cbn. split; [lra|]. split; [constructor|ring].
  - assert (Hc : 0 <= duration c) by (apply Hpos; now left).
    destruct (IH (fun x Hx => Hpos x (or_intror Hx)) (t + duration c))
      as (Hle & Hall & Hsum).
    cbn [MixedComposer.place_from map fold_right].
    rewrite last_cons. unfold clip_end at 2 5. cbn [start duration set_start].
    split; [lra|]. split.
    + constructor; [unfold clip_end; cbn; exact Hle|exact Hall].
    + rewrite Hsum. ring.
Qed.

Lemma total_length_sum (scenes : list VideoComposer.scene_clip) :
  fold_right (fun c total => duration c + total) 0
    (map VideoComposer.sc_clip scenes)
  = total_length scenes.
Proof.
  induction scenes as [|s rest IH]; cbn; [reflexivity|]. now rewrite IH.
Qed.

Lemma overlap_nonneg_net (scenes : list VideoComposer.scene_clip) :
  (forall s, In s scenes -> 0 <= overlap_of s) ->
  net_length scenes <= total_length scenes.
Proof.
  induction scenes as [|s rest IH]; intros H; cbn [net_length total_length].
  - lra.
  - assert (0 <= overlap_of s) by (apply H; now left).
    assert (net_length rest <= total_length rest).
    { apply IH. intros; apply H; now right. }
    lra.
Qed.

(** The mixed composer ignores transitions: two or more scenes are put one
    after the other and the video lasts the sum of their durations.  With
    the same scenes the standard composer, which overlaps them, is never
    longer, as long as no transition duration is negative. *)
Theorem mixed_timeline_is_the_sum (self : VideoComposer.composer)
  (first : VideoComposer.scene_clip)
  (others : list VideoComposer.scene_clip) :
  (forall s, In s (first :: others) ->
             0 <= duration (VideoComposer.sc_clip s)) ->
  others <> [] ->
  exists mixed,
    MixedComposer._concatenate_scenes self (first :: others) = Ok mixed
    /\ video_duration mixed == total_length (first :: others)
    /\ (well_formed (first :: others) ->
        (forall s, In s others -> 0 <= overlap_of s) ->
        exists standard,
          VideoComposer._apply_transitions self (first :: others)
            = Ok standard
          /\ video_duration standard <= video_duration mixed).
Proof.
  intros Hpos Hne.
  assert (Hmixed : exists mixed,
    MixedComposer._concatenate_scenes self (first :: others) = Ok mixed
    /\ video_duration mixed == total_length (first :: others)).
  { unfold MixedComposer._concatenate_scenes.
    destruct others as [|second rest]; [now elim Hne|].
    eexists. split; [reflexivity|]. cbn [video_duration].
    set (clips := map VideoComposer.sc_clip (first :: second :: rest)).
    assert (Hclips : forall c, In c clips -> 0 <= duration c).
    { intros c Hc. apply in_map_iff in Hc as (s & <- & Hs). now apply Hpos. }
    destruct (place_from_ends clips Hclips 0) as (_ & Hall & Hsum).
    rewrite (max_list_last _
               (last (map clip_end (MixedComposer.place_from 0 clips)) 0)).
    - rewrite Hsum. subst clips. rewrite total_length_sum. ring.
    - subst clips. discriminate.
    - apply last_in. subst clips. discriminate.
    - intros x Hx. apply in_map_iff in Hx as (c & <- & Hc).
      rewrite Forall_forall in Hall. now apply Hall. }
  destruct Hmixed as (mixed & E & Hd).
  exists mixed. split; [exact E|]. split; [exact Hd|].
  intros Hwf Hov.
  destruct (apply_transitions_duration self first others Hwf Hpos Hne)
    as (timeline & Et & Hdt).
  eexists. split; [exact Et|]. rewrite Hdt, Hd. cbn [total_length].
  pose proof (overlap_nonneg_net others Hov). lra.
Qed.

Lemma mixed_timeline_is_the_sum_witness :
  exists mixed,
    MixedComposer._concatenate_scenes default_composer
      [scene "one" 5 [] 0; scene "two" 6 (transition_cfg "crossfade" 1) 1]
    = Ok mixed
    /\ video_duration mixed == 11.
Proof.
  destruct (mixed_timeline_is_the_sum default_composer
              (scene "one" 5 [] 0)
              [scene "two" 6 (transition_cfg "crossfade" 1) 1])
    as (mixed & E & Hd & _).
  - intros s [<-|[<-|[]]]; vm_compute; discriminate.
  - discriminate.
  - exists mixed. split; [exact E|]. rewrite Hd. vm_compute. reflexivity.
Defined.

(** *** Audio in the mixed pipeline (MixedComposer._add_audio) *)


End MixedFacts.

(** ** Text overlays in the [lines] form, from validation to timing *)

Module LinesOverlay.
Import Py ConfigLoader DictFacts ValidationFacts SceneDurationFacts.

Section Env.

Variable FS : Type.
Variable path_exists : FS -> value -> result bool.
Variable str : value -> string.

Lemma check_lines_well_formed (name : string) (lines : list value) :
  Forall (fun line => exists d, line = VDict d /\ dict_in "text" d = true)
    lines ->
  forall (i : Z) (self : loader), check_lines name i lines self = self.
Proof.
  induction 1 as [|line rest (d & -> & Hd) _ IH]; intros i self;
    cbn [check_lines]; [reflexivity|].
  rewrite Hd. cbn [negb]. apply IH.
Qed.

(** A text overlay given as [lines] only, each line an object with its
    [text], passes validation without any error; yet a scene that holds
    it and has no positive manual duration cannot be timed:
    [calculate_scene_duration] stops with [KeyError: 'text']. *)
Theorem lines_overlay_valid_but_untimed (fs : FS) (scene_name : string)
  (j : Z) (ov : dict) (lines : list value) (self : loader) :
  dict_get ov "type" = Some (VStr "text") ->
  dict_get ov "text" = None ->
  dict_get ov "lines" = Some (VList lines) ->
  Forall (fun line => exists d, line = VDict d /\ dict_in "text" d = true)
    lines ->
  exists ov' self',
    validate_overlay FS path_exists str fs scene_name j (VDict ov) self
      = Ok (VDict ov', self')
    /\ errors self' = errors self
    /\ forall scene_data before after befores,
         no_manual_duration scene_data ->
         dict_get scene_data "overlays"
           = Some (VList (before ++ VDict ov' :: after)) ->
         Forall2 overlay_shape before befores ->
         Timing.calculate_scene_duration scene_data = Raise (KeyError "text").
Proof.
  intros Hty Htx Hln Hlines.
  assert (Hv : exists ov' self',
    validate_overlay FS path_exists str fs scene_name j (VDict ov) self
      = Ok (VDict ov', self')
    /\ errors self' = errors self
    /\ dict_get ov' "type" = Some (VStr "text")
    /\ dict_get ov' "text" = None).
  { assert (Hi1 : dict_in "type" ov = true) by (unfold dict_in; now rewrite Hty).
    assert (Hi2 : dict_in "text" ov = false) by (unfold dict_in; now rewrite Htx).
    assert (Hi3 : dict_in "lines" ov = true) by (unfold dict_in; now rewrite Hln).
    unfold validate_overlay. cbn [contains_key subscript].
    rewrite Hi1. unfold dict_item. rewrite Hty. cbn [bind negb is_str].
    rewrite String.eqb_refl, Hi2, Hi3, Hln. cbn [negb andb].
    rewrite (check_lines_well_formed _ _ Hlines).
    destruct (dict_get ov "animation") as [anim|].
    - destruct (not_among anim VALID_ANIMATIONS).
      + eexists _, _. split; [reflexivity|]. split; [reflexivity|].
        rewrite !dict_get_set_other by discriminate. auto.
      + eexists _, _. split; [reflexivity|]. auto.
    - eexists _, _. split; [reflexivity|]. auto. }
  destruct Hv as (ov' & self' & E & He & Hty' & Htx').
  exists ov', self'. split; [exact E|]. split; [exact He|].
  intros scene_data before after befores Hno Hov Hsh.
  exact (DurationBounds.text_overlay_without_text_raises scene_data before
           after befores ov' Hno Hov Hsh Hty' Htx').
Qed.

End Env.

Lemma lines_overlay_valid_but_untimed_witness :
  exists ov' self',
    validate_overlay _ MissingAudioFacts.on_disk MissingAudioFacts.plain_str
      LoadTheorems.full_disk "Scene 1" 0
      (VDict [("type", VStr "text");
              ("lines", VList [VDict [("text", VStr "Hello")]])])
      MissingAudioFacts.fresh_loader
    = Ok (VDict ov', self')
    /\ errors self' = []
    /\ Timing.calculate_scene_duration [("overlays", VList [VDict ov'])]
       = Raise (KeyError "text").
Proof.
  destruct (lines_overlay_valid_but_untimed _ MissingAudioFacts.on_disk
              MissingAudioFacts.plain_str LoadTheorems.full_disk "Scene 1" 0
              [("type", VStr "text");
               ("lines", VList [VDict [("text", VStr "Hello")]])]
              [VDict [("text", VStr "Hello")]]
              MissingAudioFacts.fresh_loader eq_refl eq_refl eq_refl)
    as (ov' & self' & E & He & Hraise).
  - constructor; [|constructor]. eexists. split; reflexivity.
  - exists ov', self'. split; [exact E|]. split; [exact He|].
    apply (Hraise _ [] [] []); [left; reflexivity|reflexivity|constructor].
Defined.

End LinesOverlay.

(** ** The fade itself (TextAnimator._animate_fade) *)

Module FadeRamp.
Import Py TextAnimator PhaseFacts.



End FadeRamp.
